(** * The autopoietic kernel: agents, registry and energy economy

    A shallow embedding of [AutopoieticKernel.py]: the [MetaAgent] methods,
    the registry operations of [EnhancedAutopoieticSystem] and the
    self-preservation pass, the scaling, the scheduling and the shutdown
    of [AutopoieticKernel].

    Reading of the Python data:
    - numbers: [energy] and [energy_budget] start as the ints 100 and 1000
      and become floats at the first [* 0.5] or [/]; every int the program
      computes with is far below 2^53, so all of them are carried as IEEE
      binary64 values ([PrimFloat.float]), the type of Python's [float];
    - objects: an agent object is identified by its [id] (a fresh uuid per
      construction); all objects live in one store, and [subagents] lists
      and the registry hold ids, so that an object reached twice is the
      same object;
    - the registry [self.agents] is a dict keyed by id: its keys are kept in
      insertion order;
    - threads: a method call is one sequential computation, and
      [threading.Lock] is a flag whose second acquisition never returns.
      [thread.start()] is recorded in the agent's [thread] flag; the loop
      that the thread runs, [MetaAgent.run], is taken one turn at a time
      ([run_iteration]).  A turn takes the task off the stack without the
      lock and counts it under the lock, which the method that started the
      thread holds until it returns: what a started agent looks like once
      its first turn is over is stated of the call followed by the
      turn. *)

From Stdlib Require Import Floats ZArith String Ascii List QArith Lia.
From stdpp Require Import base gmap sets list strings pretty.

(** ** Strings: [needle in hay] and [str.split] *)

Module PyStr.

(** [hay.startswith(needle)] *)
Fixpoint startswith (needle hay : string) : bool :=
  match needle, hay with
  | EmptyString, _ => true
  | String _ _, EmptyString => false
  | String a n', String b h' => if Ascii.eqb a b then startswith n' h' else false
  end.

(** [needle in hay]: some suffix of [hay] starts with [needle]. *)
Fixpoint contains (needle hay : string) : bool :=
  startswith needle hay ||
  match hay with
  | EmptyString => false
  | String _ h' => contains needle h'
  end.

(** [s.split(sep)] for a one-character separator: the pieces between
    consecutive separators, empty pieces included. *)
Fixpoint split (sep : ascii) (s : string) : list string :=
  match s with
  | EmptyString => [EmptyString]
  | String c rest =>
      if Ascii.eqb c sep then EmptyString :: split sep rest
      else match split sep rest with
           | piece :: pieces => String c piece :: pieces
           | [] => [String c EmptyString]
           end
  end.

(** Number of occurrences of a character. *)
Fixpoint count (sep : ascii) (s : string) : nat :=
  match s with
  | EmptyString => 0
  | String c rest => (if Ascii.eqb c sep then 1 else 0) + count sep rest
  end.

(** [sep.join(pieces)] *)
Fixpoint join (sep : ascii) (pieces : list string) : string :=
  match pieces with
  | [] => EmptyString
  | [p] => p
  | p :: ps => p +:+ String sep (join sep ps)
  end.

(** The mathematical reading of [needle in hay]. *)
Definition Substring (needle hay : string) : Prop :=
  exists pre post, hay = pre +:+ needle +:+ post.

End PyStr.

(** ** Pure agent helpers that only look at strings *)

(** [MetaAgent.decompose_problem] *)
Definition decompose_problem (problem : string) : list string :=
  let components : list string := [] in
  let components :=
    if PyStr.contains "multi-aspect" problem
    then (components ++ ["structural"; "behavioral"; "temporal"])%list
    else components in
  let components :=
    if PyStr.contains "recursive" problem
    then ((components ++ ["base_case"]) ++ ["inductive_step"])%list
    else components in
  components.

(** [MetaAgent.needs_decomposition] *)
Definition needs_decomposition (task : string) : bool :=
  let complexity := length (PyStr.split "_"%char task) in
  (2 <? complexity)%nat || PyStr.contains "multi" task.

(** [set(context)] and [list(set(context))].  Python leaves the iteration
    order of a set unspecified; [elements] fixes one. *)
Definition py_set (context : list string) : gset string := list_to_set context.
Definition list_of_set (s : gset string) : list string := elements s.

(** [MetaAgent.check_for_loops], on the agent's context. *)
Definition check_for_loops_ctx (context : list string) : bool :=
  negb (length context =? size (py_set context))%nat.

(** [MetaAgent.simplify_context] *)
Definition simplify_context_ctx (context : list string) : list string :=
  filter (fun c => PyStr.startswith "sub(" c = false) context.

(** ** Data model *)

Definition AgentId := nat.

(** [reasoning_mode] takes the three string values below. *)
Inductive ReasoningMode := analytic | conservative | adaptive.

(** Exceptions (all subclasses of [Exception]) that the modelled code can
    raise. *)
Inductive exn := AttributeError | IndexError | KeyError.

(** The record built by [learn_from_failure]; its ["timestamp"] is wall-clock
    time and is not carried. *)
Record Insight := mkInsight {
  error_type : exn;
  insight_context : list string;
  energy_at_failure : float
}.

(** Values returned by [process_task]: [None] or a dict of results. *)
#[warnings="-register-all"]
Inductive pyval :=
| VNone
| VBool (b : bool)
| VInt (n : nat)
| VNum (x : float)
| VStr (s : string)
| VDict (items : list (string * pyval)).

(** [if result:] *)
Definition truthy (v : pyval) : bool :=
  match v with
  | VNone => false
  | VBool b => b
  | VInt n => negb (n =? 0)%nat
  | VNum x => negb (PrimFloat.eqb x 0)
  | VStr s => negb (String.eqb s "")
  | VDict items => negb (length items =? 0)%nat
  end.

(** [d[k] = v] on a dict kept in insertion order. *)
Fixpoint dict_set (k : string) (v : pyval) (d : list (string * pyval))
  : list (string * pyval) :=
  match d with
  | [] => [(k, v)]
  | (k', v') :: d' =>
      if String.eqb k k' then (k', v) :: d' else (k', v') :: dict_set k v d'
  end.

(** [d.update(r)] *)
Definition dict_update (d r : list (string * pyval)) : list (string * pyval) :=
  fold_left (fun acc kv => dict_set kv.1 kv.2 acc) r d.

Module Agent.
(** The instance attributes assigned by [MetaAgent.__init__].  [system] is
    the one system; [thread] records whether a thread was started. *)
Record t := mk {
  id : AgentId;
  context : list string;
  memory : list (string * list string);
  energy : float;
  parent : option AgentId;
  subagents : list AgentId;
  task_stack : list string;
  thread : bool;
  active : bool;
  reasoning_mode : ReasoningMode;
  insights : list Insight
}.

Definition set_context (v : list string) (a : t) : t :=
  mk (id a) v (memory a) (energy a) (parent a) (subagents a) (task_stack a)
     (thread a) (active a) (reasoning_mode a) (insights a).
Definition set_memory (v : list (string * list string)) (a : t) : t :=
  mk (id a) (context a) v (energy a) (parent a) (subagents a) (task_stack a)
     (thread a) (active a) (reasoning_mode a) (insights a).
Definition set_energy (v : float) (a : t) : t :=
  mk (id a) (context a) (memory a) v (parent a) (subagents a) (task_stack a)
     (thread a) (active a) (reasoning_mode a) (insights a).
Definition set_subagents (v : list AgentId) (a : t) : t :=
  mk (id a) (context a) (memory a) (energy a) (parent a) v (task_stack a)
     (thread a) (active a) (reasoning_mode a) (insights a).
Definition set_task_stack (v : list string) (a : t) : t :=
  mk (id a) (context a) (memory a) (energy a) (parent a) (subagents a) v
     (thread a) (active a) (reasoning_mode a) (insights a).
Definition set_thread (v : bool) (a : t) : t :=
  mk (id a) (context a) (memory a) (energy a) (parent a) (subagents a)
     (task_stack a) v (active a) (reasoning_mode a) (insights a).
Definition set_active (v : bool) (a : t) : t :=
  mk (id a) (context a) (memory a) (energy a) (parent a) (subagents a)
     (task_stack a) (thread a) v (reasoning_mode a) (insights a).
Definition set_reasoning_mode (v : ReasoningMode) (a : t) : t :=
  mk (id a) (context a) (memory a) (energy a) (parent a) (subagents a)
     (task_stack a) (thread a) (active a) v (insights a).
Definition set_insights (v : list Insight) (a : t) : t :=
  mk (id a) (context a) (memory a) (energy a) (parent a) (subagents a)
     (task_stack a) (thread a) (active a) (reasoning_mode a) v.

(** Every name [getattr] finds on a [MetaAgent]: the instance attributes
    and the methods of the class. *)
Definition attributes : list string :=
  ["id"; "system"; "context"; "memory"; "energy"; "parent"; "subagents";
   "task_stack"; "thread"; "active"; "reasoning_mode"; "insights";
   "inherit_knowledge"; "reason_about_self"; "assess_capabilities";
   "detect_limitations"; "check_for_loops"; "create_subagent";
   "derive_subcontext"; "decompose_problem"; "strategic_evolution";
   "simplify_context"; "consolidate_subagents"; "process_task";
   "needs_decomposition"; "execute_core_reasoning"; "synthesize_results";
   "learn_from_failure"; "run"].
End Agent.

Module Sys.
(** [EnhancedAutopoieticSystem], together with the object store and the
    uuid supply.  [agents] holds the keys of the dict in insertion order;
    the value under a key is the object of that id in [objects].
    [lock] is true while [self.lock] is held. *)
Record t := mk {
  agents : list AgentId;
  energy_budget : float;
  lock : bool;
  insights : list Insight;
  tasks_processed : nat;
  agents_created : nat;
  objects : gmap AgentId Agent.t;
  next_uuid : AgentId
}.

Definition set_agents (v : list AgentId) (s : t) : t :=
  mk v (energy_budget s) (lock s) (insights s) (tasks_processed s)
     (agents_created s) (objects s) (next_uuid s).
Definition set_energy_budget (v : float) (s : t) : t :=
  mk (agents s) v (lock s) (insights s) (tasks_processed s)
     (agents_created s) (objects s) (next_uuid s).
Definition set_lock (v : bool) (s : t) : t :=
  mk (agents s) (energy_budget s) v (insights s) (tasks_processed s)
     (agents_created s) (objects s) (next_uuid s).
Definition set_insights (v : list Insight) (s : t) : t :=
  mk (agents s) (energy_budget s) (lock s) v (tasks_processed s)
     (agents_created s) (objects s) (next_uuid s).
Definition set_tasks_processed (v : nat) (s : t) : t :=
  mk (agents s) (energy_budget s) (lock s) (insights s) v
     (agents_created s) (objects s) (next_uuid s).
Definition set_agents_created (v : nat) (s : t) : t :=
  mk (agents s) (energy_budget s) (lock s) (insights s) (tasks_processed s)
     v (objects s) (next_uuid s).
Definition set_objects (v : gmap AgentId Agent.t) (s : t) : t :=
  mk (agents s) (energy_budget s) (lock s) (insights s) (tasks_processed s)
     (agents_created s) v (next_uuid s).
Definition set_next_uuid (v : AgentId) (s : t) : t :=
  mk (agents s) (energy_budget s) (lock s) (insights s) (tasks_processed s)
     (agents_created s) (objects s) v.

(** [EnhancedAutopoieticSystem.__init__] *)
Definition init : t :=
  mk [] 1000%float false [] 0 0 ∅ 0.
End Sys.

(** ** Computations over the system state

    A method call either returns, raises, waits forever on the lock, or is
    undefined in the model (recursion budget exhausted, or an id that names
    no object). *)

Inductive outcome (A : Type) :=
| Returns (v : A) (s : Sys.t)
| Raises (e : exn) (s : Sys.t)
| Blocks (s : Sys.t)
| Undefined.
Arguments Returns {A} v s.
Arguments Raises {A} e s.
Arguments Blocks {A} s.
Arguments Undefined {A}.

Definition M (A : Type) : Type := Sys.t -> outcome A.

Definition ret {A} (v : A) : M A := fun s => Returns v s.

Definition bind {A B} (m : M A) (k : A -> M B) : M B :=
  fun s =>
    match m s with
    | Returns v s' => k v s'
    | Raises e s' => Raises e s'
    | Blocks s' => Blocks s'
    | Undefined => Undefined
    end.

Notation "'do' x <- m ; k" := (bind m (fun x => k))
  (at level 10, x name, m at level 100, k at level 200).

Definition raise {A} (e : exn) : M A := fun s => Raises e s.
Definition undefined {A} : M A := fun _ => Undefined.
Definition get_state : M Sys.t := fun s => Returns s s.
Definition modify (f : Sys.t -> Sys.t) : M unit := fun s => Returns tt (f s).

(** [try: body  except Exception as e: handler(e)] *)
Definition try_except {A} (body : M A) (handler : exn -> M A) : M A :=
  fun s =>
    match body s with
    | Raises e s' => handler e s'
    | o => o
    end.

(** [with self.lock: body].  [threading.Lock] is not re-entrant: acquiring
    it while it is held waits until another thread releases it, and in a
    sequential computation nobody does.  The lock is released when the
    block is left, by a return or by an exception. *)
Definition with_lock {A} (body : M A) : M A :=
  fun s =>
    if Sys.lock s then Blocks s
    else match body (Sys.set_lock true s) with
         | Returns v s' => Returns v (Sys.set_lock false s')
         | Raises e s' => Raises e (Sys.set_lock false s')
         | Blocks s' => Blocks s'
         | Undefined => Undefined
         end.

(** Reading and updating the object of a given id. *)
Definition get_agent (a : AgentId) : M Agent.t :=
  fun s => match Sys.objects s !! a with
           | Some ag => Returns ag s
           | None => Undefined
           end.

Definition update_agent (a : AgentId) (f : Agent.t -> Agent.t) : M unit :=
  do ag <- get_agent a;
  modify (fun s => Sys.set_objects (<[a := f ag]> (Sys.objects s)) s).

(** [for x in l: body(x)] *)
Fixpoint for_each {A} (l : list A) (body : A -> M unit) : M unit :=
  match l with
  | [] => ret tt
  | x :: l' => do _ <- body x; for_each l' body
  end.

(** ** Numbers *)

(** [float(n)] for a length. *)
Definition float_of_nat (n : nat) : float :=
  PrimFloat.of_uint63 (Uint63.of_Z (Z.of_nat n)).

(** [x > y] and [x < y] on floats. *)
Definition float_gt (x y : float) : bool := PrimFloat.ltb y x.
Definition float_lt (x y : float) : bool := PrimFloat.ltb x y.

(** [deque(maxlen=100).append(x)]: a full deque drops its oldest entry. *)
Definition deque_append {A} (maxlen : nat) (d : list A) (x : A) : list A :=
  let d' := (d ++ [x])%list in drop (length d' - maxlen) d'.

(** ** [MetaAgent] *)

(** [str(uuid.uuid4())]: an id no object carries yet. *)
Definition fresh_uuid : M AgentId :=
  fun s => Returns (Sys.next_uuid s) (Sys.set_next_uuid (S (Sys.next_uuid s)) s).

(** [MetaAgent.inherit_knowledge] *)
Definition inherit_knowledge (self parent : AgentId) : M unit :=
  do p <- get_agent parent;
  do _ <- update_agent self (Agent.set_context (Agent.context p));
  do p <- get_agent parent;
  do _ <- update_agent self (Agent.set_memory (Agent.memory p));
  do p <- get_agent parent;
  update_agent self (Agent.set_reasoning_mode (Agent.reasoning_mode p)).

(** [MetaAgent.__init__(system, parent, initial_context)] *)
Definition MetaAgent_init (parent : option AgentId)
    (initial_context : option (list string)) : M AgentId :=
  do uid <- fresh_uuid;
  let self :=
    Agent.mk uid (default [] initial_context) [] 100%float parent [] []
             false true analytic [] in
  do _ <- modify (fun s => Sys.set_objects (<[uid := self]> (Sys.objects s)) s);
  match parent with
  | Some p =>
      do _ <- inherit_knowledge uid p;
      do pa <- get_agent p;
      do _ <- update_agent uid (Agent.set_energy (Agent.energy pa * 0.5)%float);
      do me <- get_agent uid;
      do _ <- update_agent p
                (fun x => Agent.set_energy (Agent.energy x - Agent.energy me)%float x);
      do _ <- update_agent p
                (fun x => Agent.set_subagents (Agent.subagents x ++ [uid])%list x);
      ret uid
  | None => ret uid
  end.

(** [MetaAgent.assess_capabilities] *)
Definition assess_capabilities (self : AgentId) : M pyval :=
  do a <- get_agent self;
  ret (VDict [("context_depth", VInt (length (Agent.context a)));
              ("processing_power", VNum (Agent.energy a * 10)%float);
              ("subagent_count", VInt (length (Agent.subagents a)))]).

(** [MetaAgent.check_for_loops] *)
Definition check_for_loops (self : AgentId) : M bool :=
  do a <- get_agent self;
  ret (check_for_loops_ctx (Agent.context a)).

(** [MetaAgent.detect_limitations] *)
Definition detect_limitations (self : AgentId) : M pyval :=
  do a <- get_agent self;
  do loops <- check_for_loops self;
  ret (VDict [("context_overload", VBool (10 <? length (Agent.context a))%nat);
              ("energy_critical", VBool (float_lt (Agent.energy a) 20));
              ("reasoning_loops", VBool loops)]).

(** [MetaAgent.reason_about_self] *)
Definition reason_about_self (self : AgentId) : M pyval :=
  do capabilities <- assess_capabilities self;
  do limitations <- detect_limitations self;
  do a <- get_agent self;
  ret (VDict [("capabilities", capabilities);
              ("limitations", limitations);
              ("energy_efficiency",
               VNum (Agent.energy a / float_of_nat (length (Agent.subagents a) + 1))%float)]).

(** [MetaAgent.derive_subcontext] *)
Definition derive_subcontext (self : AgentId) (purpose : string) : M (list string) :=
  do a <- get_agent self;
  ret (("sub(" +:+ purpose +:+ ")") :: take 2 (Agent.context a)).

(** [MetaAgent.create_subagent].  The [return new_agent] inside the [with]
    block and the [return None] after it both leave through the release of
    the lock. *)
Definition create_subagent (self : AgentId) (purpose : option string)
  : M (option AgentId) :=
  with_lock (
    do a <- get_agent self;
    if float_gt (Agent.energy a) 40 then
      let fallback := "subagent_" +:+ pretty (length (Agent.subagents a)) in
      let purpose :=
        match purpose with
        | Some p => if String.eqb p "" then fallback else p
        | None => fallback
        end in
      do subcontext <- derive_subcontext self purpose;
      do new_agent <- MetaAgent_init (Some self) (Some subcontext);
      do _ <- update_agent new_agent
                (fun x => Agent.set_task_stack (Agent.task_stack x ++ [purpose])%list x);
      do _ <- update_agent self
                (fun x => Agent.set_subagents (Agent.subagents x ++ [new_agent])%list x);
      do _ <- update_agent new_agent (Agent.set_thread true);
      do _ <- modify (fun s => Sys.set_agents_created (Sys.agents_created s + 1) s);
      ret (Some new_agent)
    else ret None).

(** [MetaAgent.simplify_context] *)
Definition simplify_context (self : AgentId) : M (list string) :=
  do a <- get_agent self;
  ret (simplify_context_ctx (Agent.context a)).

(** [MetaAgent.consolidate_subagents] *)
Definition consolidate_subagents (self : AgentId) : M unit :=
  with_lock (
    do a <- get_agent self;
    do _ <- for_each (Agent.subagents a) (fun agent =>
      do c <- get_agent agent;
      do _ <- update_agent self
                (fun x => Agent.set_context (Agent.context x ++ Agent.context c)%list x);
      do c <- get_agent agent;
      do _ <- update_agent self
                (fun x => Agent.set_energy (Agent.energy x + Agent.energy c)%float x);
      do _ <- update_agent agent (Agent.set_energy 0%float);
      update_agent agent (Agent.set_active false));
    update_agent self (Agent.set_subagents [])).

(** [d[k]] on a result value. *)
Definition getitem (k : string) (v : pyval) : M pyval :=
  match v with
  | VDict items =>
      match list_find (fun kv => String.eqb kv.1 k = true) items with
      | Some (_, (_, x)) => ret x
      | None => raise KeyError
      end
  | _ => raise KeyError
  end.

(** [MetaAgent.strategic_evolution] *)
Definition strategic_evolution (self : AgentId) : M unit :=
  do a <- get_agent self;
  if float_lt (Agent.energy a) 10 then
    update_agent self (Agent.set_reasoning_mode conservative)
  else
    do analysis <- reason_about_self self;
    do limitations <- getitem "limitations" analysis;
    do overload <- getitem "context_overload" limitations;
    do _ <- (if truthy overload
             then do ctx <- simplify_context self;
                  update_agent self (Agent.set_context ctx)
             else ret tt);
    do loops <- getitem "reasoning_loops" limitations;
    do _ <- (if truthy loops
             then update_agent self
                    (fun x => Agent.set_context (list_of_set (py_set (Agent.context x))) x)
             else ret tt);
    do efficiency <- getitem "energy_efficiency" analysis;
    match efficiency with
    | VNum e => if float_lt e 5 then consolidate_subagents self else ret tt
    | _ => ret tt
    end.

(** [MetaAgent.execute_core_reasoning] *)
Definition execute_core_reasoning (self : AgentId) (task : string) : M pyval :=
  if PyStr.contains "analyze" task then reason_about_self self
  else if PyStr.contains "optimize" task then
    do _ <- strategic_evolution self;
    do a <- get_agent self;
    ret (VDict [("status", VStr "optimized"); ("energy", VNum (Agent.energy a))])
  else
    do a <- get_agent self;
    ret (VDict [("status", VStr "completed"); ("energy", VNum (Agent.energy a))]).

(** [MetaAgent.learn_from_failure] *)
Definition learn_from_failure (self : AgentId) (error : exn) : M unit :=
  do a <- get_agent self;
  let insight := mkInsight error (Agent.context a) (Agent.energy a) in
  do _ <- update_agent self
            (fun x => Agent.set_insights (Agent.insights x ++ [insight])%list x);
  do _ <- with_lock
            (modify (fun s => Sys.set_insights
                                (deque_append 100 (Sys.insights s) insight) s));
  do _ <- update_agent self (Agent.set_reasoning_mode adaptive);
  update_agent self (fun x => Agent.set_energy (Agent.energy x + 10)%float x).

(** [MetaAgent.synthesize_results]; [process] is [process_task].
    [agent.task_stack[-1]] raises [IndexError] on an empty deque. *)
Definition synthesize_results (process : AgentId -> string -> M pyval)
    (self : AgentId) : M pyval :=
  do a <- get_agent self;
  let step (acc : M (list (string * pyval))) (agent : AgentId) :=
    do synthesis <- acc;
    do c <- get_agent agent;
    match last (Agent.task_stack c) with
    | None => raise IndexError
    | Some task =>
        do result <- process agent task;
        if truthy result then
          match result with
          | VDict items => ret (dict_update synthesis items)
          | _ => ret synthesis
          end
        else ret synthesis
    end in
  do synthesis <- fold_left step (Agent.subagents a) (ret []);
  ret (VDict synthesis).

(** The [try] block of [MetaAgent.process_task]. *)
Definition process_task_body (process : AgentId -> string -> M pyval)
    (self : AgentId) (task : string) : M pyval :=
  if needs_decomposition task then
    let components := decompose_problem task in
    do _ <- for_each components (fun comp =>
      do subagent <- create_subagent self (Some comp);
      match subagent with
      | Some sub => do _ <- process sub comp; ret tt
      | None => ret tt
      end);
    synthesize_results process self
  else execute_core_reasoning self task.

(** [MetaAgent.process_task].  The recursion (into fresh subagents, and into
    the agents of [subagents]) is bounded by [fuel]. *)
Fixpoint process_task (fuel : nat) (self : AgentId) (task : string) : M pyval :=
  match fuel with
  | 0 => undefined
  | S fuel' =>
      try_except
        (process_task_body (process_task fuel') self task)
        (fun e => do _ <- learn_from_failure self e; ret VNone)
  end.

(** One turn of the loop of [MetaAgent.run] (the sleep apart). *)
Definition run_iteration (fuel : nat) (self : AgentId) : M unit :=
  do a <- get_agent self;
  if Agent.active a then
    match Agent.task_stack a with
    | task :: rest =>
        do _ <- update_agent self (Agent.set_task_stack rest);
        do _ <- process_task fuel self task;
        with_lock
          (modify (fun s => Sys.set_tasks_processed (Sys.tasks_processed s + 1) s))
    | [] => ret tt
    end
  else ret tt.

(** ** [EnhancedAutopoieticSystem] *)

(** [self.agents[k] = v] and [del self.agents[k]] on the key sequence. *)
Definition dict_insert_key (k : AgentId) (keys : list AgentId) : list AgentId :=
  if bool_decide (k ∈ keys) then keys else (keys ++ [k])%list.

Definition dict_delete_key (k : AgentId) (keys : list AgentId) : list AgentId :=
  filter (fun k' => k' ≠ k) keys.

(** [x.name] on an agent object: [AttributeError] unless the object has an
    attribute of that name. *)
Definition getattr_check (name : string) : M unit :=
  if bool_decide (name ∈ Agent.attributes) then ret tt else raise AttributeError.

(** [EnhancedAutopoieticSystem.initialize_axioms]: the four lambdas, in the
    order of the dict.  The last one reads [x.lock] on the agent it is
    given. *)
Definition initialize_axioms : list (string * (AgentId -> M bool)) :=
  [("self_preservation",
    fun x => do a <- get_agent x; ret (float_gt (Agent.energy a) 0));
   ("knowledge_retention",
    fun x => do a <- get_agent x; ret (length (Agent.context a) <? 20)%nat);
   ("complexity_boundary",
    fun x => do a <- get_agent x; ret (length (Agent.subagents a) <? 5)%nat);
   ("thread_safety",
    fun x => do _ <- getattr_check "lock";
             do s <- get_state;
             ret (negb (Sys.lock s)))].

(** [all(t for t in tests)]: stops at the first false test. *)
Fixpoint py_all (tests : list (M bool)) : M bool :=
  match tests with
  | [] => ret true
  | t :: tests' => do b <- t; if b then py_all tests' else ret false
  end.

(** [all(ax(agent) for ax in self.axioms.values())] *)
Definition all_axioms (agent : AgentId) : M bool :=
  py_all (map (fun ax => ax.2 agent) initialize_axioms).

(** [EnhancedAutopoieticSystem.spawn_new_agent] *)
Definition spawn_new_agent (initial_task : option string) : M AgentId :=
  with_lock (
    do agent <- MetaAgent_init None None;
    do _ <- modify (fun s => Sys.set_agents (dict_insert_key agent (Sys.agents s)) s);
    do _ <- match initial_task with
            | Some task =>
                if String.eqb task "" then ret tt
                else update_agent agent
                       (fun x => Agent.set_task_stack (Agent.task_stack x ++ [task])%list x)
            | None => ret tt
            end;
    do _ <- update_agent agent (Agent.set_thread true);
    do _ <- modify (fun s => Sys.set_agents_created (Sys.agents_created s + 1) s);
    ret agent).

(** [EnhancedAutopoieticSystem.terminate_agent].  The call on each subagent
    is a call of the same method, made inside the [with] block; [fuel]
    bounds the depth of these calls.  The bounded [join] of the agent's
    thread changes nothing in the state. *)
Fixpoint terminate_agent (fuel : nat) (agent_id : AgentId) : M bool :=
  match fuel with
  | 0 => undefined
  | S fuel' =>
      with_lock (
        do s <- get_state;
        if bool_decide (agent_id ∈ Sys.agents s) then
          do _ <- update_agent agent_id (Agent.set_active false);
          do agent <- get_agent agent_id;
          do _ <- modify (fun s => Sys.set_energy_budget
                                     (Sys.energy_budget s + Agent.energy agent)%float s);
          do _ <- for_each (Agent.subagents agent) (fun subagent =>
            do sub <- get_agent subagent;
            do _ <- terminate_agent fuel' (Agent.id sub);
            ret tt);
          do s <- get_state;
          if bool_decide (agent_id ∈ Sys.agents s) then
            do _ <- modify (fun s => Sys.set_agents
                                       (dict_delete_key agent_id (Sys.agents s)) s);
            ret true
          else raise KeyError
        else ret false)
  end.

(** [EnhancedAutopoieticSystem.distribute_energy] *)
Definition distribute_energy : M unit :=
  with_lock (
    do s <- get_state;
    let active_agents := length (Sys.agents s) in
    if (0 <? active_agents)%nat then
      let share := (Sys.energy_budget s / float_of_nat active_agents)%float in
      do _ <- for_each (Sys.agents s) (fun agent =>
        update_agent agent
          (fun x => Agent.set_energy (Agent.energy x + share)%float x));
      modify (Sys.set_energy_budget 0%float)
    else ret tt).

(** [sum(xs)]: from the int 0, left to right. *)
Definition py_sum (xs : list float) : float :=
  fold_left (fun acc x => (acc + x)%float) xs 0%float.

(** The energies of the registered agents, in registry order. *)
Definition registered_energies (s : Sys.t) : list float :=
  omap (fun k => Agent.energy <$> Sys.objects s !! k) (Sys.agents s).

(** The ["total_energy"] entry of [system_health_check]. *)
Definition total_energy (s : Sys.t) : float :=
  (Sys.energy_budget s + py_sum (registered_energies s))%float.

(** [EnhancedAutopoieticSystem.system_health_check] (the uptime apart). *)
Definition system_health_check : M pyval :=
  with_lock (
    do s <- get_state;
    do compliance <- py_all (map all_axioms (Sys.agents s));
    ret (VDict [("total_agents", VInt (length (Sys.agents s)));
                ("total_energy", VNum (total_energy s));
                ("tasks_processed", VInt (Sys.tasks_processed s));
                ("insights_count", VInt (length (Sys.insights s)));
                ("axiom_compliance", VBool compliance)])).

(** ** [AutopoieticKernel] *)

(** [AutopoieticKernel.check_axioms]: the loop runs over a snapshot of the
    registry. *)
Definition check_axioms (fuel : nat) : M unit :=
  do s <- get_state;
  for_each (Sys.agents s) (fun agent_id =>
    do compliant <- all_axioms agent_id;
    if compliant then ret tt
    else do _ <- terminate_agent fuel agent_id; ret tt).

(** One turn of the loop of [AutopoieticKernel.self_preservation]. *)
Definition self_preservation_cycle (fuel : nat) : M unit :=
  do _ <- check_axioms fuel;
  distribute_energy.

(** [AutopoieticKernel.process_agent_task]: [False] when the id is not
    registered. *)
Definition process_agent_task (fuel : nat) (agent_id : AgentId) (task : string)
  : M pyval :=
  do s <- get_state;
  if bool_decide (agent_id ∈ Sys.agents s)
  then process_task fuel agent_id task
  else ret (VBool false).

(** The task that [AutopoieticKernel.distribute_tasks] submits. *)
Definition scheduler_task : string := "self_preserve".

(** ** Energy accounting *)

(** The state in which a computation ends, when it ends in one. *)
Definition outcome_state {A} (o : outcome A) : option Sys.t :=
  match o with
  | Returns _ s | Raises _ s | Blocks s => Some s
  | Undefined => None
  end.

(** The state after running [m] from [s]. *)
Definition after {A} (m : M A) (s : Sys.t) : Sys.t :=
  default s (outcome_state (m s)).

(** Everything the program stores about energy: the pool and the energy of
    every agent object. *)
Definition energy_state (s : Sys.t) : float * gmap AgentId float :=
  (Sys.energy_budget s, Agent.energy <$> Sys.objects s).

(** The rational number a finite float stands for. *)
Definition exact_value (x : float) : option Q :=
  match Prim2SF x with
  | S754_zero _ => Some 0%Q
  | S754_finite sign m e =>
      Some ((if sign then -1 else 1) * (Z.pos m # 1) * Qpower 2 e)%Q
  | _ => None
  end.

(** The sum, as a rational number, of finite floats. *)
Definition exact_sum (xs : list float) : option Q :=
  foldr (fun x acc =>
           match exact_value x, acc with
           | Some q, Some r => Some (Qred (q + r))
           | _, _ => None
           end) (Some 0%Q) xs.

(** The methods that write state themselves.  [process_task],
    [execute_core_reasoning], [strategic_evolution], [run] and the kernel
    loops act on energy only by calling these; they are among the methods
    of [method] below. *)
Inductive operation :=
| op_spawn_new_agent (initial_task : option string)
| op_create_subagent (self : AgentId) (purpose : option string)
| op_terminate_agent (agent_id : AgentId)
| op_distribute_energy
| op_learn_from_failure (self : AgentId) (error : exn)
| op_consolidate_subagents (self : AgentId)
| op_inherit_knowledge (self parent : AgentId)
| op_reason_about_self (self : AgentId)
| op_assess_capabilities (self : AgentId)
| op_detect_limitations (self : AgentId)
| op_check_for_loops (self : AgentId)
| op_derive_subcontext (self : AgentId) (purpose : string)
| op_simplify_context (self : AgentId)
| op_all_axioms (agent : AgentId)
| op_system_health_check.

Definition discard {A} (m : M A) : M unit := do _ <- m; ret tt.

Definition exec (fuel : nat) (op : operation) : M unit :=
  match op with
  | op_spawn_new_agent initial_task => discard (spawn_new_agent initial_task)
  | op_create_subagent self purpose => discard (create_subagent self purpose)
  | op_terminate_agent agent_id => discard (terminate_agent fuel agent_id)
  | op_distribute_energy => distribute_energy
  | op_learn_from_failure self error => learn_from_failure self error
  | op_consolidate_subagents self => consolidate_subagents self
  | op_inherit_knowledge self parent => inherit_knowledge self parent
  | op_reason_about_self self => discard (reason_about_self self)
  | op_assess_capabilities self => discard (assess_capabilities self)
  | op_detect_limitations self => discard (detect_limitations self)
  | op_check_for_loops self => discard (check_for_loops self)
  | op_derive_subcontext self purpose => discard (derive_subcontext self purpose)
  | op_simplify_context self => discard (simplify_context self)
  | op_all_axioms agent => discard (all_axioms agent)
  | op_system_health_check => discard (system_health_check)
  end.

(** The four ways of changing energy that the specification names: child
    creation, termination, redistribution, top-level creation. *)
Definition named_energy_operation (op : operation) : bool :=
  match op with
  | op_spawn_new_agent _ | op_create_subagent _ _
  | op_terminate_agent _ | op_distribute_energy => true
  | _ => false
  end.

(** Those four, failure handling and consolidation. *)
Definition energy_operation (op : operation) : bool :=
  match op with
  | op_learn_from_failure _ _ | op_consolidate_subagents _ => true
  | _ => named_energy_operation op
  end.

(** ** Concrete systems *)

Module Examples.
(** One top-level agent, id 0, just spawned. *)
Definition one_agent : Sys.t := after (spawn_new_agent None) Sys.init.

(** Agent 0 after two successful [create_subagent] calls: children 1
    and 2. *)
Definition family : Sys.t :=
  after (create_subagent 0 (Some "temporal"))
    (after (create_subagent 0 (Some "structural")) one_agent).

(** Six top-level agents, ids 0 to 5, just spawned. *)
Definition six_agents : Sys.t :=
  Nat.iter 6 (after (spawn_new_agent None)) Sys.init.

(** Agents 0 and 1 spawned; agent 1 creates two children, energy is
    redistributed, and agent 1 creates a third child: its [subagents]
    list then has six entries. *)
Definition crowded_pair : Sys.t :=
  after (create_subagent 1 (Some "temporal"))
    (after distribute_energy
       (after (create_subagent 1 (Some "behavioral"))
          (after (create_subagent 1 (Some "structural"))
             (Nat.iter 2 (after (spawn_new_agent None)) Sys.init)))).

(** Agent 0 with child 1, after the child's loop has taken its task. *)
Definition idle_child : Sys.t :=
  after (run_iteration 1 1)
    (after (create_subagent 0 (Some "structural")) one_agent).
End Examples.

(** ** States that the operations are expected to produce *)

(** The child that [create_subagent] builds and the parent it leaves. *)
Definition child_of (uid self : AgentId) (purpose : string) (ag : Agent.t) : Agent.t :=
  Agent.mk uid (Agent.context ag) (Agent.memory ag) (Agent.energy ag * 0.5)%float
           (Some self) [] [purpose] true true (Agent.reasoning_mode ag) [].

Definition purpose_of (purpose : option string) (ag : Agent.t) : string :=
  let fallback := "subagent_" +:+ pretty (length (Agent.subagents ag)) in
  match purpose with
  | Some p => if String.eqb p "" then fallback else p
  | None => fallback
  end.

Definition parent_after (uid : AgentId) (ag : Agent.t) : Agent.t :=
  Agent.set_subagents (Agent.subagents ag ++ [uid; uid])
    (Agent.set_energy (Agent.energy ag - Agent.energy ag * 0.5)%float ag).

(** The state in which [terminate_agent] stops on an agent with
    subagents: the lock taken, the agent flagged inactive, its energy added
    to the pool. *)
Definition terminate_started (agent_id : AgentId) (ag : Agent.t) (s : Sys.t) : Sys.t :=
  Sys.set_energy_budget (Sys.energy_budget s + Agent.energy ag)%float
    (Sys.set_objects (<[agent_id := Agent.set_active false ag]> (Sys.objects s))
       (Sys.set_lock true s)).

(** The state in which [terminate_agent] returns on an agent without
    subagents: the same, the lock released and the id out of the registry. *)
Definition terminate_done (agent_id : AgentId) (ag : Agent.t) (s : Sys.t) : Sys.t :=
  Sys.set_agents (dict_delete_key agent_id (Sys.agents s))
    (Sys.set_energy_budget (Sys.energy_budget s + Agent.energy ag)%float
       (Sys.set_objects (<[agent_id := Agent.set_active false ag]> (Sys.objects s)) s)).

(** [R] relates the state before a computation to the state in which it
    returns or raises, [Rb] to the state in which it blocks. *)
Definition follows (R Rb : Sys.t → Sys.t → Prop) {A} (m : M A) : Prop :=
  ∀ s, match m s with
       | Returns _ s' | Raises _ s' => R s s'
       | Blocks s' => Rb s s'
       | Undefined => True
       end.

(** The lock is as it was and no object has disappeared. *)
Definition settled (s s' : Sys.t) : Prop :=
  Sys.lock s' = Sys.lock s ∧
  ∀ a, is_Some (Sys.objects s !! a) → is_Some (Sys.objects s' !! a).

(** The record [learn_from_failure] builds, and the state it leaves. *)
Definition failure_insight (ag : Agent.t) (error : exn) : Insight :=
  mkInsight error (Agent.context ag) (Agent.energy ag).

Definition failure_recorded (self : AgentId) (ag : Agent.t) (error : exn)
    (s : Sys.t) : Sys.t :=
  Sys.set_objects
    (<[self := Agent.set_energy (Agent.energy ag + 10)%float
                 (Agent.set_reasoning_mode adaptive
                    (Agent.set_insights
                       (Agent.insights ag ++ [failure_insight ag error]) ag))]>
       (Sys.objects s))
    (Sys.set_insights (deque_append 100 (Sys.insights s) (failure_insight ag error)) s).

(** The three axioms that can be evaluated on an agent. *)
Definition passes_three (ag : Agent.t) : bool :=
  float_gt (Agent.energy ag) 0
  && (length (Agent.context ag) <? 20)%nat
  && (length (Agent.subagents ag) <? 5)%nat.

(** The store after [f] has been applied to the object of each key. *)
Definition update_all (f : Agent.t → Agent.t) (keys : list AgentId)
    (objects : gmap AgentId Agent.t) : gmap AgentId Agent.t :=
  foldl (fun m k => alter f k m) objects keys.

(** The share each registered agent receives. *)
Definition share_of (s : Sys.t) : float :=
  (Sys.energy_budget s / float_of_nat (length (Sys.agents s)))%float.

(** The pool, every agent's energy and the registry are as they were. *)
Definition energy_kept (s s' : Sys.t) : Prop :=
  energy_state s' = energy_state s ∧ Sys.agents s' = Sys.agents s.

(** The pool and the registry are as they were, and so is every object
    outside [touched]. *)
Definition kept_outside (touched : AgentId → Prop) (s s' : Sys.t) : Prop :=
  Sys.energy_budget s' = Sys.energy_budget s ∧
  Sys.agents s' = Sys.agents s ∧
  ∀ k, ¬ touched k → Sys.objects s' !! k = Sys.objects s !! k.

(** ** The kernel's scaling, scheduling and shutdown *)

(** [AutopoieticKernel.scale_up] *)
Definition scale_up : M unit :=
  do s <- get_state;
  if (length (Sys.agents s) <? 100)%nat
  then discard (spawn_new_agent (Some "explore"))
  else ret tt.

(** [AutopoieticKernel.scale_down]: [next(iter(keys))] is the first key of
    the registry. *)
Definition scale_down (fuel : nat) : M unit :=
  do s <- get_state;
  if (1 <? length (Sys.agents s))%nat then
    match Sys.agents s with
    | oldest :: _ => discard (terminate_agent fuel oldest)
    | [] => ret tt
    end
  else ret tt.

(** One turn of the loop of [AutopoieticKernel.resource_manager], for the
    load that [psutil.cpu_percent()] reports. *)
Definition resource_manager_turn (fuel : nat) (cpu_load : float) : M unit :=
  if float_gt cpu_load 80 then scale_down fuel
  else
    do s <- get_state;
    if float_lt cpu_load 20 && (length (Sys.agents s) <? 50)%nat
    then scale_up
    else ret tt.

(** [AutopoieticKernel.distribute_tasks]: the calls
    [process_agent_task(agent_id, "self_preserve")] it hands to the worker
    pool, in the order of the registry. *)
Definition distribute_tasks (s : Sys.t) : list (AgentId * string) :=
  omap (fun agent_id =>
          match Sys.objects s !! agent_id with
          | Some agent =>
              if float_gt (Agent.energy agent) 20
                 && bool_decide (Agent.task_stack agent = [])
              then Some (agent_id, scheduler_task)
              else None
          | None => None
          end)
       (Sys.agents s).

(** The worker pool running the submitted calls one after the other. *)
Definition run_submitted (fuel : nat) (jobs : list (AgentId * string)) : M unit :=
  for_each jobs (fun job => discard (process_agent_task fuel job.1 job.2)).

(** [AutopoieticKernel.graceful_shutdown], on the system: the termination
    loop over a snapshot of the registry, then the final health check.
    (The shutdown flag and the worker pool belong to the kernel object.) *)
Definition graceful_shutdown (fuel : nat) : M pyval :=
  do s <- get_state;
  do _ <- for_each (Sys.agents s) (fun agent_id =>
            discard (terminate_agent fuel agent_id));
  system_health_check.

(** ** States used to state further properties *)

(** The agent that [spawn_new_agent] registers. *)
Definition spawned_agent (uid : AgentId) (initial_task : option string) : Agent.t :=
  Agent.mk uid [] [] 100%float None []
    (match initial_task with
     | Some task => if String.eqb task "" then [] else [task]
     | None => []
     end)
    true true analytic [].

(** Ids are handed out in order: every object's key is below the counter. *)
Definition ids_issued (s : Sys.t) : Prop :=
  ∀ k, is_Some (Sys.objects s !! k) → k < Sys.next_uuid s.

(** ** States and relations used to state further properties *)

(** The dict that [system_health_check] returns in state [s] when the
    compliance entry evaluates to [compliance]. *)
Definition health_snapshot (s : Sys.t) (compliance : bool) : pyval :=
  VDict [("total_agents", VInt (length (Sys.agents s)));
         ("total_energy", VNum (total_energy s));
         ("tasks_processed", VInt (Sys.tasks_processed s));
         ("insights_count", VInt (length (Sys.insights s)));
         ("axiom_compliance", VBool compliance)].

(** The registry has not grown. *)
Definition registry_not_grown (s s' : Sys.t) : Prop :=
  length (Sys.agents s') ≤ length (Sys.agents s).

(** The pool after the energy of every registered agent has been added to
    it, in registry order. *)
Definition pool_after_termination (s : Sys.t) : float :=
  fold_left (fun pool e => (pool + e)%float) (registered_energies s)
            (Sys.energy_budget s).

(** The context [strategic_evolution] leaves when it does not
    consolidate: markers pruned if the context was overloaded, then
    deduplicated if it had duplicates. *)
Definition evolved_context (context : list string) : list string :=
  let pruned :=
    if (10 <? length context)%nat then simplify_context_ctx context else context in
  if check_for_loops_ctx context then list_of_set (py_set pruned) else pruned.

(** What an agent's own work leaves alone in an agent: its id, its
    parent, its memory and its task stack. *)
Definition same_standing (ag ag' : Agent.t) : Prop :=
  Agent.id ag' = Agent.id ag ∧
  Agent.parent ag' = Agent.parent ag ∧
  Agent.memory ag' = Agent.memory ag ∧
  Agent.task_stack ag' = Agent.task_stack ag.

(** What an agent's own work leaves alone in the system: the lock as it
    was, the registry, the pool and the task counter untouched, the
    insight log within its bound, every agent still there with the same
    standing. *)
Definition steady (s s' : Sys.t) : Prop :=
  ids_issued s →
  ids_issued s' ∧
  Sys.lock s' = Sys.lock s ∧
  Sys.agents s' = Sys.agents s ∧
  Sys.energy_budget s' = Sys.energy_budget s ∧
  Sys.tasks_processed s' = Sys.tasks_processed s ∧
  (length (Sys.insights s) ≤ 100 → length (Sys.insights s') ≤ 100) ∧
  ∀ a ag, Sys.objects s !! a = Some ag →
    ∃ ag', Sys.objects s' !! a = Some ag' ∧ same_standing ag ag'.

(** The lock was held when the computation started. *)
Definition lock_held (s s' : Sys.t) : Prop :=
  ids_issued s → Sys.lock s = true.

Definition never (s s' : Sys.t) : Prop := False.

(** ** The writes to energy, and the methods that may make them *)

(** The energy of every agent object. *)
Definition energies (s : Sys.t) : gmap AgentId float :=
  Agent.energy <$> Sys.objects s.

(** The kinds of write to energy that the program contains. *)
Inductive kind :=
| child_creation
| termination
| redistribution
| top_level_creation
| failure_handling
| consolidation.

Definition kind_eqb (a b : kind) : bool :=
  match a, b with
  | child_creation, child_creation | termination, termination
  | redistribution, redistribution | top_level_creation, top_level_creation
  | failure_handling, failure_handling | consolidation, consolidation => true
  | _, _ => false
  end.

(** What a write of each kind does.  It relates the state before the
    write to the state after it; what the states hold besides the pool and
    the agents' energies is left open.  [None] is a step that writes no
    energy. *)
Inductive energy_write (s s' : Sys.t) : option kind → Prop :=
| nothing_written :
    Sys.energy_budget s' = Sys.energy_budget s →
    energies s' = energies s →
    energy_write s s' None
| child_created (self child : AgentId) (e : float) :
    energies s !! self = Some e →
    energies s !! child = None →
    Sys.energy_budget s' = Sys.energy_budget s →
    energies s' =
      <[child := (e * 0.5)%float]> (<[self := (e - e * 0.5)%float]> (energies s)) →
    energy_write s s' (Some child_creation)
| agent_terminated (agent_id : AgentId) (e : float) :
    agent_id ∈ Sys.agents s →
    energies s !! agent_id = Some e →
    Sys.energy_budget s' = (Sys.energy_budget s + e)%float →
    energies s' = energies s →
    energy_write s s' (Some termination)
| energy_distributed :
    Sys.agents s ≠ [] →
    Sys.energy_budget s' = 0%float →
    energies s' =
      foldl (fun m k => alter (fun e => (e + share_of s)%float) k m)
            (energies s) (Sys.agents s) →
    energy_write s s' (Some redistribution)
| agent_spawned (uid : AgentId) :
    energies s !! uid = None →
    Sys.energy_budget s' = Sys.energy_budget s →
    energies s' = <[uid := 100%float]> (energies s) →
    energy_write s s' (Some top_level_creation)
| failure_handled (self : AgentId) (e : float) :
    energies s !! self = Some e →
    Sys.energy_budget s' = Sys.energy_budget s →
    energies s' = <[self := (e + 10)%float]> (energies s) →
    energy_write s s' (Some failure_handling)
| subagent_absorbed (self subagent : AgentId) (e e_sub : float) :
    energies s !! self = Some e →
    energies s !! subagent = Some e_sub →
    Sys.energy_budget s' = Sys.energy_budget s →
    energies s' =
      <[subagent := 0%float]> (<[self := (e + e_sub)%float]> (energies s)) →
    energy_write s s' (Some consolidation).

(** A step that writes no energy, or a write of one of the kinds [K]. *)
Definition write_among (K : kind → bool) (s s' : Sys.t) : Prop :=
  ∃ k, from_option K true k = true ∧ energy_write s s' k.

(** A sequence of such steps, from a state whose ids are issued in
    order. *)
Definition energy_writes (K : kind → bool) (s s' : Sys.t) : Prop :=
  ids_issued s → ids_issued s' ∧ rtc (write_among K) s s'.

(** What [consolidate_subagents] adds to the agent at each entry of its
    [subagents] list: the energy the subagent holds when its entry is
    reached, which is 0 at an entry that repeats an earlier one. *)
Fixpoint absorbed (energy : gmap AgentId float) (subagents : list AgentId)
  : list float :=
  match subagents with
  | [] => []
  | c :: rest => default 0%float (energy !! c) :: absorbed (<[c := 0%float]> energy) rest
  end.

(** The methods of the three classes that act on a system.
    ([decompose_problem], [needs_decomposition], [initialize_axioms] and
    [create_primitives] are functions of their arguments alone; the
    constructors of the system and of the kernel make the initial state;
    the loops of [run] and of the kernel's services are taken one turn at a
    time.) *)
Inductive method :=
| m_init (parent : option AgentId) (initial_context : option (list string))
| m_inherit_knowledge (self parent : AgentId)
| m_reason_about_self (self : AgentId)
| m_assess_capabilities (self : AgentId)
| m_detect_limitations (self : AgentId)
| m_check_for_loops (self : AgentId)
| m_create_subagent (self : AgentId) (purpose : option string)
| m_derive_subcontext (self : AgentId) (purpose : string)
| m_strategic_evolution (self : AgentId)
| m_simplify_context (self : AgentId)
| m_consolidate_subagents (self : AgentId)
| m_process_task (self : AgentId) (task : string)
| m_execute_core_reasoning (self : AgentId) (task : string)
| m_synthesize_results (self : AgentId)
| m_learn_from_failure (self : AgentId) (error : exn)
| m_run (self : AgentId)
| m_axioms (agent : AgentId)
| m_spawn_new_agent (initial_task : option string)
| m_terminate_agent (agent_id : AgentId)
| m_distribute_energy
| m_system_health_check
| m_resource_manager (cpu_load : float)
| m_task_scheduler
| m_self_preservation
| m_monitor_system
| m_distribute_tasks
| m_process_agent_task (agent_id : AgentId) (task : string)
| m_check_axioms
| m_scale_up
| m_scale_down
| m_graceful_shutdown.

(** A call of each method.  The parent handed to the constructor is an
    agent object, so it is in the store. *)
Definition call (fuel : nat) (m : method) : M unit :=
  match m with
  | m_init parent initial_context =>
      do _ <- match parent with
              | Some p => discard (get_agent p)
              | None => ret tt
              end;
      discard (MetaAgent_init parent initial_context)
  | m_inherit_knowledge self parent => inherit_knowledge self parent
  | m_reason_about_self self => discard (reason_about_self self)
  | m_assess_capabilities self => discard (assess_capabilities self)
  | m_detect_limitations self => discard (detect_limitations self)
  | m_check_for_loops self => discard (check_for_loops self)
  | m_create_subagent self purpose => discard (create_subagent self purpose)
  | m_derive_subcontext self purpose => discard (derive_subcontext self purpose)
  | m_strategic_evolution self => strategic_evolution self
  | m_simplify_context self => discard (simplify_context self)
  | m_consolidate_subagents self => consolidate_subagents self
  | m_process_task self task => discard (process_task fuel self task)
  | m_execute_core_reasoning self task => discard (execute_core_reasoning self task)
  | m_synthesize_results self => discard (synthesize_results (process_task fuel) self)
  | m_learn_from_failure self error => learn_from_failure self error
  | m_run self => run_iteration fuel self
  | m_axioms agent => discard (all_axioms agent)
  | m_spawn_new_agent initial_task => discard (spawn_new_agent initial_task)
  | m_terminate_agent agent_id => discard (terminate_agent fuel agent_id)
  | m_distribute_energy => distribute_energy
  | m_system_health_check => discard system_health_check
  | m_resource_manager cpu_load => resource_manager_turn fuel cpu_load
  | m_task_scheduler | m_distribute_tasks =>
      do s <- get_state; run_submitted fuel (distribute_tasks s)
  | m_self_preservation => self_preservation_cycle fuel
  | m_monitor_system => discard system_health_check
  | m_process_agent_task agent_id task => discard (process_agent_task fuel agent_id task)
  | m_check_axioms => check_axioms fuel
  | m_scale_up => scale_up
  | m_scale_down => scale_down fuel
  | m_graceful_shutdown => discard (graceful_shutdown fuel)
  end.

(** The kinds of write that each method can make: those of the writing
    methods it is or calls.  The scheduler's task "self_preserve" is
    processed without a write. *)
Definition kinds_of (m : method) : list kind :=
  match m with
  | m_init (Some _) _ | m_create_subagent _ _ => [child_creation]
  | m_init None _ | m_spawn_new_agent _ | m_scale_up => [top_level_creation]
  | m_terminate_agent _ | m_check_axioms | m_scale_down | m_graceful_shutdown =>
      [termination]
  | m_distribute_energy => [redistribution]
  | m_self_preservation => [termination; redistribution]
  | m_resource_manager _ => [termination; top_level_creation]
  | m_learn_from_failure _ _ => [failure_handling]
  | m_consolidate_subagents _ | m_strategic_evolution _
  | m_execute_core_reasoning _ _ => [consolidation]
  | m_process_task _ _ | m_synthesize_results _ | m_run _
  | m_process_agent_task _ _ =>
      [child_creation; consolidation; failure_handling]
  | m_inherit_knowledge _ _ | m_reason_about_self _ | m_assess_capabilities _
  | m_detect_limitations _ | m_check_for_loops _ | m_derive_subcontext _ _
  | m_simplify_context _ | m_axioms _ | m_system_health_check
  | m_task_scheduler | m_monitor_system | m_distribute_tasks => []
  end.

Definition may_write (m : method) (k : kind) : bool :=
  existsb (kind_eqb k) (kinds_of m).

(** * Properties *)

(** ** Strings and sets *)

Section StringFacts.

Lemma append_cons (c : ascii) (s t : string) :
  String c s +:+ t = String c (s +:+ t).
Proof. reflexivity. Qed.

Lemma append_empty (t : string) : "" +:+ t = t.
Proof. reflexivity. Qed.

Lemma startswith_spec (needle hay : string) :
  PyStr.startswith needle hay = true ↔ ∃ post, hay = needle +:+ post.
Proof.
  revert hay. induction needle as [|a n IH]; intros hay; simpl.
  - split; [intros _; by exists hay | done].
  - destruct hay as [|b h].
    + split; [done | intros [post Hp]; discriminate].
    + destruct (Ascii.eqb_spec a b) as [->|Hne].
      * rewrite IH. split; intros [post Hp]; exists post; [by rewrite Hp | by injection Hp].
      * split; [done | intros [post Hp]; injection Hp; congruence].
Qed.

Lemma contains_spec (needle hay : string) :
  PyStr.contains needle hay = true ↔ PyStr.Substring needle hay.
Proof.
  unfold PyStr.Substring. induction hay as [|b h IH].
  - simpl. rewrite orb_false_r, startswith_spec. split.
    + intros [post Hp]. by exists "", post.
    + intros ([|c pre] & post & Hp); [by exists post | discriminate].
  - cbn [PyStr.contains]. rewrite orb_true_iff, startswith_spec, IH. split.
    + intros [[post Hp] | (pre & post & Hp)].
      * by exists "", post.
      * exists (String b pre), post. simpl. by rewrite Hp.
    + intros ([|c pre] & post & Hp).
      * left. by exists post.
      * right. simpl in Hp. injection Hp as _ Hp. by exists pre, post.
Qed.

Lemma contains_false (needle hay : string) :
  PyStr.contains needle hay = false ↔ ¬ PyStr.Substring needle hay.
Proof. rewrite <- contains_spec. destruct (PyStr.contains needle hay); naive_solver. Qed.

Lemma split_length (sep : ascii) (s : string) :
  length (PyStr.split sep s) = S (PyStr.count sep s).
Proof.
  induction s as [|c s IH]; simpl; [reflexivity|].
  destruct (Ascii.eqb c sep); simpl; [by rewrite IH|].
  destruct (PyStr.split sep s); simpl in *; lia.
Qed.

Lemma split_nonempty (sep : ascii) (s : string) : PyStr.split sep s ≠ [].
Proof.
  intros E. pose proof (split_length sep s) as Hl. rewrite E in Hl. discriminate.
Qed.

Lemma join_split (sep : ascii) (s : string) :
  PyStr.join sep (PyStr.split sep s) = s.
Proof.
  induction s as [|c s IH]; [reflexivity|].
  pose proof (split_nonempty sep s) as Hne.
  cbn [PyStr.split].
  destruct (PyStr.split sep s) as [|p ps]; [done|].
  destruct (Ascii.eqb_spec c sep) as [->|_].
  - change (PyStr.join sep ("" :: p :: ps))
      with ("" +:+ String sep (PyStr.join sep (p :: ps))).
    by rewrite IH.
  - destruct ps as [|q ps]; cbn [PyStr.join] in *; rewrite ?append_cons; by rewrite IH.
Qed.

Lemma split_pieces_clean (sep : ascii) (s piece : string) :
  piece ∈ PyStr.split sep s → PyStr.count sep piece = 0.
Proof.
  revert piece. induction s as [|c s IH]; intros piece; simpl.
  - intros ->%list_elem_of_singleton. reflexivity.
  - destruct (Ascii.eqb c sep) eqn:Ec.
    + intros [->|?]%elem_of_cons; [reflexivity | by apply IH].
    + destruct (PyStr.split sep s) as [|p ps] eqn:E.
      * intros ->%list_elem_of_singleton. simpl. by rewrite Ec.
      * intros [->|?]%elem_of_cons.
        -- simpl. rewrite Ec. apply IH. left.
        -- apply IH. by right.
Qed.
End StringFacts.

Lemma size_py_set_le (l : list string) : size (py_set l) ≤ length l.
Proof.
  unfold py_set. induction l as [|x l IH].
  - rewrite list_to_set_nil, size_empty. done.
  - rewrite list_to_set_cons. cbn [length].
    rewrite size_union_alt, size_singleton.
    assert (size (list_to_set l ∖ {[x]} : gset string) ≤ size (list_to_set l : gset string))
      as Hsub by (apply subseteq_size; set_solver).
    lia.
Qed.

Lemma size_py_set_NoDup (l : list string) :
  size (py_set l) = length l ↔ NoDup l.
Proof.
  split; [|apply size_list_to_set].
  unfold py_set. induction l as [|x l IH]; intros Hs.
  - constructor.
  - rewrite list_to_set_cons in Hs. cbn [length] in Hs.
    destruct (decide (x ∈ l)) as [Hin|Hnin].
    + exfalso. pose proof (size_py_set_le l) as Hle. unfold py_set in Hle.
      assert ({[x]} ∪ list_to_set l = (list_to_set l : gset string)) as Heq by set_solver.
      rewrite Heq in Hs. lia.
    + constructor; [done|]. apply IH.
      rewrite size_union, size_singleton in Hs by set_solver. lia.
Qed.

Lemma check_for_loops_ctx_spec (ctx : list string) :
  check_for_loops_ctx ctx = true ↔ ¬ NoDup ctx.
Proof.
  unfold check_for_loops_ctx. rewrite <- size_py_set_NoDup.
  rewrite negb_true_iff, Nat.eqb_neq. naive_solver.
Qed.

(** C8.  The components of a task follow the two substring rules:
    "multi-aspect" alone gives structural, behavioral, temporal; "recursive"
    alone gives base_case, inductive_step; both give all five, in that
    order; neither gives none.  [process_task] decomposes exactly when
    [needs_decomposition] holds, which is exactly when the task has more
    than two pieces between underscores or contains "multi"; the pieces
    are those of Python's [split]: one more than the number of
    underscores, and joining them with underscores gives the task back. *)
Theorem decomposition_rules (task : string) :
  let multi := PyStr.Substring "multi-aspect" task in
  let recursive := PyStr.Substring "recursive" task in
  (multi ∧ ¬ recursive →
     decompose_problem task = ["structural"; "behavioral"; "temporal"]) ∧
  (¬ multi ∧ recursive →
     decompose_problem task = ["base_case"; "inductive_step"]) ∧
  (multi ∧ recursive →
     decompose_problem task =
       ["structural"; "behavioral"; "temporal"; "base_case"; "inductive_step"]) ∧
  (¬ multi ∧ ¬ recursive → decompose_problem task = []) ∧
  (needs_decomposition task = true ↔
     2 < length (PyStr.split "_" task) ∨ PyStr.Substring "multi" task) ∧
  length (PyStr.split "_" task) = S (PyStr.count "_" task) ∧
  PyStr.join "_" (PyStr.split "_" task) = task ∧
  (∀ process self,
     process_task_body process self task =
       if needs_decomposition task
       then do _ <- for_each (decompose_problem task) (fun comp =>
                 do subagent <- create_subagent self (Some comp);
                 match subagent with
                 | Some sub => do _ <- process sub comp; ret tt
                 | None => ret tt
                 end);
            synthesize_results process self
       else execute_core_reasoning self task).
Proof.
  intros multi recursive. subst multi recursive. unfold decompose_problem.
  rewrite <- !contains_spec.
  repeat split.
  - intros [-> Hr]. by destruct (PyStr.contains "recursive" task).
  - intros [Hm ->]. by destruct (PyStr.contains "multi-aspect" task).
  - by intros [-> ->].
  - intros [Hm Hr].
    destruct (PyStr.contains "multi-aspect" task); [done|].
    by destruct (PyStr.contains "recursive" task).
  - unfold needs_decomposition. rewrite orb_true_iff, Nat.ltb_lt. done.
  - unfold needs_decomposition. rewrite orb_true_iff, Nat.ltb_lt. done.
  - apply split_length.
  - apply join_split.
Qed.

(** C10.  The task "self_preserve" that the scheduler submits needs no
    decomposition: [process_task] takes the direct path, returns the record
    with status "completed" and the agent's current energy, and leaves the
    whole system (hence the agent's [subagents] list) unchanged. *)
Theorem self_preserve_direct (fuel : nat) (self : AgentId) (ag : Agent.t) (s : Sys.t) :
  Sys.objects s !! self = Some ag →
  needs_decomposition scheduler_task = false ∧
  process_task (S fuel) self scheduler_task s =
    Returns (VDict [("status", VStr "completed"); ("energy", VNum (Agent.energy ag))]) s ∧
  (self ∈ Sys.agents s →
   process_agent_task (S fuel) self scheduler_task s =
    Returns (VDict [("status", VStr "completed"); ("energy", VNum (Agent.energy ag))]) s).
Proof.
  intros Hag.
  assert (process_task (S fuel) self scheduler_task s =
    Returns (VDict [("status", VStr "completed"); ("energy", VNum (Agent.energy ag))]) s) as Hp.
  { cbn. unfold try_except, bind, get_agent, ret. by rewrite Hag. }
  split; [reflexivity|]. split; [exact Hp|].
  intros Hin. unfold process_agent_task, bind, get_state.
  rewrite bool_decide_eq_true_2 by done. exact Hp.
Qed.

(** ** Running the computations *)

Ltac unfold_m :=
  unfold try_except, with_lock, bind, ret, raise, get_state, modify,
         get_agent, update_agent, undefined, fresh_uuid, discard in *.

(** Unfold the monad and evaluate, using the given lookups. *)
Ltac run_m :=
  repeat progress
    (unfold_m; cbn;
     repeat match goal with
            | H : _ !! _ = _ |- _ => rewrite H
            | H : Sys.lock _ = _ |- _ => rewrite H
            | H : PrimFloat.ltb _ _ = _ |- _ => rewrite H
            end;
     rewrite ?lookup_insert_eq, ?lookup_insert_ne by done; cbn).

Lemma SFcompare_antisym (a b : spec_float) :
  SFcompare b a = option_map CompOpp (SFcompare a b).
Proof.
  destruct a as [sa|sa| |sa ma ea], b as [sb|sb| |sb mb eb];
    try destruct sa; try destruct sb; try reflexivity.
  all: cbn [SFcompare option_map].
  all: rewrite (Z.compare_antisym ea eb); destruct (ea ?= eb)%Z;
       cbn [CompOpp option_map]; try reflexivity.
  all: change (PosDef.Pos.compare_cont Eq mb ma) with (mb ?= ma)%positive;
       change (PosDef.Pos.compare_cont Eq ma mb) with (ma ?= mb)%positive;
       rewrite (Pos.compare_antisym ma mb); destruct (ma ?= mb)%positive;
       reflexivity.
Qed.

(** [x <= y] excludes [x > y]. *)
Lemma float_le_not_gt (x y : float) :
  PrimFloat.leb x y = true → float_gt x y = false.
Proof.
  unfold float_gt. rewrite leb_spec, ltb_spec. unfold SFleb, SFltb.
  rewrite (SFcompare_antisym (Prim2SF x) (Prim2SF y)).
  destruct (SFcompare (Prim2SF x) (Prim2SF y)) as [[]|]; simpl; congruence.
Qed.

Lemma unlock_lock (s : Sys.t) :
  Sys.lock s = false → Sys.set_lock false (Sys.set_lock true s) = s.
Proof. destruct s; simpl; by intros ->. Qed.

Lemma create_subagent_effect (s : Sys.t) (self : AgentId) (ag : Agent.t)
    (purpose : option string) :
  Sys.lock s = false →
  Sys.objects s !! self = Some ag →
  Sys.objects s !! Sys.next_uuid s = None →
  float_gt (Agent.energy ag) 40 = true →
  let uid := Sys.next_uuid s in
  ∃ s', create_subagent self purpose s = Returns (Some uid) s' ∧
        Sys.objects s' !! uid = Some (child_of uid self (purpose_of purpose ag) ag) ∧
        Sys.objects s' !! self = Some (parent_after uid ag) ∧
        (∀ k, k ≠ uid → k ≠ self → Sys.objects s' !! k = Sys.objects s !! k) ∧
        Sys.agents s' = Sys.agents s ∧
        Sys.energy_budget s' = Sys.energy_budget s ∧
        Sys.lock s' = false ∧
        Sys.insights s' = Sys.insights s ∧
        Sys.tasks_processed s' = Sys.tasks_processed s ∧
        Sys.agents_created s' = Sys.agents_created s + 1 ∧
        Sys.next_uuid s' = S uid.
Proof.
  intros Hlock Hag Hfresh Hgt uid. unfold float_gt in Hgt.
  assert (uid ≠ self) as Hne by (unfold uid; congruence).
  unfold create_subagent, derive_subcontext, MetaAgent_init, inherit_knowledge.
  subst uid. run_m.
  eexists. split; [reflexivity|]. cbn.
  rewrite lookup_insert_eq.
  rewrite lookup_insert_ne, lookup_insert_eq by done.
  split; [reflexivity|]. split.
  { unfold parent_after. rewrite <- app_assoc. reflexivity. }
  split; [|done].
  intros k Hk1 Hk2. by rewrite !lookup_insert_ne by done.
Qed.

Lemma create_subagent_refused (s : Sys.t) (self : AgentId) (ag : Agent.t)
    (purpose : option string) :
  Sys.lock s = false →
  Sys.objects s !! self = Some ag →
  float_gt (Agent.energy ag) 40 = false →
  create_subagent self purpose s = Returns None s.
Proof.
  intros Hlock Hag Hgt. unfold float_gt in Hgt. unfold create_subagent.
  run_m. f_equal. destruct s; simpl in *; by subst.
Qed.

Ltac sys_simpl :=
  cbn [Sys.agents Sys.energy_budget Sys.lock Sys.insights Sys.tasks_processed
       Sys.agents_created Sys.objects Sys.next_uuid
       Sys.set_agents Sys.set_energy_budget Sys.set_lock Sys.set_insights
       Sys.set_tasks_processed Sys.set_agents_created Sys.set_objects
       Sys.set_next_uuid
       Agent.id Agent.context Agent.memory Agent.energy Agent.parent
       Agent.subagents Agent.task_stack Agent.thread Agent.active
       Agent.reasoning_mode Agent.insights
       Agent.set_context Agent.set_memory Agent.set_energy Agent.set_subagents
       Agent.set_task_stack Agent.set_thread Agent.set_active
       Agent.set_reasoning_mode Agent.set_insights] in *.

(** ** Subagent creation *)

(** C7.  On an agent whose energy is 100, [create_subagent] returns a child
    whose energy is 50 and leaves the parent with energy 50.  On an agent
    whose energy is at most 40 it returns [None] and leaves the whole
    system, the parent included, as it was. *)
Theorem create_subagent_halves_or_refuses :
  (∀ s self ag purpose,
     Sys.lock s = false →
     Sys.objects s !! self = Some ag →
     Sys.objects s !! Sys.next_uuid s = None →
     Agent.energy ag = 100%float →
     ∃ child s' cag pag,
       create_subagent self purpose s = Returns (Some child) s' ∧
       Sys.objects s' !! child = Some cag ∧ Agent.energy cag = 50%float ∧
       Sys.objects s' !! self = Some pag ∧ Agent.energy pag = 50%float) ∧
  (∀ s self ag purpose,
     Sys.lock s = false →
     Sys.objects s !! self = Some ag →
     PrimFloat.leb (Agent.energy ag) 40 = true →
     create_subagent self purpose s = Returns None s).
Proof.
  split.
  - intros s self ag purpose Hlock Hag Hfresh He.
    destruct (create_subagent_effect s self ag purpose Hlock Hag Hfresh)
      as (s' & Hrun & Hchild & Hparent & _).
    { by rewrite He. }
    eexists (Sys.next_uuid s), s', _, _.
    split; [exact Hrun|]. split; [exact Hchild|]. split; [by cbn; rewrite He|].
    split; [exact Hparent|]. by cbn; rewrite He.
  - intros s self ag purpose Hlock Hag Hle.
    by apply (create_subagent_refused s self ag), float_le_not_gt.
Qed.

Lemma create_subagent_halves_or_refuses_witness :
  (∃ child s' cag pag,
     create_subagent 0 (Some "structural") Examples.one_agent = Returns (Some child) s' ∧
     Sys.objects s' !! child = Some cag ∧ Agent.energy cag = 50%float ∧
     Sys.objects s' !! 0 = Some pag ∧ Agent.energy pag = 50%float) ∧
  create_subagent 0 (Some "base_case") Examples.family = Returns None Examples.family.
Proof.
  split.
  - eapply (proj1 create_subagent_halves_or_refuses); reflexivity.
  - eapply (proj2 create_subagent_halves_or_refuses); reflexivity.
Defined.

(** C3.  What the code does on a successful call: the new child is appended
    to the parent's [subagents] twice, once by [MetaAgent.__init__] and once
    by [create_subagent], so the list grows by two entries, not one. *)
Theorem create_subagent_appends_twice (s : Sys.t) (self : AgentId) (ag : Agent.t)
    (purpose : option string) :
  Sys.lock s = false →
  Sys.objects s !! self = Some ag →
  Sys.objects s !! Sys.next_uuid s = None →
  float_gt (Agent.energy ag) 40 = true →
  ∃ child s' pag,
    create_subagent self purpose s = Returns (Some child) s' ∧
    Sys.objects s' !! self = Some pag ∧
    Agent.subagents pag = Agent.subagents ag ++ [child; child] ∧
    length (Agent.subagents pag) = length (Agent.subagents ag) + 2.
Proof.
  intros Hlock Hag Hfresh Hgt.
  destruct (create_subagent_effect s self ag purpose Hlock Hag Hfresh Hgt)
    as (s' & Hrun & _ & Hparent & _).
  eexists (Sys.next_uuid s), s', _.
  split; [exact Hrun|]. split; [exact Hparent|]. split; [reflexivity|].
  cbn. by rewrite length_app.
Qed.

Lemma create_subagent_appends_twice_witness :
  ∃ child s' pag,
    create_subagent 0 (Some "structural") Examples.one_agent = Returns (Some child) s' ∧
    Sys.objects s' !! 0 = Some pag ∧
    Agent.subagents pag = [] ++ [child; child] ∧
    length (Agent.subagents pag) = 0 + 2.
Proof.
  apply (create_subagent_appends_twice Examples.one_agent 0
           (Agent.mk 0 [] [] 100%float None [] [] true true analytic []));
    reflexivity.
Defined.

(** ** Termination *)

Lemma terminate_agent_locked (fuel : nat) (agent_id : AgentId) (s : Sys.t) :
  Sys.lock s = true →
  terminate_agent (S fuel) agent_id s = Blocks s.
Proof. intros Hlock. cbn. unfold with_lock. by rewrite Hlock. Qed.

Lemma terminate_agent_unregistered (fuel : nat) (agent_id : AgentId) (s : Sys.t) :
  Sys.lock s = false →
  agent_id ∉ Sys.agents s →
  terminate_agent (S fuel) agent_id s = Returns false s.
Proof.
  intros Hlock Hnin. cbn. run_m.
  rewrite bool_decide_eq_false_2 by done. by rewrite unlock_lock.
Qed.

Lemma terminate_agent_childless (fuel : nat) (agent_id : AgentId) (ag : Agent.t)
    (s : Sys.t) :
  Sys.lock s = false →
  agent_id ∈ Sys.agents s →
  Sys.objects s !! agent_id = Some ag →
  Agent.subagents ag = [] →
  terminate_agent (S fuel) agent_id s = Returns true (terminate_done agent_id ag s).
Proof.
  intros Hlock Hin Hag Hsub. cbn. run_m.
  rewrite bool_decide_eq_true_2 by done. run_m. rewrite Hsub. run_m.
  rewrite bool_decide_eq_true_2 by done. cbn.
  f_equal. unfold terminate_done. destruct s; cbn in *. by subst.
Qed.

Lemma terminate_agent_blocks (fuel : nat) (agent_id : AgentId) (ag : Agent.t)
    (s : Sys.t) (c : AgentId) (rest : list AgentId) :
  Sys.lock s = false →
  agent_id ∈ Sys.agents s →
  Sys.objects s !! agent_id = Some ag →
  Agent.subagents ag = c :: rest →
  is_Some (Sys.objects s !! c) →
  terminate_agent (S (S fuel)) agent_id s = Blocks (terminate_started agent_id ag s).
Proof.
  intros Hlock Hin Hag Hsub [cag Hc].
  change (terminate_agent (S (S fuel)) agent_id s) with
    (with_lock (
        do s <- get_state;
        if bool_decide (agent_id ∈ Sys.agents s) then
          do _ <- update_agent agent_id (Agent.set_active false);
          do agent <- get_agent agent_id;
          do _ <- modify (fun s => Sys.set_energy_budget
                                     (Sys.energy_budget s + Agent.energy agent)%float s);
          do _ <- for_each (Agent.subagents agent) (fun subagent =>
            do sub <- get_agent subagent;
            do _ <- terminate_agent (S fuel) (Agent.id sub);
            ret tt);
          do s <- get_state;
          if bool_decide (agent_id ∈ Sys.agents s) then
            do _ <- modify (fun s => Sys.set_agents
                                       (dict_delete_key agent_id (Sys.agents s)) s);
            ret true
          else raise KeyError
        else ret false) s).
  unfold with_lock at 1. rewrite Hlock.
  unfold bind at 1. unfold get_state at 1. cbn [Sys.agents Sys.set_lock].
  rewrite bool_decide_eq_true_2 by done.
  unfold bind at 1. unfold update_agent, bind at 1, get_agent at 1.
  cbn [Sys.objects Sys.set_lock]. rewrite Hag.
  unfold modify at 1. unfold bind at 1. unfold get_agent at 1.
  cbn [Sys.objects Sys.set_objects]. rewrite lookup_insert_eq.
  unfold bind at 1. unfold modify at 1.
  cbn [Agent.subagents Agent.set_active]. rewrite Hsub.
  cbn [for_each]. unfold bind at 1. unfold bind at 1. unfold bind at 1.
  unfold get_agent at 1. sys_simpl.
  assert (is_Some (<[agent_id:=Agent.set_active false ag]> (Sys.objects s) !! c))
    as [sub Hsub'].
  { destruct (decide (agent_id = c)) as [->|Hne].
    - rewrite lookup_insert_eq. eauto.
    - rewrite lookup_insert_ne by done. eauto. }
  rewrite Hsub'.
  change ((do _ <- terminate_agent (S fuel) (Agent.id sub); ret ()) ?st)
    with (match terminate_agent (S fuel) (Agent.id sub) st with
          | Returns _ s' => Returns tt s'
          | Raises e s' => Raises e s'
          | Blocks s' => Blocks s'
          | Undefined => Undefined
          end).
  rewrite terminate_agent_locked by reflexivity. reflexivity.
Qed.

(** C1.  What the code does on a registered agent that has subagents:
    [terminate_agent] flags the agent inactive and adds its energy to the
    pool, then calls itself on the first subagent while still holding the
    lock, and that call never gets the lock.  No result is returned, the
    id stays in the registry, the lock stays held and every other object,
    the subagents included, is untouched. *)
Theorem terminate_agent_deadlocks_on_subagents (fuel : nat) (s : Sys.t)
    (agent_id : AgentId) (ag : Agent.t) (c : AgentId) (rest : list AgentId) :
  Sys.lock s = false →
  agent_id ∈ Sys.agents s →
  Sys.objects s !! agent_id = Some ag →
  Agent.subagents ag = c :: rest →
  is_Some (Sys.objects s !! c) →
  let s' := terminate_started agent_id ag s in
  terminate_agent (S (S fuel)) agent_id s = Blocks s' ∧
  agent_id ∈ Sys.agents s' ∧
  Sys.lock s' = true ∧
  Sys.energy_budget s' = (Sys.energy_budget s + Agent.energy ag)%float ∧
  (∀ k, k ≠ agent_id → Sys.objects s' !! k = Sys.objects s !! k).
Proof.
  intros Hlock Hin Hag Hsub Hc s'.
  split; [by eapply terminate_agent_blocks|].
  subst s'. unfold terminate_started. sys_simpl.
  repeat split; [done|].
  intros k Hk. by rewrite lookup_insert_ne.
Qed.

Lemma terminate_agent_deadlocks_on_subagents_witness :
  let s' := terminate_started 0
              (Agent.mk 0 [] [] 25%float None [1; 1; 2; 2] [] true true analytic [])
              Examples.family in
  terminate_agent 2 0 Examples.family = Blocks s' ∧
  0 ∈ Sys.agents s' ∧
  Sys.lock s' = true ∧
  Sys.energy_budget s' = (Sys.energy_budget Examples.family + 25)%float ∧
  (∀ k, k ≠ 0 → Sys.objects s' !! k = Sys.objects Examples.family !! k).
Proof.
  apply (terminate_agent_deadlocks_on_subagents 0 Examples.family 0
           (Agent.mk 0 [] [] 25%float None [1; 1; 2; 2] [] true true analytic [])
           1 [1; 2; 2]).
  - reflexivity.
  - by vm_compute; left.
  - reflexivity.
  - reflexivity.
  - by vm_compute; eexists.
Defined.

(** In the family of agent 0 the call never answers, agent 0 stays
    registered and both children stay active. *)
Example terminate_family :
  terminate_agent 2 0 Examples.family =
    Blocks (after (terminate_agent 2 0) Examples.family) ∧
  Sys.agents (after (terminate_agent 2 0) Examples.family) = [0] ∧
  Agent.active <$> Sys.objects (after (terminate_agent 2 0) Examples.family) !! 1
    = Some true ∧
  Agent.active <$> Sys.objects (after (terminate_agent 2 0) Examples.family) !! 2
    = Some true.
Proof. by vm_compute. Qed.

Lemma self_preserve_direct_witness :
  needs_decomposition scheduler_task = false ∧
  process_task 1 0 scheduler_task Examples.one_agent =
    Returns (VDict [("status", VStr "completed"); ("energy", VNum 100%float)])
            Examples.one_agent ∧
  (0 ∈ Sys.agents Examples.one_agent →
   process_agent_task 1 0 scheduler_task Examples.one_agent =
    Returns (VDict [("status", VStr "completed"); ("energy", VNum 100%float)])
            Examples.one_agent).
Proof.
  apply (self_preserve_direct 0 0
           (Agent.mk 0 [] [] 100%float None [] [] true true analytic [])
           Examples.one_agent).
  reflexivity.
Defined.

(** ** Relating the state before and after a computation *)

Section Follows.
Variables R Rb : Sys.t → Sys.t → Prop.
Hypothesis R_refl : ∀ s, R s s.
Hypothesis R_trans : ∀ s1 s2 s3, R s1 s2 → R s2 s3 → R s1 s3.
Hypothesis Rb_refl : ∀ s, Rb s s.
Hypothesis Rb_trans : ∀ s1 s2 s3, R s1 s2 → Rb s2 s3 → Rb s1 s3.
Hypothesis R_lock :
  ∀ s s', Sys.lock s = false → R (Sys.set_lock true s) s' → R s (Sys.set_lock false s').
Hypothesis Rb_lock :
  ∀ s s', Sys.lock s = false → Rb (Sys.set_lock true s) s' → Rb s s'.

Abbreviation follows := (follows R Rb).

Lemma follows_ret {A} (v : A) : follows (ret v).
Proof. intros s. apply R_refl. Qed.

Lemma follows_raise {A} (e : exn) : follows (raise (A:=A) e).
Proof. intros s. apply R_refl. Qed.

Lemma follows_undefined {A} : follows (undefined (A:=A)).
Proof. intros s. exact I. Qed.

Lemma follows_get_state : follows get_state.
Proof. intros s. apply R_refl. Qed.

Lemma follows_get_agent a : follows (get_agent a).
Proof. intros s. unfold get_agent. destruct (_ !! _); [apply R_refl | exact I]. Qed.

Lemma follows_modify f : (∀ s, R s (f s)) → follows (modify f).
Proof. intros Hf s. apply Hf. Qed.

Lemma follows_bind {A B} (m : M A) (k : A → M B) :
  follows m → (∀ v, follows (k v)) → follows (bind m k).
Proof.
  intros Hm Hk s. unfold bind. specialize (Hm s).
  destruct (m s) as [v s'| | |]; try done.
  specialize (Hk v s'). destruct (k v s'); eauto.
Qed.

Lemma follows_try_except {A} (m : M A) (h : exn → M A) :
  follows m → (∀ e, follows (h e)) → follows (try_except m h).
Proof.
  intros Hm Hh s. unfold try_except. specialize (Hm s).
  destruct (m s) as [|e s'| |]; try done.
  specialize (Hh e s'). destruct (h e s'); eauto.
Qed.

Lemma follows_with_lock {A} (m : M A) : follows m → follows (with_lock m).
Proof.
  intros Hm s. unfold with_lock. destruct (Sys.lock s) eqn:Hl; [apply Rb_refl|].
  specialize (Hm (Sys.set_lock true s)).
  destruct (m (Sys.set_lock true s)); eauto.
Qed.

Lemma follows_update_agent a f :
  (∀ s ag, Sys.objects s !! a = Some ag →
           R s (Sys.set_objects (<[a := f ag]> (Sys.objects s)) s)) →
  follows (update_agent a f).
Proof.
  intros Hf s. unfold update_agent, bind, get_agent, modify.
  destruct (Sys.objects s !! a) eqn:Ha; [|exact I]. by apply Hf.
Qed.

Lemma follows_for_each_in {A} (l : list A) (body : A → M unit) :
  (∀ x, x ∈ l → follows (body x)) → follows (for_each l body).
Proof.
  induction l as [|x l IH]; intros Hb; cbn [for_each].
  - apply follows_ret.
  - apply follows_bind; [apply Hb; left|].
    intros _. apply IH. intros y Hy. apply Hb. by right.
Qed.

Lemma follows_for_each {A} (l : list A) (body : A → M unit) :
  (∀ x, follows (body x)) → follows (for_each l body).
Proof. intros Hb. apply follows_for_each_in. intros x _. apply Hb. Qed.

Lemma follows_fold_left {A B} (step : M B → A → M B) (l : list A) (acc : M B) :
  (∀ m x, follows m → follows (step m x)) → follows acc →
  follows (fold_left step l acc).
Proof.
  intros Hs. revert acc. induction l as [|x l IH]; intros acc Hacc; cbn; eauto.
Qed.

Lemma follows_py_all (tests : list (M bool)) :
  Forall follows tests → follows (py_all tests).
Proof.
  induction 1 as [|t tests Ht _ IH]; cbn [py_all].
  - apply follows_ret.
  - apply follows_bind; [exact Ht|]. intros []; [exact IH | apply follows_ret].
Qed.
End Follows.

(** Every method gives the lock back and keeps the objects. *)

Abbreviation settles := (follows settled (fun _ _ => True)).

Lemma settled_refl s : settled s s.
Proof. by split. Qed.

Lemma settled_trans s1 s2 s3 : settled s1 s2 → settled s2 s3 → settled s1 s3.
Proof. intros [H1 H2] [H3 H4]. split; [congruence | eauto]. Qed.

Lemma settled_lock s s' :
  Sys.lock s = false → settled (Sys.set_lock true s) s' →
  settled s (Sys.set_lock false s').
Proof. intros Hl [H1 H2]. split; [by rewrite Hl | exact H2]. Qed.

Lemma settled_insert s a x :
  settled s (Sys.set_objects (<[a := x]> (Sys.objects s)) s).
Proof.
  split; [done|]. intros b Hb. cbn.
  destruct (decide (a = b)) as [->|Hne].
  - rewrite lookup_insert_eq. eauto.
  - by rewrite lookup_insert_ne.
Qed.

Lemma settles_fresh_uuid : settles fresh_uuid.
Proof. intros s. by split. Qed.

Create HintDb settles.
#[local] Hint Resolve settles_fresh_uuid : settles.

Ltac settles_step :=
  first
    [ solve [auto 1 with settles nocore]
    | apply follows_ret; [apply settled_refl]
    | apply follows_raise; [apply settled_refl]
    | apply follows_undefined
    | apply follows_get_state; [apply settled_refl]
    | apply follows_get_agent; [apply settled_refl]
    | apply follows_update_agent; intros; apply settled_insert
    | apply follows_modify; intros; first [apply settled_insert | by split]
    | apply follows_with_lock; [done | apply settled_lock | done |]
    | apply follows_for_each;
        [apply settled_refl | apply settled_trans | done | intros]
    | apply follows_bind; [apply settled_trans | done | | intros]
    | apply follows_try_except; [apply settled_trans | done | | intros]
    | assumption ].

Ltac settles :=
  repeat first
    [ settles_step
    | match goal with
      | |- follows _ _ (if ?b then _ else _) => destruct b
      | |- follows _ _ (match ?x with _ => _ end) => destruct x
      | |- follows _ _ (let (_, _) := ?x in _) => destruct x
      end ].

Lemma settles_MetaAgent_init parent initial_context :
  settles (MetaAgent_init parent initial_context).
Proof. unfold MetaAgent_init, inherit_knowledge. settles. Qed.
#[local] Hint Resolve settles_MetaAgent_init : settles.

Lemma settles_create_subagent self purpose : settles (create_subagent self purpose).
Proof.
  unfold create_subagent, derive_subcontext. settles.
Qed.
#[local] Hint Resolve settles_create_subagent : settles.

Lemma settles_reason_about_self self : settles (reason_about_self self).
Proof.
  unfold reason_about_self, assess_capabilities, detect_limitations, check_for_loops.
  settles.
Qed.
#[local] Hint Resolve settles_reason_about_self : settles.

Lemma settles_consolidate_subagents self : settles (consolidate_subagents self).
Proof. unfold consolidate_subagents. settles. Qed.
#[local] Hint Resolve settles_consolidate_subagents : settles.

Lemma settles_getitem k v : settles (getitem k v).
Proof. unfold getitem. settles. Qed.
#[local] Hint Resolve settles_getitem : settles.

Lemma settles_strategic_evolution self : settles (strategic_evolution self).
Proof.
  unfold strategic_evolution, simplify_context. settles.
Qed.
#[local] Hint Resolve settles_strategic_evolution : settles.

Lemma settles_execute_core_reasoning self task :
  settles (execute_core_reasoning self task).
Proof.
  unfold execute_core_reasoning. settles.
Qed.
#[local] Hint Resolve settles_execute_core_reasoning : settles.

Lemma settles_learn_from_failure self e : settles (learn_from_failure self e).
Proof. unfold learn_from_failure. settles. Qed.
#[local] Hint Resolve settles_learn_from_failure : settles.

Lemma settles_synthesize_results process self :
  (∀ a t, settles (process a t)) → settles (synthesize_results process self).
Proof.
  intros Hp. unfold synthesize_results.
  apply follows_bind; [apply settled_trans | done | apply follows_get_agent, settled_refl|].
  intros a. apply follows_bind; [apply settled_trans | done | | intros; settles].
  apply follows_fold_left; [|settles].
  intros m x Hm. settles.
Qed.

Lemma settles_process_task_body process self task :
  (∀ a t, settles (process a t)) → settles (process_task_body process self task).
Proof.
  intros Hp. unfold process_task_body.
  destruct (needs_decomposition task); [|apply settles_execute_core_reasoning].
  apply follows_bind; [apply settled_trans | done | |].
  - settles.
  - intros _. by apply settles_synthesize_results.
Qed.

Lemma settles_process_task fuel self task : settles (process_task fuel self task).
Proof.
  revert self task. induction fuel as [|fuel IH]; intros self task; cbn [process_task].
  - apply follows_undefined.
  - apply follows_try_except; [apply settled_trans | done | |].
    + by apply settles_process_task_body.
    + intros e. settles.
Qed.

(** ** Failure handling *)

Lemma learn_from_failure_effect (s : Sys.t) (self : AgentId) (ag : Agent.t) (e : exn) :
  Sys.lock s = false →
  Sys.objects s !! self = Some ag →
  learn_from_failure self e s = Returns tt (failure_recorded self ag e s).
Proof.
  intros Hlock Hag. unfold learn_from_failure. run_m.
  f_equal. unfold failure_recorded, failure_insight. rewrite !insert_insert_eq.
  destruct s; cbn in *. by subst.
Qed.

Lemma last_deque_append {A} (n : nat) (d : list A) (x : A) :
  0 < n → last (deque_append n d x) = Some x.
Proof.
  intros Hn. unfold deque_append.
  rewrite length_app. cbn [length].
  rewrite last_lookup, length_drop, lookup_drop, length_app. cbn [length].
  replace (_ + pred _) with (length d) by lia.
  by rewrite lookup_app_r, Nat.sub_diag by lia.
Qed.

(** C6.  When the body of [process_task] raises, the exception does not
    leave [process_task]: the call returns [None], and in the state it
    returns the failure record (error, context and energy at the failure)
    is the last entry of the agent's insight log and of the system's
    insight log, the agent's reasoning mode is adaptive and its energy is
    the energy at the failure plus 10.  From a state with the lock free,
    [process_task] never ends in an exception. *)
Theorem process_task_absorbs_exceptions (fuel : nat) (s : Sys.t) (self : AgentId)
    (task : string) :
  Sys.lock s = false →
  is_Some (Sys.objects s !! self) →
  (∀ e s', process_task fuel self task s ≠ Raises e s') ∧
  (∀ e s1,
     process_task_body (process_task fuel) self task s = Raises e s1 →
     ∃ ag1 s2 ag2,
       Sys.objects s1 !! self = Some ag1 ∧
       process_task (S fuel) self task s = Returns VNone s2 ∧
       s2 = failure_recorded self ag1 e s1 ∧
       Sys.objects s2 !! self = Some ag2 ∧
       Agent.insights ag2 = Agent.insights ag1 ++ [failure_insight ag1 e] ∧
       Sys.insights s2 = deque_append 100 (Sys.insights s1) (failure_insight ag1 e) ∧
       last (Sys.insights s2) = Some (failure_insight ag1 e) ∧
       Agent.reasoning_mode ag2 = adaptive ∧
       Agent.energy ag2 = (Agent.energy ag1 + 10)%float).
Proof.
  intros Hlock Hself.
  assert (∀ fuel' e s1,
            process_task_body (process_task fuel') self task s = Raises e s1 →
            ∃ ag1, Sys.objects s1 !! self = Some ag1 ∧
                   process_task (S fuel') self task s =
                     Returns VNone (failure_recorded self ag1 e s1)) as Hcatch.
  { intros fuel' e s1 Hbody.
    pose proof (settles_process_task_body (process_task fuel') self task
                  (settles_process_task fuel') s) as Hs.
    rewrite Hbody in Hs. destruct Hs as [Hl Ho].
    destruct (Ho self Hself) as [ag1 Hag1]. exists ag1. split; [done|].
    cbn [process_task]. unfold try_except. rewrite Hbody.
    unfold bind. rewrite (learn_from_failure_effect s1 self ag1 e) by congruence.
    reflexivity. }
  split.
  - intros e s' Hr. destruct fuel as [|fuel']; [discriminate|].
    cbn [process_task] in Hr. unfold try_except in Hr.
    destruct (process_task_body (process_task fuel') self task s) as [| e1 s1 | |] eqn:Hbody;
      try discriminate.
    destruct (Hcatch fuel' e1 s1 Hbody) as (ag1 & _ & Hp).
    cbn [process_task] in Hp. unfold try_except in Hp. rewrite Hbody in Hp.
    congruence.
  - intros e s1 Hbody. destruct (Hcatch fuel e s1 Hbody) as (ag1 & Hag1 & Hp).
    eexists ag1, _, _. split; [exact Hag1|]. split; [exact Hp|].
    split; [reflexivity|]. unfold failure_recorded. cbn.
    rewrite lookup_insert_eq. split; [reflexivity|].
    split; [reflexivity|]. split; [reflexivity|].
    split; [apply last_deque_append; lia|]. done.
Qed.

Lemma process_task_absorbs_exceptions_witness :
  (∀ e s', process_task 1 0 "a_b_c" Examples.idle_child ≠ Raises e s') ∧
  (∀ e s1,
     process_task_body (process_task 1) 0 "a_b_c" Examples.idle_child = Raises e s1 →
     ∃ ag1 s2 ag2,
       Sys.objects s1 !! 0 = Some ag1 ∧
       process_task 2 0 "a_b_c" Examples.idle_child = Returns VNone s2 ∧
       s2 = failure_recorded 0 ag1 e s1 ∧
       Sys.objects s2 !! 0 = Some ag2 ∧
       Agent.insights ag2 = Agent.insights ag1 ++ [failure_insight ag1 e] ∧
       Sys.insights s2 = deque_append 100 (Sys.insights s1) (failure_insight ag1 e) ∧
       last (Sys.insights s2) = Some (failure_insight ag1 e) ∧
       Agent.reasoning_mode ag2 = adaptive ∧
       Agent.energy ag2 = (Agent.energy ag1 + 10)%float).
Proof.
  apply (process_task_absorbs_exceptions 1 Examples.idle_child 0 "a_b_c").
  - reflexivity.
  - by vm_compute; eexists.
Defined.

(** On [idle_child], whose subagent has an empty task stack, the body of
    [process_task] does raise: [IndexError] from [task_stack[-1]]. *)
Example process_task_body_raises :
  process_task_body (process_task 1) 0 "a_b_c" Examples.idle_child =
    Raises IndexError Examples.idle_child ∧
  process_task 2 0 "a_b_c" Examples.idle_child =
    Returns VNone
      (failure_recorded 0
         (Agent.mk 0 [] [] 50%float None [1; 1] [] true true analytic [])
         IndexError Examples.idle_child).
Proof. by vm_compute. Qed.

(** ** The axioms and the self-preservation pass *)

Lemma lock_not_an_attribute : "lock" ∉ Agent.attributes.
Proof. apply (bool_decide_eq_false_1 ("lock" ∈ Agent.attributes)). by vm_compute. Qed.

Lemma all_axioms_eval (s : Sys.t) (a : AgentId) (ag : Agent.t) :
  Sys.objects s !! a = Some ag →
  all_axioms a s =
    if passes_three ag then Raises AttributeError s else Returns false s.
Proof.
  intros Hag. unfold all_axioms, passes_three, float_gt. cbn. unfold_m.
  rewrite Hag.
  destruct (PrimFloat.ltb 0 (Agent.energy ag)); cbn; [|done]. rewrite Hag.
  destruct (length (Agent.context ag) <=? 19)%nat; cbn; [|done]. rewrite Hag.
  destruct (length (Agent.subagents ag) <=? 4)%nat; cbn; [|done].
  unfold getattr_check.
  by rewrite (bool_decide_eq_false_2 _ lock_not_an_attribute).
Qed.

Lemma all_axioms_missing (s : Sys.t) (a : AgentId) :
  Sys.objects s !! a = None → all_axioms a s = Undefined.
Proof. intros Hag. unfold all_axioms. cbn. unfold_m. by rewrite Hag. Qed.

(** With the lock held, the loop over a non-empty [subagents] list does
    not come back. *)
Lemma terminate_loop_stuck (fuel : nat) (l : list AgentId) (s : Sys.t) :
  Sys.lock s = true → l ≠ [] →
  ∀ v s', for_each l (fun subagent =>
            do sub <- get_agent subagent;
            do _ <- terminate_agent fuel (Agent.id sub);
            ret tt) s ≠ Returns v s'.
Proof.
  intros Hlock Hl v s'. destruct l as [|c rest]; [done|].
  cbn [for_each]. unfold bind at 1. unfold bind at 1. unfold get_agent.
  destruct (Sys.objects s !! c) as [sub|]; [|done].
  unfold bind at 1. destruct fuel as [|fuel]; [done|].
  by rewrite terminate_agent_locked.
Qed.

(** [terminate_agent] returns only in two ways. *)
Lemma terminate_agent_returns (fuel : nat) (k : AgentId) (s s' : Sys.t) (b : bool) :
  terminate_agent fuel k s = Returns b s' →
  (b = false ∧ s' = s) ∨
  (∃ ag, Sys.objects s !! k = Some ag ∧ b = true ∧ s' = terminate_done k ag s).
Proof.
  destruct fuel as [|fuel]; [done|]. cbn [terminate_agent].
  unfold with_lock. destruct (Sys.lock s) eqn:Hlock; [done|].
  unfold bind at 1. unfold get_state at 1. sys_simpl.
  destruct (bool_decide (k ∈ Sys.agents s)) eqn:Hin.
  2:{ unfold ret. intros [= <- <-]. left. by rewrite unlock_lock. }
  unfold bind at 1. unfold update_agent, bind at 1, get_agent at 1. sys_simpl.
  destruct (Sys.objects s !! k) as [ag|] eqn:Hag; [|done].
  unfold modify at 1. unfold bind at 1. unfold get_agent at 1. sys_simpl.
  rewrite lookup_insert_eq. unfold bind at 1. unfold modify at 1. sys_simpl.
  unfold bind at 1.
  destruct (Agent.subagents ag) as [|c rest] eqn:Hsub.
  - cbn [for_each]. unfold ret at 1. unfold bind at 1, get_state at 1. sys_simpl.
    rewrite Hin. unfold bind, modify, ret. intros [= <- <-].
    right. exists ag. split; [done|]. split; [done|].
    unfold terminate_done. destruct s; cbn in *. by subst.
  - match goal with
    | |- context [for_each ?l ?body ?st] =>
        pose proof (terminate_loop_stuck fuel l st eq_refl ltac:(done)) as Hstuck;
        destruct (for_each l body st) as [v st'| | |] eqn:Hloop
    end; try done.
    by specialize (Hstuck v st').
Qed.

Lemma terminate_agent_returns_others (fuel : nat) (k : AgentId) (s s' : Sys.t)
    (b : bool) (a : AgentId) :
  terminate_agent fuel k s = Returns b s' → a ≠ k →
  Sys.objects s' !! a = Sys.objects s !! a.
Proof.
  intros Hr Hne. destruct (terminate_agent_returns _ _ _ _ _ Hr)
    as [[_ ->] | (ag & _ & _ & ->)]; [done|].
  unfold terminate_done. cbn. by rewrite lookup_insert_ne.
Qed.

(** The loop of [check_axioms] does not get past an agent that passes the
    three evaluable axioms. *)
Lemma check_axioms_loop_stuck (fuel : nat) (l : list AgentId) (s : Sys.t)
    (a : AgentId) (ag : Agent.t) :
  a ∈ l → Sys.objects s !! a = Some ag → passes_three ag = true →
  ∀ v s', for_each l (fun agent_id =>
            do compliant <- all_axioms agent_id;
            if compliant then ret tt
            else do _ <- terminate_agent fuel agent_id; ret tt) s ≠ Returns v s'.
Proof.
  revert s. induction l as [|k l IH]; intros s Hin Hag Hp v s'.
  { by apply elem_of_nil in Hin. }
  cbn [for_each]. unfold bind at 1. unfold bind at 1.
  destruct (Sys.objects s !! k) as [kag|] eqn:Hk.
  2:{ by rewrite all_axioms_missing. }
  rewrite (all_axioms_eval s k kag Hk).
  destruct (passes_three kag) eqn:Hpk; [done|].
  assert (a ≠ k) as Hne by (intros ->; congruence).
  apply elem_of_cons in Hin as [?|Hin]; [done|].
  unfold bind at 1.
  destruct (terminate_agent fuel k s) as [b s1| | |] eqn:Ht; try done.
  unfold ret at 1. apply IH; [done| |done].
  by rewrite (terminate_agent_returns_others _ _ _ _ _ a Ht).
Qed.

(** C2.  What the code does: the fourth axiom reads [x.lock] on the agent,
    which has no such attribute, so the conjunction of the four axioms
    raises [AttributeError] on every agent that passes the first three.
    A self-preservation pass over a registry that holds such an agent
    never completes; when that agent comes first, the pass ends in
    [AttributeError] with the system untouched, before any energy is
    redistributed. *)
Theorem self_preservation_cycle_raises (fuel : nat) (s : Sys.t) (a : AgentId)
    (ag : Agent.t) :
  a ∈ Sys.agents s →
  Sys.objects s !! a = Some ag →
  float_gt (Agent.energy ag) 0 = true →
  length (Agent.context ag) < 20 →
  length (Agent.subagents ag) < 5 →
  all_axioms a s = Raises AttributeError s ∧
  (∀ v s', check_axioms fuel s ≠ Returns v s') ∧
  (∀ v s', self_preservation_cycle fuel s ≠ Returns v s') ∧
  (∀ rest, Sys.agents s = a :: rest →
     self_preservation_cycle fuel s = Raises AttributeError s).
Proof.
  intros Hin Hag He Hc Hs.
  assert (passes_three ag = true) as Hp.
  { unfold passes_three.
    by rewrite He, (proj2 (Nat.ltb_lt _ _) Hc), (proj2 (Nat.ltb_lt _ _) Hs). }
  assert (all_axioms a s = Raises AttributeError s) as Hax.
  { by rewrite (all_axioms_eval s a ag Hag), Hp. }
  assert (∀ v s', check_axioms fuel s ≠ Returns v s') as Hcheck.
  { intros v s'. unfold check_axioms, bind at 1, get_state.
    by apply (check_axioms_loop_stuck fuel _ s a ag). }
  split; [exact Hax|]. split; [exact Hcheck|]. split.
  - intros v s'. unfold self_preservation_cycle, bind.
    destruct (check_axioms fuel s) as [u s1| | |] eqn:Hc1; try done.
    by specialize (Hcheck u s1).
  - intros rest Hrest. unfold self_preservation_cycle, check_axioms.
    unfold bind at 1. unfold bind at 1. unfold get_state. rewrite Hrest.
    cbn [for_each]. unfold bind at 1. unfold bind at 1. by rewrite Hax.
Qed.

Lemma self_preservation_cycle_raises_witness :
  all_axioms 0 Examples.crowded_pair = Raises AttributeError Examples.crowded_pair ∧
  (∀ v s', check_axioms 2 Examples.crowded_pair ≠ Returns v s') ∧
  (∀ v s', self_preservation_cycle 2 Examples.crowded_pair ≠ Returns v s') ∧
  (∀ rest, Sys.agents Examples.crowded_pair = 0 :: rest →
     self_preservation_cycle 2 Examples.crowded_pair =
       Raises AttributeError Examples.crowded_pair).
Proof.
  apply (self_preservation_cycle_raises 2 Examples.crowded_pair 0
           (Agent.mk 0 [] [] 600%float None [] [] true true analytic [])).
  - by vm_compute; left.
  - reflexivity.
  - reflexivity.
  - cbn; lia.
  - cbn; lia.
Defined.

(** On [crowded_pair] the pass stops with [AttributeError] on the first
    agent; agent 1, whose [subagents] list has six entries, is still
    registered and active afterwards. *)
Example crowded_pair_survives :
  self_preservation_cycle 2 Examples.crowded_pair =
    Raises AttributeError Examples.crowded_pair ∧
  Sys.agents Examples.crowded_pair = [0; 1] ∧
  (length ∘ Agent.subagents) <$> Sys.objects Examples.crowded_pair !! 1 = Some 6 ∧
  Agent.active <$> Sys.objects Examples.crowded_pair !! 1 = Some true.
Proof. by vm_compute. Qed.

(** ** Redistribution *)

Lemma insert_as_alter (f : Agent.t → Agent.t) (k : AgentId) (ag : Agent.t)
    (m : gmap AgentId Agent.t) :
  m !! k = Some ag → <[k := f ag]> m = alter f k m.
Proof.
  intros Hk. apply map_eq. intros i. destruct (decide (i = k)) as [->|Hne].
  - by rewrite lookup_insert_eq, lookup_alter_eq, Hk.
  - by rewrite lookup_insert_ne, lookup_alter_ne.
Qed.

Lemma lookup_update_all (f : Agent.t → Agent.t) (keys : list AgentId)
    (m : gmap AgentId Agent.t) (k : AgentId) :
  NoDup keys →
  update_all f keys m !! k = if decide (k ∈ keys) then f <$> m !! k else m !! k.
Proof.
  unfold update_all. intros Hnd. revert m.
  induction Hnd as [|x keys Hx Hnd IH]; intros m; cbn [foldl].
  - by rewrite decide_False by apply not_elem_of_nil.
  - rewrite IH. destruct (decide (k = x)) as [->|Hne].
    + rewrite decide_False by done. rewrite decide_True by left.
      by rewrite lookup_alter_eq.
    + rewrite lookup_alter_ne by done.
      destruct (decide (k ∈ keys)) as [Hin|Hnin].
      * by rewrite decide_True by by right.
      * rewrite decide_False; [done|]. by intros [?|?]%elem_of_cons.
Qed.

Lemma for_each_update_agent (f : Agent.t → Agent.t) (keys : list AgentId) (s : Sys.t) :
  (∀ k, k ∈ keys → is_Some (Sys.objects s !! k)) →
  for_each keys (fun k => update_agent k f) s =
    Returns tt (Sys.set_objects (update_all f keys (Sys.objects s)) s).
Proof.
  revert s. induction keys as [|k keys IH]; intros s Hall; cbn [for_each].
  - unfold ret, update_all. cbn. by destruct s.
  - destruct (Hall k) as [ag Hag]; [left|].
    unfold bind at 1. unfold update_agent, bind, get_agent, modify.
    rewrite Hag. rewrite IH.
    + cbn. rewrite (insert_as_alter f k ag) by done. by destruct s.
    + intros k' Hk'. cbn. rewrite (insert_as_alter f k ag) by done.
      destruct (decide (k' = k)) as [->|Hne].
      * rewrite lookup_alter_eq, Hag. by eexists.
      * rewrite lookup_alter_ne by done. apply Hall. by right.
Qed.

Lemma distribute_energy_effect (s : Sys.t) :
  Sys.lock s = false →
  (∀ k, k ∈ Sys.agents s → is_Some (Sys.objects s !! k)) →
  distribute_energy s =
    Returns tt
      (if (0 <? length (Sys.agents s))%nat
       then Sys.set_energy_budget 0%float
              (Sys.set_objects
                 (update_all
                    (fun x => Agent.set_energy (Agent.energy x + share_of s)%float x)
                    (Sys.agents s) (Sys.objects s)) s)
       else s).
Proof.
  intros Hlock Hall. unfold distribute_energy, with_lock. rewrite Hlock.
  unfold bind at 1. unfold get_state at 1. sys_simpl.
  destruct (0 <? length (Sys.agents s))%nat.
  - unfold bind. rewrite for_each_update_agent by (sys_simpl; done).
    unfold modify. f_equal. unfold share_of. destruct s; cbn in *. by subst.
  - unfold ret. by rewrite unlock_lock.
Qed.

(** C5, as amended.  With the lock free and every registered id naming an
    object, [distribute_energy] returns; with no registered agent it
    changes nothing; otherwise the pool is 0 afterwards, every registered
    agent's energy has grown by the same share, the pool divided by the
    number of registered agents (in floating point), and the objects
    outside the registry are untouched. *)
Theorem distribute_energy_shares (s : Sys.t) :
  Sys.lock s = false →
  NoDup (Sys.agents s) →
  (∀ k, k ∈ Sys.agents s → is_Some (Sys.objects s !! k)) →
  ∃ s', distribute_energy s = Returns tt s' ∧
    (Sys.agents s = [] → s' = s) ∧
    (Sys.agents s ≠ [] →
       Sys.energy_budget s' = 0%float ∧
       (∀ k ag, k ∈ Sys.agents s → Sys.objects s !! k = Some ag →
          Sys.objects s' !! k =
            Some (Agent.set_energy (Agent.energy ag + share_of s)%float ag)) ∧
       (∀ k, k ∉ Sys.agents s → Sys.objects s' !! k = Sys.objects s !! k) ∧
       Sys.agents s' = Sys.agents s ∧
       Sys.lock s' = false).
Proof.
  intros Hlock Hnd Hall. eexists. split; [by apply distribute_energy_effect|].
  destruct (Sys.agents s) as [|a l] eqn:Hagents.
  - split; [done|]. by intros [].
  - cbn [length Nat.ltb Nat.leb]. split; [done|]. intros _. sys_simpl.
    split; [done|]. split; [|split; [|done]].
    + intros k ag Hk Hag. rewrite lookup_update_all by done.
      by rewrite decide_True, Hag by done.
    + intros k Hk. rewrite lookup_update_all by done.
      by rewrite decide_False.
Qed.

Lemma distribute_energy_shares_witness :
  ∃ s', distribute_energy Examples.six_agents = Returns tt s' ∧
    (Sys.agents Examples.six_agents = [] → s' = Examples.six_agents) ∧
    (Sys.agents Examples.six_agents ≠ [] →
       Sys.energy_budget s' = 0%float ∧
       (∀ k ag, k ∈ Sys.agents Examples.six_agents →
          Sys.objects Examples.six_agents !! k = Some ag →
          Sys.objects s' !! k =
            Some (Agent.set_energy
                    (Agent.energy ag + share_of Examples.six_agents)%float ag)) ∧
       (∀ k, k ∉ Sys.agents Examples.six_agents →
          Sys.objects s' !! k = Sys.objects Examples.six_agents !! k) ∧
       Sys.agents s' = Sys.agents Examples.six_agents ∧
       Sys.lock s' = false).
Proof.
  apply (distribute_energy_shares Examples.six_agents).
  - reflexivity.
  - apply (bool_decide_unpack _). by vm_compute.
  - apply Forall_forall. apply (bool_decide_unpack _). by vm_compute.
Defined.

(** C5 as stated fails on six freshly spawned agents: the pool is 1000 and
    each agent holds 100, a total of 1600; after [distribute_energy] the
    pool is 0 and the energies sum to less than 1600, both as Python adds
    them and as exact rational numbers, because 1000 / 6 is rounded. *)
Lemma distribute_energy_loses_energy :
  let s := Examples.six_agents in
  let s' := after distribute_energy s in
  Sys.lock s = false ∧
  Sys.agents s = [0; 1; 2; 3; 4; 5] ∧
  distribute_energy s = Returns tt s' ∧
  Sys.energy_budget s' = 0%float ∧
  total_energy s = 1600%float ∧
  py_sum (registered_energies s') ≠ total_energy s ∧
  PrimFloat.ltb (py_sum (registered_energies s')) 1600 = true ∧
  exact_sum (Sys.energy_budget s :: registered_energies s) = Some (1600 # 1)%Q ∧
  exact_sum (registered_energies s') ≠ Some (1600 # 1)%Q.
Proof. do 8 (split; [by vm_compute|]). by vm_compute. Qed.

(** ** Energy accounting *)

Abbreviation neutral := (follows energy_kept energy_kept).

Lemma energy_kept_refl s : energy_kept s s.
Proof. by split. Qed.

Lemma energy_kept_trans s1 s2 s3 :
  energy_kept s1 s2 → energy_kept s2 s3 → energy_kept s1 s3.
Proof. intros [H1 H2] [H3 H4]. split; congruence. Qed.

Lemma energy_kept_lock s s' :
  Sys.lock s = false → energy_kept (Sys.set_lock true s) s' →
  energy_kept s (Sys.set_lock false s').
Proof. intros _ H. exact H. Qed.

Lemma energy_kept_unlock s s' :
  Sys.lock s = false → energy_kept (Sys.set_lock true s) s' → energy_kept s s'.
Proof. intros _ H. exact H. Qed.

Lemma energy_kept_insert s a ag x :
  Sys.objects s !! a = Some ag → Agent.energy x = Agent.energy ag →
  energy_kept s (Sys.set_objects (<[a := x]> (Sys.objects s)) s).
Proof.
  intros Hag He. split; [|done]. unfold energy_state. cbn. f_equal.
  rewrite fmap_insert. apply insert_id. by rewrite lookup_fmap, Hag, He.
Qed.

Lemma energy_kept_total s s' : energy_kept s s' → total_energy s' = total_energy s.
Proof.
  intros [He Ha]. unfold energy_state in He. injection He as Hb Ho.
  assert (∀ k, Agent.energy <$> Sys.objects s' !! k =
               Agent.energy <$> Sys.objects s !! k) as Hk.
  { intros k. by rewrite <- !lookup_fmap, Ho. }
  unfold total_energy, registered_energies. rewrite Hb, Ha. do 2 f_equal.
  clear Ha. induction (Sys.agents s) as [|k l IH]; [done|].
  cbn. by rewrite Hk, IH.
Qed.

Ltac neutral_step :=
  first
    [ apply follows_ret; [apply energy_kept_refl]
    | apply follows_raise; [apply energy_kept_refl]
    | apply follows_undefined
    | apply follows_get_state; [apply energy_kept_refl]
    | apply follows_get_agent; [apply energy_kept_refl]
    | apply follows_update_agent; intros; by eapply energy_kept_insert
    | apply follows_with_lock;
        [apply energy_kept_refl | apply energy_kept_lock | apply energy_kept_unlock |]
    | apply follows_bind;
        [apply energy_kept_trans | apply energy_kept_trans | | intros]
    | assumption ].

Ltac neutral_tac :=
  repeat first
    [ neutral_step
    | match goal with
      | |- follows _ _ (if ?b then _ else _) => destruct b
      | |- follows _ _ (match ?x with _ => _ end) => destruct x
      end ].

Lemma neutral_inherit_knowledge self parent : neutral (inherit_knowledge self parent).
Proof. unfold inherit_knowledge. neutral_tac. Qed.

Lemma neutral_assess_capabilities self : neutral (assess_capabilities self).
Proof. unfold assess_capabilities. neutral_tac. Qed.

Lemma neutral_check_for_loops self : neutral (check_for_loops self).
Proof. unfold check_for_loops. neutral_tac. Qed.

Lemma neutral_detect_limitations self : neutral (detect_limitations self).
Proof. unfold detect_limitations, check_for_loops. neutral_tac. Qed.

Lemma neutral_reason_about_self self : neutral (reason_about_self self).
Proof.
  unfold reason_about_self, assess_capabilities, detect_limitations, check_for_loops.
  neutral_tac.
Qed.

Lemma neutral_derive_subcontext self purpose : neutral (derive_subcontext self purpose).
Proof. unfold derive_subcontext. neutral_tac. Qed.

Lemma neutral_simplify_context self : neutral (simplify_context self).
Proof. unfold simplify_context. neutral_tac. Qed.

Lemma neutral_all_axioms agent : neutral (all_axioms agent).
Proof.
  unfold all_axioms. apply follows_py_all;
    [apply energy_kept_refl | apply energy_kept_trans | apply energy_kept_trans|].
  cbn. unfold getattr_check. repeat constructor; neutral_tac.
Qed.

Lemma neutral_system_health_check : neutral system_health_check.
Proof.
  unfold system_health_check.
  apply follows_with_lock;
    [apply energy_kept_refl | apply energy_kept_lock | apply energy_kept_unlock |].
  apply follows_bind; [apply energy_kept_trans | apply energy_kept_trans | |].
  { apply follows_get_state, energy_kept_refl. }
  intros s. apply follows_bind; [apply energy_kept_trans | apply energy_kept_trans | |].
  - apply follows_py_all;
      [apply energy_kept_refl | apply energy_kept_trans | apply energy_kept_trans|].
    apply Forall_map, Forall_forall. intros k _. apply neutral_all_axioms.
  - intros b. apply follows_ret, energy_kept_refl.
Qed.

Lemma neutral_discard {A} (m : M A) : neutral m → neutral (discard m).
Proof. intros Hm. unfold discard. neutral_tac. Qed.

Lemma neutral_exec (fuel : nat) (op : operation) :
  energy_operation op = false → neutral (exec fuel op).
Proof.
  destruct op; cbn; try discriminate; intros _;
    first [ apply neutral_inherit_knowledge
          | apply neutral_discard;
            first [ apply neutral_reason_about_self
                  | apply neutral_assess_capabilities
                  | apply neutral_detect_limitations
                  | apply neutral_check_for_loops
                  | apply neutral_derive_subcontext
                  | apply neutral_simplify_context
                  | apply neutral_all_axioms
                  | apply neutral_system_health_check ] ].
Qed.

Lemma spawn_new_agent_effect (s : Sys.t) (initial_task : option string) :
  Sys.lock s = false →
  Sys.objects s !! Sys.next_uuid s = None →
  let uid := Sys.next_uuid s in
  ∃ s' ag, spawn_new_agent initial_task s = Returns uid s' ∧
    Sys.energy_budget s' = Sys.energy_budget s ∧
    Sys.objects s' !! uid = Some ag ∧
    Agent.energy ag = 100%float ∧
    Sys.agents s' = dict_insert_key uid (Sys.agents s) ∧
    (∀ k, k ≠ uid → Sys.objects s' !! k = Sys.objects s !! k).
Proof.
  intros Hlock Hfresh uid. subst uid. unfold spawn_new_agent, MetaAgent_init.
  destruct initial_task as [task|]; [destruct (String.eqb task "") eqn:Ht|].
  all: run_m; rewrite ?Ht; run_m.
  all: eexists _, _; (split; [reflexivity|]); cbn.
  all: rewrite lookup_insert_eq.
  all: repeat split; try reflexivity.
  all: intros k Hk; by rewrite !lookup_insert_ne by done.
Qed.

Lemma terminate_agent_energy (fuel : nat) (agent_id : AgentId) (s s' : Sys.t)
    (b : bool) :
  terminate_agent fuel agent_id s = Returns b s' →
  Agent.energy <$> Sys.objects s' = Agent.energy <$> Sys.objects s ∧
  (b = false → Sys.energy_budget s' = Sys.energy_budget s) ∧
  (b = true → ∃ ag, Sys.objects s !! agent_id = Some ag ∧
     (agent_id ∉ Sys.agents s') ∧
     Sys.energy_budget s' = (Sys.energy_budget s + Agent.energy ag)%float).
Proof.
  intros Hr. destruct (terminate_agent_returns _ _ _ _ _ Hr)
    as [[-> ->] | (ag & Hag & -> & ->)].
  - by repeat split.
  - split; [|split; [done|]].
    + unfold terminate_done. cbn. rewrite fmap_insert. apply insert_id.
      by rewrite lookup_fmap, Hag.
    + intros _. exists ag. split; [done|]. split; [|done].
      unfold terminate_done, dict_delete_key. cbn.
      rewrite list_elem_of_filter. by intros [? _].
Qed.

Lemma learn_from_failure_energy (s : Sys.t) (self : AgentId) (ag : Agent.t) (e : exn) :
  Sys.lock s = false →
  Sys.objects s !! self = Some ag →
  ∃ s', learn_from_failure self e s = Returns tt s' ∧
    Sys.energy_budget s' = Sys.energy_budget s ∧
    Agent.energy <$> Sys.objects s' !! self = Some (Agent.energy ag + 10)%float ∧
    (∀ k, k ≠ self → Sys.objects s' !! k = Sys.objects s !! k).
Proof.
  intros Hlock Hag. eexists. split; [by apply learn_from_failure_effect|].
  unfold failure_recorded. cbn. rewrite lookup_insert_eq.
  repeat split. intros k Hk. by rewrite lookup_insert_ne.
Qed.

Section Consolidation.
Variable touched : AgentId → Prop.

Lemma kept_outside_refl s : kept_outside touched s s.
Proof. by repeat split. Qed.

Lemma kept_outside_trans s1 s2 s3 :
  kept_outside touched s1 s2 → kept_outside touched s2 s3 →
  kept_outside touched s1 s3.
Proof.
  intros (H1 & H2 & H3) (H4 & H5 & H6). repeat split; try congruence.
  intros k Hk. by rewrite H6, H3.
Qed.

Lemma kept_outside_insert s a x :
  touched a → kept_outside touched s (Sys.set_objects (<[a := x]> (Sys.objects s)) s).
Proof.
  intros Ha. repeat split. intros k Hk. cbn.
  rewrite lookup_insert_ne; [done|]. by intros ->.
Qed.

Lemma kept_outside_update_agent a f :
  touched a → follows (kept_outside touched) (kept_outside touched) (update_agent a f).
Proof.
  intros Ha. apply follows_update_agent. intros. by apply kept_outside_insert.
Qed.
End Consolidation.

Lemma consolidate_subagents_keeps (self : AgentId) (ag : Agent.t) (s s' : Sys.t) :
  Sys.objects s !! self = Some ag →
  outcome_state (consolidate_subagents self s) = Some s' →
  kept_outside (fun k => k = self ∨ k ∈ Agent.subagents ag) s s'.
Proof.
  intros Hag. set (touched := fun k => k = self ∨ k ∈ Agent.subagents ag).
  assert (touched self) as Hself by (by left).
  unfold consolidate_subagents, with_lock.
  destruct (Sys.lock s) eqn:Hlock.
  { cbn. intros [= <-]. apply kept_outside_refl. }
  unfold bind at 1. unfold get_agent at 1. sys_simpl. rewrite Hag.
  match goal with
  | |- outcome_state (match ?m ?st with _ => _ end) = _ → _ =>
      assert (follows (kept_outside touched) (kept_outside touched) m) as Hf;
      [|specialize (Hf st); destruct (m st) as [v s1|e s1|s1|]]
  end.
  { apply follows_bind;
      [apply kept_outside_trans | apply kept_outside_trans | |
       intros _; by apply kept_outside_update_agent].
    apply follows_for_each_in;
      [apply kept_outside_refl | apply kept_outside_trans
      | apply kept_outside_trans |].
    intros c Hc. assert (touched c) as Htc by (by right).
    repeat first
      [ apply follows_get_agent; [apply kept_outside_refl]
      | by apply kept_outside_update_agent
      | apply follows_bind;
          [apply kept_outside_trans | apply kept_outside_trans | | intros] ]. }
  all: cbn; intros [= <-]; try done.
  all: destruct Hf as (H1 & H2 & H3); by repeat split.
Qed.

(** * Further properties of the code *)

(** ** The registry *)

(** What [spawn_new_agent] does when the lock is free and the id is new. *)
Lemma spawn_new_agent_fresh (s : Sys.t) (initial_task : option string) :
  Sys.lock s = false →
  Sys.objects s !! Sys.next_uuid s = None →
  let uid := Sys.next_uuid s in
  ∃ s', spawn_new_agent initial_task s = Returns uid s' ∧
    Sys.objects s' !! uid = Some (spawned_agent uid initial_task) ∧
    (∀ k, k ≠ uid → Sys.objects s' !! k = Sys.objects s !! k) ∧
    Sys.agents s' = dict_insert_key uid (Sys.agents s) ∧
    Sys.energy_budget s' = Sys.energy_budget s ∧
    Sys.agents_created s' = Sys.agents_created s + 1 ∧
    Sys.next_uuid s' = S uid ∧
    Sys.lock s' = false.
Proof.
  intros Hlock Hfresh uid. subst uid.
  unfold spawn_new_agent, MetaAgent_init, spawned_agent.
  destruct initial_task as [task|]; [destruct (String.eqb task "") eqn:Ht|].
  all: run_m; rewrite ?Ht; run_m.
  all: eexists; (split; [reflexivity|]); cbn.
  all: rewrite lookup_insert_eq.
  all: split; [reflexivity|].
  all: split; [intros k Hk; by rewrite !lookup_insert_ne by done|done].
Qed.

Lemma dict_delete_key_absent (k : AgentId) (l : list AgentId) :
  k ∉ l → dict_delete_key k l = l.
Proof.
  unfold dict_delete_key. induction l as [|x l IH]; intros Hk; [done|].
  apply not_elem_of_cons in Hk as [Hne Hk].
  rewrite filter_cons, decide_True by done. by rewrite IH.
Qed.

Lemma dict_delete_key_gone (k : AgentId) (l : list AgentId) :
  k ∉ dict_delete_key k l.
Proof. unfold dict_delete_key. rewrite list_elem_of_filter. by intros [? _]. Qed.

Lemma dict_delete_key_length (k : AgentId) (l : list AgentId) :
  NoDup l → k ∈ l → length (dict_delete_key k l) + 1 = length l.
Proof.
  induction 1 as [|x l Hx Hnd IH]; intros Hin; [by apply elem_of_nil in Hin|].
  unfold dict_delete_key in *. rewrite filter_cons.
  destruct (decide (x = k)) as [->|Hne].
  - rewrite decide_False by (intros H; by apply H).
    fold (dict_delete_key k l). rewrite dict_delete_key_absent by done.
    cbn [length]. lia.
  - rewrite decide_True by done. cbn [length].
    apply elem_of_cons in Hin as [?|Hin]; [congruence|]. rewrite <- (IH Hin). lia.
Qed.

(** What [terminate_agent] does to a registered agent without subagents. *)
Lemma terminate_agent_childless_effect (fuel : nat) (s : Sys.t) (agent_id : AgentId)
    (ag : Agent.t) :
  Sys.lock s = false →
  agent_id ∈ Sys.agents s →
  Sys.objects s !! agent_id = Some ag →
  Agent.subagents ag = [] →
  ∃ s', terminate_agent (S fuel) agent_id s = Returns true s' ∧
    Sys.agents s' = dict_delete_key agent_id (Sys.agents s) ∧
    Sys.energy_budget s' = (Sys.energy_budget s + Agent.energy ag)%float ∧
    Sys.objects s' !! agent_id = Some (Agent.set_active false ag) ∧
    (∀ k, k ≠ agent_id → Sys.objects s' !! k = Sys.objects s !! k) ∧
    Sys.lock s' = false ∧
    Sys.insights s' = Sys.insights s ∧
    Sys.tasks_processed s' = Sys.tasks_processed s.
Proof.
  intros Hlock Hin Hag Hsub.
  exists (terminate_done agent_id ag s).
  split; [by apply terminate_agent_childless|].
  unfold terminate_done. sys_simpl.
  split; [reflexivity|]. split; [reflexivity|].
  split; [by rewrite lookup_insert_eq|].
  split; [intros k Hk; by rewrite lookup_insert_ne|done].
Qed.

(** X2.  [terminate_agent] on a registered agent without subagents, the
    lock free, returns [True]: the id leaves the registry, which gets one
    entry shorter, the agent's energy is added to the pool, the agent is
    flagged inactive and keeps its energy, no other object changes and the
    lock is free again.  A second call on the same id returns [False] and
    changes nothing. *)
Theorem terminate_agent_twice (fuel : nat) (s : Sys.t) (agent_id : AgentId)
    (ag : Agent.t) :
  Sys.lock s = false →
  NoDup (Sys.agents s) →
  agent_id ∈ Sys.agents s →
  Sys.objects s !! agent_id = Some ag →
  Agent.subagents ag = [] →
  ∃ s', terminate_agent (S fuel) agent_id s = Returns true s' ∧
    Sys.agents s' = filter (fun k => k ≠ agent_id) (Sys.agents s) ∧
    length (Sys.agents s') + 1 = length (Sys.agents s) ∧
    Sys.energy_budget s' = (Sys.energy_budget s + Agent.energy ag)%float ∧
    Sys.objects s' !! agent_id = Some (Agent.set_active false ag) ∧
    (∀ k, k ≠ agent_id → Sys.objects s' !! k = Sys.objects s !! k) ∧
    Sys.lock s' = false ∧
    terminate_agent (S fuel) agent_id s' = Returns false s'.
Proof.
  intros Hlock Hnd Hin Hag Hsub.
  destruct (terminate_agent_childless_effect fuel s agent_id ag Hlock Hin Hag Hsub)
    as (s' & Hrun & Hreg & Hpool & Hself & Hothers & Hlock' & _).
  exists s'. split; [exact Hrun|].
  split; [by rewrite Hreg|].
  split; [rewrite Hreg; by apply dict_delete_key_length|].
  split; [exact Hpool|]. split; [exact Hself|]. split; [exact Hothers|].
  split; [exact Hlock'|].
  apply terminate_agent_unregistered; [exact Hlock'|].
  rewrite Hreg. apply dict_delete_key_gone.
Qed.

Lemma terminate_agent_twice_witness :
  ∃ s', terminate_agent 1 0 Examples.one_agent = Returns true s' ∧
    Sys.agents s' = filter (fun k => k ≠ 0) (Sys.agents Examples.one_agent) ∧
    length (Sys.agents s') + 1 = length (Sys.agents Examples.one_agent) ∧
    Sys.energy_budget s' = (Sys.energy_budget Examples.one_agent + 100)%float ∧
    Sys.objects s' !! 0 =
      Some (Agent.set_active false (spawned_agent 0 None)) ∧
    (∀ k, k ≠ 0 → Sys.objects s' !! k = Sys.objects Examples.one_agent !! k) ∧
    Sys.lock s' = false ∧
    terminate_agent 1 0 s' = Returns false s'.
Proof.
  apply (terminate_agent_twice 0 Examples.one_agent 0 (spawned_agent 0 None)).
  - reflexivity.
  - apply (bool_decide_unpack _). by vm_compute.
  - apply (bool_decide_unpack _). by vm_compute.
  - reflexivity.
  - reflexivity.
Defined.

(** ** The health check *)

Lemma system_health_check_eval (s : Sys.t) :
  Sys.lock s = false →
  system_health_check s =
    match py_all (map all_axioms (Sys.agents s)) (Sys.set_lock true s) with
    | Returns compliance _ => Returns (health_snapshot s compliance) s
    | Raises e _ => Raises e s
    | Blocks s' => Blocks s'
    | Undefined => Undefined
    end.
Proof.
  intros Hlock. unfold system_health_check, with_lock. rewrite Hlock.
  unfold bind at 1. unfold get_state at 1. unfold bind at 1.
  assert (∀ l st, match py_all (map all_axioms l) st with
                  | Returns _ st' | Raises _ st' => st' = st
                  | Blocks _ => False
                  | Undefined => True
                  end) as Hsame.
  { induction l as [|a l IH]; intros st; cbn [map py_all]; [done|].
    unfold bind. destruct (Sys.objects st !! a) as [ag|] eqn:Hag.
    - rewrite (all_axioms_eval st a ag Hag). by destruct (passes_three ag).
    - by rewrite all_axioms_missing. }
  specialize (Hsame (Sys.agents s) (Sys.set_lock true s)). sys_simpl.
  destruct (py_all (map all_axioms (Sys.agents s)) (Sys.set_lock true s))
    as [b s1|e s1|s1|]; try done; subst s1.
  - unfold ret. rewrite unlock_lock by done. reflexivity.
  - by rewrite unlock_lock.
Qed.

(** X3.  With the lock free, the health check of an empty registry returns
    the report with compliance [True].  With agents registered, the first
    one alone decides the outcome: if it has positive energy, fewer than 20
    context entries and fewer than 5 subagents, the fourth axiom is
    evaluated on it and raises [AttributeError]; if not, the report is
    returned with compliance [False].  The state is the one before the call
    either way. *)
Theorem system_health_check_first_agent (s : Sys.t) :
  Sys.lock s = false →
  (Sys.agents s = [] →
     system_health_check s = Returns (health_snapshot s true) s) ∧
  (∀ a rest ag,
     Sys.agents s = a :: rest →
     Sys.objects s !! a = Some ag →
     system_health_check s =
       if passes_three ag then Raises AttributeError s
       else Returns (health_snapshot s false) s).
Proof.
  intros Hlock. split.
  - intros Hnil. rewrite system_health_check_eval by done. by rewrite Hnil.
  - intros a rest ag Hreg Hag. rewrite system_health_check_eval by done.
    rewrite Hreg. cbn [map py_all]. unfold bind.
    rewrite (all_axioms_eval _ a ag) by done.
    by destruct (passes_three ag).
Qed.

Lemma system_health_check_first_agent_witness :
  (Sys.agents Examples.crowded_pair = [] →
     system_health_check Examples.crowded_pair =
       Returns (health_snapshot Examples.crowded_pair true) Examples.crowded_pair) ∧
  (∀ a rest ag,
     Sys.agents Examples.crowded_pair = a :: rest →
     Sys.objects Examples.crowded_pair !! a = Some ag →
     system_health_check Examples.crowded_pair =
       if passes_three ag then Raises AttributeError Examples.crowded_pair
       else Returns (health_snapshot Examples.crowded_pair false)
              Examples.crowded_pair).
Proof. apply (system_health_check_first_agent Examples.crowded_pair). reflexivity. Defined.

(** ** Scaling *)

Lemma registry_not_grown_refl s : registry_not_grown s s.
Proof. unfold registry_not_grown. lia. Qed.

Lemma registry_not_grown_trans s1 s2 s3 :
  registry_not_grown s1 s2 → registry_not_grown s2 s3 → registry_not_grown s1 s3.
Proof. unfold registry_not_grown. lia. Qed.

(** However it ends, [terminate_agent] does not grow the registry. *)
Lemma terminate_agent_not_grown (fuel : nat) (agent_id : AgentId) :
  follows registry_not_grown registry_not_grown (terminate_agent fuel agent_id).
Proof.
  revert agent_id. induction fuel as [|fuel IH]; intros agent_id;
    cbn [terminate_agent]; [apply follows_undefined|].
  pose proof registry_not_grown_refl as Hr.
  pose proof registry_not_grown_trans as Ht.
  apply follows_with_lock; [done | by intros | by intros |].
  apply follows_bind; [done | done | by apply follows_get_state|].
  intros s0. destruct (bool_decide _); [|by apply follows_ret].
  apply follows_bind; [done | done | |intros _].
  { apply follows_update_agent. intros. unfold registry_not_grown. cbn. lia. }
  apply follows_bind; [done | done | by apply follows_get_agent | intros agent].
  apply follows_bind; [done | done | |intros _].
  { apply follows_modify. intros. unfold registry_not_grown. cbn. lia. }
  apply follows_bind; [done | done | |intros _].
  { apply follows_for_each; [done | done | done|]. intros sub.
    apply follows_bind; [done | done | by apply follows_get_agent | intros c].
    apply follows_bind; [done | done | apply IH | intros _; by apply follows_ret]. }
  apply follows_bind; [done | done | by apply follows_get_state | intros s1].
  destruct (bool_decide _); [|by apply follows_raise].
  apply follows_bind; [done | done | | intros _; by apply follows_ret].
  apply follows_modify. intros s2. unfold registry_not_grown, dict_delete_key.
  cbn. apply length_filter.
Qed.

(** X4.  [scale_down], the lock free: with at most one agent registered it
    does nothing; with more, it terminates the first agent of the
    registry.  If that agent has no subagents it leaves the registry, the
    second agent becomes the first, and its energy goes to the pool.  If it
    has a subagent the call never returns, and the registry is still
    whole. *)
Theorem scale_down_removes_oldest (fuel : nat) (s : Sys.t) :
  Sys.lock s = false →
  NoDup (Sys.agents s) →
  (length (Sys.agents s) ≤ 1 → scale_down fuel s = Returns tt s) ∧
  (∀ oldest second rest ag,
     Sys.agents s = oldest :: second :: rest →
     Sys.objects s !! oldest = Some ag →
     Agent.subagents ag = [] →
     ∃ s', scale_down (S fuel) s = Returns tt s' ∧
       Sys.agents s' = second :: rest ∧
       Sys.energy_budget s' = (Sys.energy_budget s + Agent.energy ag)%float ∧
       Sys.objects s' !! oldest = Some (Agent.set_active false ag) ∧
       (∀ k, k ≠ oldest → Sys.objects s' !! k = Sys.objects s !! k)) ∧
  (∀ oldest second rest ag c cs,
     Sys.agents s = oldest :: second :: rest →
     Sys.objects s !! oldest = Some ag →
     Agent.subagents ag = c :: cs →
     is_Some (Sys.objects s !! c) →
     ∃ s', scale_down (S (S fuel)) s = Blocks s' ∧ Sys.agents s' = Sys.agents s).
Proof.
  intros Hlock Hnd. split; [|split].
  - intros Hle. unfold scale_down, bind, get_state.
    destruct (Sys.agents s) as [|a [|b l]]; cbn in *; try done. lia.
  - intros oldest second rest ag Hreg Hag Hsub.
    destruct (terminate_agent_childless_effect fuel s oldest ag Hlock)
      as (s' & Hrun & Hagents & Hb & Ho & Hothers & _); try done.
    { rewrite Hreg. left. }
    exists s'. unfold scale_down, bind, get_state, discard, bind.
    rewrite Hreg. cbn [length Nat.ltb Nat.leb]. rewrite Hrun.
    split; [done|]. split; [|done].
    rewrite Hagents, Hreg. rewrite Hreg in Hnd.
    apply NoDup_cons in Hnd as [Hnin Hnd]. unfold dict_delete_key at 1.
    rewrite filter_cons, decide_False by (intros H; by apply H).
    by apply (dict_delete_key_absent oldest (second :: rest)).
  - intros oldest second rest ag c cs Hreg Hag Hsub Hc.
    assert (oldest ∈ Sys.agents s) as Hin by (rewrite Hreg; left).
    pose proof (terminate_agent_blocks fuel oldest ag s c cs Hlock Hin Hag Hsub Hc)
      as Hblk.
    eexists. unfold scale_down, bind, get_state, discard, bind.
    rewrite Hreg. cbn [length Nat.ltb Nat.leb]. rewrite Hblk.
    split; [reflexivity|]. unfold terminate_started. cbn. by rewrite Hreg.
Qed.

Lemma scale_down_removes_oldest_witness :
  (length (Sys.agents Examples.crowded_pair) ≤ 1 →
     scale_down 1 Examples.crowded_pair = Returns tt Examples.crowded_pair) ∧
  (∀ oldest second rest ag,
     Sys.agents Examples.crowded_pair = oldest :: second :: rest →
     Sys.objects Examples.crowded_pair !! oldest = Some ag →
     Agent.subagents ag = [] →
     ∃ s', scale_down 2 Examples.crowded_pair = Returns tt s' ∧
       Sys.agents s' = second :: rest ∧
       Sys.energy_budget s' =
         (Sys.energy_budget Examples.crowded_pair + Agent.energy ag)%float ∧
       Sys.objects s' !! oldest = Some (Agent.set_active false ag) ∧
       (∀ k, k ≠ oldest →
          Sys.objects s' !! k = Sys.objects Examples.crowded_pair !! k)) ∧
  (∀ oldest second rest ag c cs,
     Sys.agents Examples.crowded_pair = oldest :: second :: rest →
     Sys.objects Examples.crowded_pair !! oldest = Some ag →
     Agent.subagents ag = c :: cs →
     is_Some (Sys.objects Examples.crowded_pair !! c) →
     ∃ s', scale_down 3 Examples.crowded_pair = Blocks s' ∧
           Sys.agents s' = Sys.agents Examples.crowded_pair).
Proof.
  apply (scale_down_removes_oldest 1 Examples.crowded_pair).
  - reflexivity.
  - apply (bool_decide_unpack _). by vm_compute.
Defined.

Lemma length_dict_insert_key (k : AgentId) (l : list AgentId) :
  length l ≤ length (dict_insert_key k l) ≤ length l + 1.
Proof.
  unfold dict_insert_key. destruct (bool_decide (k ∈ l)); [lia|].
  rewrite length_app. cbn. lia.
Qed.

(** [spawn_new_agent] either waits for the lock or registers the id it
    returns. *)
Lemma spawn_new_agent_outcome (s : Sys.t) (initial_task : option string) :
  (Sys.lock s = true ∧ spawn_new_agent initial_task s = Blocks s) ∨
  (∃ s', spawn_new_agent initial_task s = Returns (Sys.next_uuid s) s' ∧
         Sys.agents s' = dict_insert_key (Sys.next_uuid s) (Sys.agents s)).
Proof.
  destruct (Sys.lock s) eqn:Hlock.
  - left. split; [done|]. unfold spawn_new_agent, with_lock. by rewrite Hlock.
  - right. unfold spawn_new_agent, MetaAgent_init.
    destruct initial_task as [task|]; [destruct (String.eqb task "") eqn:Ht|].
    all: run_m; rewrite ?Ht; run_m.
    all: eexists; split; reflexivity.
Qed.

(** X6.  One turn of the resource manager, in whatever state it ends: the
    registry grows by at most one agent; it does not grow when 50 agents or
    more are registered, nor when the load is above 80; it does not shrink
    when the load is not above 80; and when the load is neither above 80
    nor below 20 the state is untouched. *)
Theorem resource_manager_turn_bounds (fuel : nat) (cpu_load : float)
    (s s' : Sys.t) :
  outcome_state (resource_manager_turn fuel cpu_load s) = Some s' →
  length (Sys.agents s') ≤ length (Sys.agents s) + 1 ∧
  (50 ≤ length (Sys.agents s) → length (Sys.agents s') ≤ length (Sys.agents s)) ∧
  (float_gt cpu_load 80 = true → length (Sys.agents s') ≤ length (Sys.agents s)) ∧
  (float_gt cpu_load 80 = false → length (Sys.agents s) ≤ length (Sys.agents s')) ∧
  (float_gt cpu_load 80 = false → float_lt cpu_load 20 = false → s' = s).
Proof.
  unfold resource_manager_turn. destruct (float_gt cpu_load 80) eqn:Hhigh.
  - intros Hout.
    assert (length (Sys.agents s') ≤ length (Sys.agents s)) as Hle.
    { revert Hout. unfold scale_down, bind, get_state.
      destruct (1 <? length (Sys.agents s))%nat;
        [|cbn; intros [= <-]; lia].
      destruct (Sys.agents s) as [|oldest rest] eqn:Hreg;
        [cbn; intros [= <-]; rewrite Hreg; cbn; lia|].
      unfold discard, bind.
      pose proof (terminate_agent_not_grown fuel oldest s) as Hn.
      unfold registry_not_grown in Hn. rewrite Hreg in Hn.
      destruct (terminate_agent fuel oldest s); cbn; intros [= <-]; done. }
    repeat split; try done; lia.
  - unfold bind at 1. unfold get_state at 1.
    destruct (float_lt cpu_load 20) eqn:Hlow; cbn [andb].
    2:{ cbn. intros [= <-]. repeat split; try done; lia. }
    destruct (length (Sys.agents s) <? 50)%nat eqn:Hcap.
    2:{ cbn. intros [= <-]. repeat split; try done; lia. }
    apply Nat.ltb_lt in Hcap.
    unfold scale_up, bind, get_state.
    rewrite (proj2 (Nat.ltb_lt (length (Sys.agents s)) 100)) by lia.
    unfold discard, bind.
    destruct (spawn_new_agent_outcome s (Some "explore"))
      as [[_ ->] | (s1 & -> & Ha)]; cbn; intros [= <-].
    + repeat split; try done; lia.
    + pose proof (length_dict_insert_key (Sys.next_uuid s) (Sys.agents s)).
      rewrite Ha. repeat split; try done; lia.
Qed.

Lemma resource_manager_turn_bounds_witness :
  length (Sys.agents (after (resource_manager_turn 2 10%float) Examples.one_agent))
    ≤ length (Sys.agents Examples.one_agent) + 1 ∧
  (50 ≤ length (Sys.agents Examples.one_agent) →
   length (Sys.agents (after (resource_manager_turn 2 10%float) Examples.one_agent))
     ≤ length (Sys.agents Examples.one_agent)) ∧
  (float_gt 10 80 = true →
   length (Sys.agents (after (resource_manager_turn 2 10%float) Examples.one_agent))
     ≤ length (Sys.agents Examples.one_agent)) ∧
  (float_gt 10 80 = false →
   length (Sys.agents Examples.one_agent) ≤
   length (Sys.agents (after (resource_manager_turn 2 10%float) Examples.one_agent))) ∧
  (float_gt 10 80 = false → float_lt 10 20 = false →
   after (resource_manager_turn 2 10%float) Examples.one_agent = Examples.one_agent).
Proof.
  apply (resource_manager_turn_bounds 2 10%float Examples.one_agent).
  vm_compute. reflexivity.
Defined.

(** ** Shutdown *)

(** The termination loop of [graceful_shutdown] over agents without
    subagents: the snapshot being iterated is the registry itself. *)
Lemma terminate_all_childless (fuel : nat) (l : list AgentId) (s : Sys.t) :
  Sys.lock s = false →
  Sys.agents s = l →
  NoDup l →
  (∀ k, k ∈ l → ∃ ag, Sys.objects s !! k = Some ag ∧ Agent.subagents ag = []) →
  ∃ s', for_each l (fun agent_id => discard (terminate_agent (S fuel) agent_id)) s
          = Returns tt s' ∧
    Sys.agents s' = [] ∧
    Sys.lock s' = false ∧
    Sys.energy_budget s' = pool_after_termination s ∧
    (∀ k ag, k ∈ l → Sys.objects s !! k = Some ag →
       Sys.objects s' !! k = Some (Agent.set_active false ag)) ∧
    (∀ k, k ∉ l → Sys.objects s' !! k = Sys.objects s !! k) ∧
    Sys.insights s' = Sys.insights s ∧
    Sys.tasks_processed s' = Sys.tasks_processed s.
Proof.
  revert s. induction l as [|a l IH]; intros s Hlock Hreg Hnd Hall.
  { exists s. cbn [for_each]. unfold ret, pool_after_termination, registered_energies.
    rewrite Hreg. cbn. repeat split; try done. intros k ag Hk. by apply elem_of_nil in Hk. }
  apply NoDup_cons in Hnd as [Hnin Hnd].
  destruct (Hall a) as (ag & Hag & Hsub); [left|].
  assert (NoDup (Sys.agents s)) as Hnds by (rewrite Hreg; by constructor).
  assert (a ∈ Sys.agents s) as Hin by (rewrite Hreg; left).
  destruct (terminate_agent_childless_effect fuel s a ag Hlock Hin Hag Hsub)
    as (s1 & Hrun & Hagents & Hb & Ho & Hothers & Hlock1 & Hi1 & Ht1).
  assert (Sys.agents s1 = l) as Hreg1.
  { rewrite Hagents, Hreg. unfold dict_delete_key at 1.
    rewrite filter_cons, decide_False by (intros H; by apply H).
    by apply (dict_delete_key_absent a l). }
  destruct (IH s1 Hlock1 Hreg1 Hnd) as (s' & Hloop & Hempty & Hl & Hpool & Hin' & Hout & Hi & Ht).
  { intros k Hk. destruct (Hall k) as (kag & Hkag & Hksub); [by right|].
    exists kag. split; [|done]. rewrite Hothers; [done|]. by intros ->. }
  exists s'. cbn [for_each]. unfold bind at 1. unfold discard at 1. unfold bind at 1.
  rewrite Hrun. unfold ret at 1.
  split; [exact Hloop|]. split; [done|]. split; [done|].
  split.
  { rewrite Hpool. unfold pool_after_termination, registered_energies.
    rewrite Hreg1, Hreg. cbn [omap list_omap]. rewrite Hag. cbn [fmap option_fmap option_map fold_left].
    rewrite Hb. f_equal.
    clear -Hothers Hnin. induction l as [|k l IH]; [done|].
    apply not_elem_of_cons in Hnin as [Hne Hnin].
    cbn [omap list_omap]. rewrite Hothers by done. by rewrite IH. }
  split.
  { intros k kag Hk Hkag. apply elem_of_cons in Hk as [->|Hk].
    - rewrite Hout by done. rewrite Ho. congruence.
    - apply Hin'; [done|]. rewrite Hothers; [done|]. by intros ->. }
  split.
  { intros k Hk. apply not_elem_of_cons in Hk as [Hne Hk].
    rewrite Hout by done. by apply Hothers. }
  split; congruence.
Qed.

(** X7.  [graceful_shutdown], the lock free, the registered agents all
    there.  If no registered agent has subagents, every one is terminated:
    the registry ends empty, the pool holds its old amount plus the
    energies of the agents in registry order, the agents are inactive, no
    other object changes, and the final health check reports an empty,
    compliant system whose total energy is the pool.  If the first
    registered agent has a subagent, the shutdown never completes: it stops
    inside the first termination, the lock held and the registry whole. *)
Theorem graceful_shutdown_empties_registry (fuel : nat) (s : Sys.t) :
  Sys.lock s = false →
  NoDup (Sys.agents s) →
  (∀ k, k ∈ Sys.agents s → is_Some (Sys.objects s !! k)) →
  ((∀ k ag, k ∈ Sys.agents s → Sys.objects s !! k = Some ag →
      Agent.subagents ag = []) →
   ∃ s', graceful_shutdown (S fuel) s = Returns (health_snapshot s' true) s' ∧
     Sys.agents s' = [] ∧
     Sys.lock s' = false ∧
     Sys.energy_budget s' = pool_after_termination s ∧
     total_energy s' = (pool_after_termination s + 0)%float ∧
     (∀ k ag, k ∈ Sys.agents s → Sys.objects s !! k = Some ag →
        Sys.objects s' !! k = Some (Agent.set_active false ag)) ∧
     (∀ k, k ∉ Sys.agents s → Sys.objects s' !! k = Sys.objects s !! k)) ∧
  (∀ first rest ag c cs,
     Sys.agents s = first :: rest →
     Sys.objects s !! first = Some ag →
     Agent.subagents ag = c :: cs →
     is_Some (Sys.objects s !! c) →
     ∃ s', graceful_shutdown (S (S fuel)) s = Blocks s' ∧
           Sys.agents s' = Sys.agents s ∧ Sys.lock s' = true).
Proof.
  intros Hlock Hnd Hall. split.
  - intros Hchildless.
    destruct (terminate_all_childless fuel (Sys.agents s) s Hlock eq_refl Hnd)
      as (s' & Hloop & Hempty & Hl & Hpool & Hin & Hout & _).
    { intros k Hk. destruct (Hall k Hk) as [ag Hag]. exists ag. split; [done|].
      by apply (Hchildless k). }
    exists s'. unfold graceful_shutdown, bind at 1. unfold get_state at 1.
    unfold bind at 1. rewrite Hloop.
    rewrite (system_health_check_eval s' Hl), Hempty. cbn [map py_all]. unfold ret.
    split; [done|]. split; [done|]. split; [done|]. split; [done|].
    split; [|done].
    unfold total_energy, registered_energies. rewrite Hempty, Hpool. reflexivity.
  - intros first rest ag c cs Hreg Hag Hsub Hc.
    assert (first ∈ Sys.agents s) as Hin by (rewrite Hreg; left).
    pose proof (terminate_agent_blocks fuel first ag s c cs Hlock Hin Hag Hsub Hc)
      as Hblk.
    eexists. unfold graceful_shutdown, bind at 1. unfold get_state at 1.
    unfold bind at 1. rewrite Hreg. cbn [for_each].
    unfold bind at 1. unfold discard at 1. unfold bind at 1. rewrite Hblk.
    split; [reflexivity|]. unfold terminate_started. cbn. by rewrite Hreg.
Qed.

Lemma graceful_shutdown_empties_registry_witness :
  ((∀ k ag, k ∈ Sys.agents Examples.six_agents →
      Sys.objects Examples.six_agents !! k = Some ag →
      Agent.subagents ag = []) →
   ∃ s', graceful_shutdown 1 Examples.six_agents =
           Returns (health_snapshot s' true) s' ∧
     Sys.agents s' = [] ∧
     Sys.lock s' = false ∧
     Sys.energy_budget s' = pool_after_termination Examples.six_agents ∧
     total_energy s' = (pool_after_termination Examples.six_agents + 0)%float ∧
     (∀ k ag, k ∈ Sys.agents Examples.six_agents →
        Sys.objects Examples.six_agents !! k = Some ag →
        Sys.objects s' !! k = Some (Agent.set_active false ag)) ∧
     (∀ k, k ∉ Sys.agents Examples.six_agents →
        Sys.objects s' !! k = Sys.objects Examples.six_agents !! k)) ∧
  (∀ first rest ag c cs,
     Sys.agents Examples.six_agents = first :: rest →
     Sys.objects Examples.six_agents !! first = Some ag →
     Agent.subagents ag = c :: cs →
     is_Some (Sys.objects Examples.six_agents !! c) →
     ∃ s', graceful_shutdown 2 Examples.six_agents = Blocks s' ∧
           Sys.agents s' = Sys.agents Examples.six_agents ∧ Sys.lock s' = true).
Proof.
  apply (graceful_shutdown_empties_registry 0 Examples.six_agents).
  - reflexivity.
  - apply (bool_decide_unpack _). by vm_compute.
  - apply Forall_forall. apply (bool_decide_unpack _). by vm_compute.
Defined.

(** Six freshly spawned agents: shutdown returns the 1000 of the pool and
    the 600 of the agents, and reports an empty, compliant system. *)
Example graceful_shutdown_six_agents :
  graceful_shutdown 1 Examples.six_agents =
    Returns (health_snapshot (after (graceful_shutdown 1) Examples.six_agents) true)
            (after (graceful_shutdown 1) Examples.six_agents) ∧
  Sys.agents (after (graceful_shutdown 1) Examples.six_agents) = [] ∧
  Sys.energy_budget (after (graceful_shutdown 1) Examples.six_agents) = 1600%float.
Proof. by vm_compute. Qed.

(** ** Scheduling *)

Lemma process_task_self_preserve (fuel : nat) (self : AgentId) (ag : Agent.t)
    (s : Sys.t) :
  Sys.objects s !! self = Some ag →
  process_task (S fuel) self scheduler_task s =
    Returns (VDict [("status", VStr "completed"); ("energy", VNum (Agent.energy ag))]) s.
Proof. intros Hag. cbn. unfold try_except, bind, get_agent, ret. by rewrite Hag. Qed.

Lemma distribute_tasks_job (s : Sys.t) (job : AgentId * string) :
  job ∈ distribute_tasks s ↔
  job.2 = scheduler_task ∧ job.1 ∈ Sys.agents s ∧
  ∃ ag, Sys.objects s !! job.1 = Some ag ∧
        float_gt (Agent.energy ag) 20 = true ∧ Agent.task_stack ag = [].
Proof.
  unfold distribute_tasks. rewrite list_elem_of_omap. split.
  - intros (k & Hk & Hjob). destruct (Sys.objects s !! k) as [ag|] eqn:Hag; [|done].
    destruct (float_gt (Agent.energy ag) 20) eqn:He; [|done].
    destruct (bool_decide (Agent.task_stack ag = [])) eqn:Ht; [|done].
    cbn in Hjob. injection Hjob as <-. cbn. rewrite Hag.
    apply bool_decide_eq_true in Ht. eauto 6.
  - intros (Htask & Hin & ag & Hag & He & Ht). exists job.1. split; [done|].
    rewrite Hag, He, bool_decide_eq_true_2 by done. cbn.
    destruct job as [k t]. cbn in *. by subst.
Qed.

(** X8.  The scheduler submits one call, with the task "self_preserve", for
    exactly the registered agents that have energy above 20 and an empty
    task stack.  Each submitted call returns the record with status
    "completed" and the agent's energy, and running all of them leaves the
    system as it was: the task never reaches a task stack and no agent is
    created. *)
Theorem distribute_tasks_harmless (fuel : nat) (s : Sys.t) :
  (∀ job, job ∈ distribute_tasks s ↔
     job.2 = "self_preserve" ∧ job.1 ∈ Sys.agents s ∧
     ∃ ag, Sys.objects s !! job.1 = Some ag ∧
           float_gt (Agent.energy ag) 20 = true ∧ Agent.task_stack ag = []) ∧
  (∀ job, job ∈ distribute_tasks s →
     ∃ ag, Sys.objects s !! job.1 = Some ag ∧
       process_agent_task (S fuel) job.1 job.2 s =
         Returns (VDict [("status", VStr "completed");
                         ("energy", VNum (Agent.energy ag))]) s) ∧
  run_submitted (S fuel) (distribute_tasks s) s = Returns tt s.
Proof.
  split; [apply distribute_tasks_job|].
  assert (∀ job, job ∈ distribute_tasks s →
     ∃ ag, Sys.objects s !! job.1 = Some ag ∧
       process_agent_task (S fuel) job.1 job.2 s =
         Returns (VDict [("status", VStr "completed");
                         ("energy", VNum (Agent.energy ag))]) s) as Hjob.
  { intros job (Htask & Hin & ag & Hag & _)%distribute_tasks_job.
    exists ag. split; [done|]. unfold process_agent_task, bind, get_state.
    rewrite bool_decide_eq_true_2 by done. rewrite Htask.
    by apply process_task_self_preserve. }
  split; [exact Hjob|].
  unfold run_submitted. induction (distribute_tasks s) as [|job jobs IH]; [done|].
  cbn [for_each]. unfold bind at 1. unfold discard at 1. unfold bind at 1.
  destruct (Hjob job) as (ag & _ & ->); [left|]. unfold ret at 1.
  apply IH. intros j Hj. apply Hjob. by right.
Qed.

(** ** Agents *)

(** After one child, the next unnamed child of agent 0 is called
    "subagent_2": the list it counts holds the first child twice. *)
Example unnamed_child_name :
  purpose_of None (Agent.mk 0 [] [] 50%float None [1; 1] [] true true analytic [])
  = "subagent_2".
Proof. reflexivity. Qed.

(** X10.  [simplify_context] returns the context entries that do not start
    with "sub(", in their order: the result is a sublist of the context,
    holds no entry of the form "sub(purpose)", and simplifying it again
    gives it back.  The call changes nothing in the system. *)
Theorem simplify_context_drops_markers (context : list string) :
  let simplified := simplify_context_ctx context in
  (∀ c, c ∈ simplified ↔
        c ∈ context ∧ ¬ ∃ rest, c = "sub(" +:+ rest) ∧
  simplified `sublist_of` context ∧
  simplify_context_ctx simplified = simplified ∧
  (∀ purpose, ("sub(" +:+ purpose +:+ ")") ∉ simplified) ∧
  (∀ s self ag,
     Sys.objects s !! self = Some ag → Agent.context ag = context →
     simplify_context self s = Returns simplified s).
Proof.
  intros simplified. subst simplified. unfold simplify_context_ctx.
  assert (∀ c, PyStr.startswith "sub(" c = false ↔ ¬ ∃ rest, c = "sub(" +:+ rest)
    as Hstart.
  { intros c. rewrite <- startswith_spec.
    destruct (PyStr.startswith "sub(" c); naive_solver. }
  split; [|split; [|split; [|split]]].
  - intros c. rewrite list_elem_of_filter, Hstart. naive_solver.
  - apply sublist_filter.
  - apply list_filter_filter_l. done.
  - intros purpose. rewrite list_elem_of_filter. intros [Hc _].
    apply Hstart in Hc. apply Hc. by exists (purpose +:+ ")").
  - intros s self ag Hag <-. unfold simplify_context, bind, get_agent, ret.
    by rewrite Hag.
Qed.

(** X11.  With energy below 10, [strategic_evolution] only switches the
    agent's reasoning mode to conservative: the context is neither pruned
    nor deduplicated, no subagent is consolidated, and the lock is not
    needed. *)
Theorem strategic_evolution_conservative (s : Sys.t) (self : AgentId) (ag : Agent.t) :
  Sys.objects s !! self = Some ag →
  float_lt (Agent.energy ag) 10 = true →
  strategic_evolution self s =
    Returns tt
      (Sys.set_objects
         (<[self := Agent.set_reasoning_mode conservative ag]> (Sys.objects s)) s).
Proof.
  intros Hag Hlow. unfold strategic_evolution, bind at 1, get_agent at 1.
  rewrite Hag, Hlow. unfold update_agent, bind, get_agent, modify. by rewrite Hag.
Qed.

Lemma strategic_evolution_conservative_witness :
  let s := after (consolidate_subagents 0) Examples.family in
  let ag := Agent.mk 1 [] [] 0%float (Some 0) [] ["structural"] true false analytic [] in
  strategic_evolution 1 s =
    Returns tt
      (Sys.set_objects
         (<[1 := Agent.set_reasoning_mode conservative ag]> (Sys.objects s)) s).
Proof.
  intros s ag. apply (strategic_evolution_conservative s 1 ag); reflexivity.
Defined.

(** X12.  Every component that [decompose_problem] produces is one of
    "structural", "behavioral", "temporal", "base_case" and
    "inductive_step"; none of them needs decomposition or decomposes any
    further, so [process_task] on a component takes the direct path and
    returns the record with status "completed", leaving the system as it
    was: decomposition goes one level deep. *)
Theorem components_need_no_decomposition (task comp : string) :
  comp ∈ decompose_problem task →
  comp ∈ ["structural"; "behavioral"; "temporal"; "base_case"; "inductive_step"] ∧
  needs_decomposition comp = false ∧
  decompose_problem comp = [] ∧
  ∀ fuel self ag s,
    Sys.objects s !! self = Some ag →
    process_task (S fuel) self comp s =
      Returns (VDict [("status", VStr "completed");
                      ("energy", VNum (Agent.energy ag))]) s.
Proof.
  intros Hin.
  assert (comp ∈ ["structural"; "behavioral"; "temporal"; "base_case";
                  "inductive_step"]) as Hfive.
  { revert Hin. unfold decompose_problem.
    destruct (PyStr.contains "multi-aspect" task),
             (PyStr.contains "recursive" task); cbn;
      rewrite ?elem_of_cons; rewrite ?elem_of_nil; naive_solver. }
  split; [exact Hfive|].
  repeat (apply elem_of_cons in Hfive as [->|Hfive]);
    [..|by apply elem_of_nil in Hfive].
  all: split; [reflexivity|]; split; [reflexivity|].
  all: intros fuel self ag s Hag; cbn; unfold try_except, bind, get_agent, ret;
       by rewrite Hag.
Qed.

Lemma components_need_no_decomposition_witness :
  "base_case" ∈ ["structural"; "behavioral"; "temporal"; "base_case"; "inductive_step"] ∧
  needs_decomposition "base_case" = false ∧
  decompose_problem "base_case" = [] ∧
  ∀ fuel self ag s,
    Sys.objects s !! self = Some ag →
    process_task (S fuel) self "base_case" s =
      Returns (VDict [("status", VStr "completed");
                      ("energy", VNum (Agent.energy ag))]) s.
Proof.
  apply (components_need_no_decomposition "recursive" "base_case").
  apply (bool_decide_unpack _). by vm_compute.
Defined.

Lemma evolved_context_NoDup (context : list string) :
  NoDup (evolved_context context) ∧
  ∀ c, c ∈ evolved_context context ↔
       c ∈ context ∧ (10 < length context → PyStr.startswith "sub(" c = false).
Proof.
  unfold evolved_context.
  set (pruned := if (10 <? length context)%nat
                 then simplify_context_ctx context else context).
  assert (∀ c, c ∈ pruned ↔
               c ∈ context ∧
               (10 < length context → PyStr.startswith "sub(" c = false)) as Hsub.
  { intros c. unfold pruned, simplify_context_ctx.
    destruct (10 <? length context)%nat eqn:Hov.
    - apply Nat.ltb_lt in Hov. rewrite list_elem_of_filter.
      destruct (PyStr.startswith "sub(" c); cbn; naive_solver.
    - apply Nat.ltb_ge in Hov. split; [|by intros [? _]].
      intros ?. split; [done|]. lia. }
  destruct (check_for_loops_ctx context) eqn:Hloops.
  - split; [apply NoDup_elements|]. intros c.
    unfold list_of_set, py_set. rewrite elem_of_elements, elem_of_list_to_set.
    apply Hsub.
  - split; [|exact Hsub].
    assert (NoDup context) as Hnd.
    { destruct (decide (NoDup context)) as [?|Hn]; [done|].
      apply check_for_loops_ctx_spec in Hn. congruence. }
    unfold pruned, simplify_context_ctx.
    destruct (10 <? length context)%nat; [by apply NoDup_filter | done].
Qed.

(** What [reason_about_self] reports; it changes nothing. *)
Lemma reason_about_self_eval (s : Sys.t) (self : AgentId) (ag : Agent.t) :
  Sys.objects s !! self = Some ag →
  reason_about_self self s =
    Returns
      (VDict
         [("capabilities",
           VDict [("context_depth", VInt (length (Agent.context ag)));
                  ("processing_power", VNum (Agent.energy ag * 10));
                  ("subagent_count", VInt (length (Agent.subagents ag)))]);
          ("limitations",
           VDict [("context_overload", VBool (10 <? length (Agent.context ag))%nat);
                  ("energy_critical", VBool (float_lt (Agent.energy ag) 20));
                  ("reasoning_loops", VBool (check_for_loops_ctx (Agent.context ag)))]);
          ("energy_efficiency",
           VNum (Agent.energy ag / float_of_nat (length (Agent.subagents ag) + 1)))])
      s.
Proof.
  intros Hag.
  unfold reason_about_self, assess_capabilities, detect_limitations, check_for_loops.
  unfold bind, get_agent, ret. repeat (rewrite Hag; cbv beta iota). reflexivity.
Qed.

(** What [strategic_evolution] does to an agent without subagents whose
    energy is not below 10. *)
Lemma strategic_evolution_effect (s : Sys.t) (self : AgentId) (ag : Agent.t) :
  Sys.lock s = false →
  Sys.objects s !! self = Some ag →
  float_lt (Agent.energy ag) 10 = false →
  Agent.subagents ag = [] →
  ∃ s', strategic_evolution self s = Returns tt s' ∧
    Sys.objects s' !! self =
      Some (Agent.set_context (evolved_context (Agent.context ag)) ag) ∧
    (∀ k, k ≠ self → Sys.objects s' !! k = Sys.objects s !! k) ∧
    Sys.agents s' = Sys.agents s ∧
    Sys.energy_budget s' = Sys.energy_budget s ∧
    Sys.lock s' = false.
Proof.
  intros Hlock Hag Hlow Hsub.
  unfold strategic_evolution, bind at 1, get_agent at 1. rewrite Hag, Hlow.
  unfold bind at 1. rewrite (reason_about_self_eval s self ag Hag).
  unfold evolved_context.
  destruct ag as [i ctx mem e par subs ts th act rm ins]. cbn in Hsub, Hlow.
  subst subs. cbn [Agent.context Agent.energy Agent.subagents].
  set (ef := (e / float_of_nat (length (@nil AgentId) + 1))%float). clearbody ef.
  cbn [getitem list_find fst snd String.eqb Ascii.eqb Bool.eqb fmap option_fmap option_map].
  destruct (10 <? length ctx)%nat eqn:Hov, (check_for_loops_ctx ctx) eqn:Hlp,
           (float_lt ef 5) eqn:Hef.
  all: unfold float_lt in Hef;
       unfold consolidate_subagents, with_lock, simplify_context;
       repeat progress
         (run_m;
          rewrite ?(decide_True (P := true = true)),
                  ?(decide_False (P := false = true)), ?Hef by done).
  all: eexists; split; [reflexivity|]; cbn;
       rewrite ?lookup_insert_eq; repeat split; try done;
       intros k Hk; by rewrite ?lookup_insert_ne.
Qed.

(** X13.  On an agent without subagents whose energy is not below 10, the
    lock free, [strategic_evolution] returns and changes the agent's
    context only.  The new context has no duplicate, so that
    [check_for_loops] is false on it, and it holds exactly the old entries,
    those starting with "sub(" left out when the old context had more than
    10 entries.  The registry, the pool and the other agents are
    untouched and the lock is free again. *)
Theorem strategic_evolution_removes_loops (s : Sys.t) (self : AgentId) (ag : Agent.t) :
  Sys.lock s = false →
  Sys.objects s !! self = Some ag →
  float_lt (Agent.energy ag) 10 = false →
  Agent.subagents ag = [] →
  ∃ s' context',
    strategic_evolution self s = Returns tt s' ∧
    Sys.objects s' !! self = Some (Agent.set_context context' ag) ∧
    NoDup context' ∧
    check_for_loops_ctx context' = false ∧
    (∀ c, c ∈ context' ↔
          c ∈ Agent.context ag ∧
          (10 < length (Agent.context ag) → PyStr.startswith "sub(" c = false)) ∧
    (∀ k, k ≠ self → Sys.objects s' !! k = Sys.objects s !! k) ∧
    Sys.agents s' = Sys.agents s ∧
    Sys.energy_budget s' = Sys.energy_budget s ∧
    Sys.lock s' = false.
Proof.
  intros Hlock Hag Hlow Hsub.
  destruct (evolved_context_NoDup (Agent.context ag)) as [Hnd Hin].
  destruct (strategic_evolution_effect s self ag Hlock Hag Hlow Hsub)
    as (s' & Hrun & Hself & Hothers & Ha & Hb & Hl).
  exists s', (evolved_context (Agent.context ag)).
  assert (check_for_loops_ctx (evolved_context (Agent.context ag)) = false) as Hno.
  { apply not_true_is_false. rewrite check_for_loops_ctx_spec. by intros H. }
  done.
Qed.

Lemma strategic_evolution_removes_loops_witness :
  let ag := Agent.mk 0 ["a"; "sub(x)"; "a"] [] 100%float None [] [] true true analytic [] in
  let s := Sys.set_objects (<[0 := ag]> (Sys.objects Examples.one_agent))
             Examples.one_agent in
  ∃ s' context',
    strategic_evolution 0 s = Returns tt s' ∧
    Sys.objects s' !! 0 = Some (Agent.set_context context' ag) ∧
    NoDup context' ∧
    check_for_loops_ctx context' = false ∧
    (∀ c, c ∈ context' ↔
          c ∈ Agent.context ag ∧
          (10 < length (Agent.context ag) → PyStr.startswith "sub(" c = false)) ∧
    (∀ k, k ≠ 0 → Sys.objects s' !! k = Sys.objects s !! k) ∧
    Sys.agents s' = Sys.agents s ∧
    Sys.energy_budget s' = Sys.energy_budget s ∧
    Sys.lock s' = false.
Proof.
  intros ag s. apply (strategic_evolution_removes_loops s 0 ag); reflexivity.
Defined.

(** ** Consolidation *)

Lemma energies_lookup s a ag :
  Sys.objects s !! a = Some ag → energies s !! a = Some (Agent.energy ag).
Proof. intros Ha. unfold energies. by rewrite lookup_fmap, Ha. Qed.

Lemma absorbed_ext (m1 m2 : gmap AgentId float) (l : list AgentId) :
  (∀ k, k ∈ l → m1 !! k = m2 !! k) → absorbed m1 l = absorbed m2 l.
Proof.
  revert m1 m2. induction l as [|c l IH]; intros m1 m2 Hm; cbn [absorbed]; [done|].
  rewrite (Hm c) by left. f_equal. apply IH. intros k Hk.
  destruct (decide (k = c)) as [->|Hne].
  - by rewrite !lookup_insert_eq.
  - rewrite !lookup_insert_ne by done. apply Hm. by right.
Qed.

(** The loop of [consolidate_subagents] over the listed subagents: the
    agent's context grows by each listed context in turn and its energy by
    what each entry still holds, every listed agent ends drained and
    inactive, and nothing else moves. *)
Lemma consolidate_loop_energy (self : AgentId) (l : list AgentId) :
  ∀ (s : Sys.t) (a : Agent.t),
    Sys.objects s !! self = Some a →
    (∀ c, c ∈ l → c ≠ self ∧ is_Some (Sys.objects s !! c)) →
    ∃ s',
      for_each l (fun agent =>
        do c <- get_agent agent;
        do _ <- update_agent self
                  (fun x => Agent.set_context (Agent.context x ++ Agent.context c)%list x);
        do c <- get_agent agent;
        do _ <- update_agent self
                  (fun x => Agent.set_energy (Agent.energy x + Agent.energy c)%float x);
        do _ <- update_agent agent (Agent.set_energy 0%float);
        update_agent agent (Agent.set_active false)) s = Returns tt s' ∧
      s' = Sys.set_objects (Sys.objects s') s ∧
      Sys.objects s' !! self =
        Some (Agent.set_energy
                (fold_left (fun acc x => (acc + x)%float) (absorbed (energies s) l)
                           (Agent.energy a))
                (Agent.set_context
                   (Agent.context a ++
                    concat ((λ c, default [] (Agent.context <$> Sys.objects s !! c)) <$> l))
                   a)) ∧
      (∀ c cag, c ∈ l → Sys.objects s !! c = Some cag →
         Sys.objects s' !! c = Some (Agent.set_active false (Agent.set_energy 0 cag))) ∧
      (∀ k, k ≠ self → k ∉ l → Sys.objects s' !! k = Sys.objects s !! k).
Proof.
  induction l as [|c l IH]; intros s a Ha Hl.
  - exists s. cbn. rewrite app_nil_r.
    split; [done|]. split; [by destruct s|]. split; [by destruct a|].
    split; [|done]. intros ? ? Hc. by apply elem_of_nil in Hc.
  - destruct (Hl c) as [Hne [cag Hc]]; [left|].
    cbn [for_each]. unfold bind at 1.
    match goal with |- context [for_each l ?b] => set (body := b) end.
    assert (∃ s1, body c s = Returns tt s1 ∧
              s1 = Sys.set_objects (Sys.objects s1) s ∧
              Sys.objects s1 !! self =
                Some (Agent.set_energy (Agent.energy a + Agent.energy cag)
                        (Agent.set_context (Agent.context a ++ Agent.context cag) a)) ∧
              Sys.objects s1 !! c =
                Some (Agent.set_active false (Agent.set_energy 0 cag)) ∧
              (∀ k, k ≠ self → k ≠ c → Sys.objects s1 !! k = Sys.objects s !! k))
      as (s1 & Hstep & Hs1 & Hself1 & Hc1 & Hk1).
    { unfold body. run_m. eexists. split; [reflexivity|]. cbn.
      rewrite lookup_insert_eq.
      rewrite !(lookup_insert_ne _ c self) by done. rewrite lookup_insert_eq.
      repeat split; try done.
      intros k Hks Hkc. by rewrite !lookup_insert_ne. }
    fold (body c). rewrite Hstep.
    destruct (IH s1 _ Hself1) as (s' & Hrun & Hs' & Hself & Hsubs & Hk).
    { intros c' Hc'. destruct (Hl c') as [? [cag' Hcag']]; [by right|].
      split; [done|]. destruct (decide (c' = c)) as [->|?]; [by rewrite Hc1|].
      by rewrite Hk1. }
    assert (∀ c', c' ≠ self →
              default [] (Agent.context <$> Sys.objects s1 !! c') =
              default [] (Agent.context <$> Sys.objects s !! c')) as Hctx.
    { intros c' ?. destruct (decide (c' = c)) as [->|?].
      - by rewrite Hc1, Hc.
      - by rewrite Hk1. }
    assert (absorbed (energies s1) l = absorbed (<[c := 0%float]> (energies s)) l)
      as Habs.
    { apply absorbed_ext. intros k Hkl. destruct (Hl k) as [Hks _]; [by right|].
      unfold energies. destruct (decide (k = c)) as [->|Hkc].
      - by rewrite lookup_insert_eq, lookup_fmap, Hc1.
      - rewrite lookup_insert_ne by done. by rewrite !lookup_fmap, Hk1. }
    exists s'. split; [done|].
    split; [rewrite Hs' at 1; rewrite Hs1; by destruct s|].
    split.
    { rewrite Hself. f_equal. rewrite fmap_cons, concat_cons, Hc.
      cbn [fmap option_fmap option_map default absorbed fold_left].
      rewrite (energies_lookup s c cag Hc). cbn [default]. rewrite Habs.
      rewrite (list_fmap_ext _ (λ c0, default [] (Agent.context <$> Sys.objects s !! c0)) l).
      2:{ intros ? c' Hin. apply Hctx. apply Hl. right. by eapply list_elem_of_lookup_2. }
      destruct a. cbn. by rewrite <- app_assoc. }
    split.
    { intros c' cag' Hin Hcag'. destruct (decide (c' ∈ l)) as [Hinl|Hnin].
      - destruct (decide (c' = c)) as [->|Hnc].
        + rewrite (Hsubs c _ Hinl Hc1). replace cag' with cag by congruence.
          by destruct cag.
        + apply (Hsubs c' cag' Hinl). rewrite Hk1; [done| |done]. by apply Hl; right.
      - apply elem_of_cons in Hin as [->|?]; [|done].
        rewrite Hk by done. rewrite Hc1. congruence. }
    intros k Hks Hkl. apply not_elem_of_cons in Hkl as [? ?].
    rewrite Hk by done. by apply Hk1.
Qed.

(** X14.  [consolidate_subagents], the lock free, on an agent whose listed
    subagents exist and are not the agent itself: the agent's context is
    extended by the context of each entry of its [subagents] list, in list
    order and once per entry (twice for a subagent listed twice); every
    listed subagent ends with energy 0 and inactive; the agent's
    [subagents] list is empty; no other object changes, and the registry,
    the pool and the lock are as before. *)
Theorem consolidate_subagents_absorbs (s : Sys.t) (self : AgentId) (a : Agent.t) :
  Sys.lock s = false →
  Sys.objects s !! self = Some a →
  (∀ c, c ∈ Agent.subagents a → c ≠ self ∧ is_Some (Sys.objects s !! c)) →
  ∃ s' E,
    consolidate_subagents self s = Returns tt s' ∧
    Sys.objects s' !! self =
      Some (Agent.set_subagents []
              (Agent.set_energy E
                 (Agent.set_context
                    (Agent.context a ++
                     concat ((λ c, default [] (Agent.context <$> Sys.objects s !! c))
                               <$> Agent.subagents a))
                    a))) ∧
    (∀ c cag, c ∈ Agent.subagents a → Sys.objects s !! c = Some cag →
       Sys.objects s' !! c = Some (Agent.set_active false (Agent.set_energy 0 cag))) ∧
    (∀ k, k ≠ self → k ∉ Agent.subagents a →
       Sys.objects s' !! k = Sys.objects s !! k) ∧
    Sys.agents s' = Sys.agents s ∧
    Sys.energy_budget s' = Sys.energy_budget s ∧
    Sys.lock s' = false.
Proof.
  intros Hlock Ha Hsubs.
  destruct (consolidate_loop_energy self (Agent.subagents a) (Sys.set_lock true s) a
              Ha Hsubs) as (s1 & Hloop & Hs1 & Hself & Hc & Hk).
  unfold consolidate_subagents.
  match type of Hloop with for_each _ ?b _ = _ => set (body := b) in * end.
  unfold with_lock. rewrite Hlock. unfold bind, get_agent at 1.
  cbn [Sys.objects Sys.set_lock]. rewrite Ha, Hloop.
  unfold update_agent, bind, get_agent, modify. rewrite Hself.
  eexists _, _. split; [reflexivity|]. cbn. rewrite lookup_insert_eq.
  split; [done|]. split.
  { intros c cag Hin Hcag. rewrite lookup_insert_ne by (intros <-; by destruct (Hsubs _ Hin)).
    by apply Hc. }
  split.
  { intros k Hks Hkl. rewrite lookup_insert_ne by done. by apply Hk. }
  rewrite Hs1. by cbn.
Qed.

Lemma consolidate_subagents_absorbs_witness :
  let s := Examples.family in
  let a := Agent.mk 0 [] [] 25%float None [1; 1; 2; 2] [] true true analytic [] in
  ∃ s' E,
    consolidate_subagents 0 s = Returns tt s' ∧
    Sys.objects s' !! 0 =
      Some (Agent.set_subagents []
              (Agent.set_energy E
                 (Agent.set_context
                    (Agent.context a ++
                     concat ((λ c, default [] (Agent.context <$> Sys.objects s !! c))
                               <$> Agent.subagents a))
                    a))) ∧
    (∀ c cag, c ∈ Agent.subagents a → Sys.objects s !! c = Some cag →
       Sys.objects s' !! c = Some (Agent.set_active false (Agent.set_energy 0 cag))) ∧
    (∀ k, k ≠ 0 → k ∉ Agent.subagents a →
       Sys.objects s' !! k = Sys.objects s !! k) ∧
    Sys.agents s' = Sys.agents s ∧
    Sys.energy_budget s' = Sys.energy_budget s ∧
    Sys.lock s' = false.
Proof.
  intros s a. apply (consolidate_subagents_absorbs s 0 a).
  - reflexivity.
  - reflexivity.
  - apply Forall_forall. apply (bool_decide_unpack _). by vm_compute.
Defined.

(** ** What an agent's own work leaves alone *)

Lemma same_standing_refl ag : same_standing ag ag.
Proof. by repeat split. Qed.

Lemma same_standing_trans a b c :
  same_standing a b → same_standing b c → same_standing a c.
Proof. unfold same_standing. intros (?&?&?&?) (?&?&?&?). repeat split; congruence. Qed.

Lemma steady_refl s : steady s s.
Proof.
  intros Hids. repeat split; try done. intros a ag Ha. exists ag.
  split; [done | apply same_standing_refl].
Qed.

Lemma steady_trans s1 s2 s3 : steady s1 s2 → steady s2 s3 → steady s1 s3.
Proof.
  intros H12 H23 Hids.
  destruct (H12 Hids) as (Hids2 & Hl & Ha & Hb & Ht & Hi & Ho).
  destruct (H23 Hids2) as (Hids3 & Hl' & Ha' & Hb' & Ht' & Hi' & Ho').
  split; [done|]. split; [congruence|]. split; [congruence|].
  split; [congruence|]. split; [congruence|]. split; [auto|].
  intros a ag Hag. destruct (Ho a ag Hag) as (ag2 & Hag2 & Hs2).
  destruct (Ho' a ag2 Hag2) as (ag3 & Hag3 & Hs3).
  exists ag3. split; [done|]. by eapply same_standing_trans.
Qed.

Lemma lock_held_trans s1 s2 s3 : steady s1 s2 → lock_held s2 s3 → lock_held s1 s3.
Proof.
  intros H12 H23 Hids. destruct (H12 Hids) as (Hids2 & Hl & _).
  rewrite <- Hl. by apply H23.
Qed.

Lemma never_trans s1 s2 s3 : steady s1 s2 → never s2 s3 → never s1 s3.
Proof. by intros _ []. Qed.

Lemma steady_lock s s' :
  Sys.lock s = false → steady (Sys.set_lock true s) s' →
  steady s (Sys.set_lock false s').
Proof.
  intros Hl H Hids. destruct (H Hids) as (Hids' & _ & Ha & Hb & Ht & Hi & Ho).
  by repeat split.
Qed.

Lemma steady_insert s a ag x :
  Sys.objects s !! a = Some ag → same_standing ag x →
  steady s (Sys.set_objects (<[a := x]> (Sys.objects s)) s).
Proof.
  intros Ha Hx Hids. split; [|repeat split; try done].
  - intros k. cbn. destruct (decide (k = a)) as [->|Hne].
    + intros _. apply Hids. by exists ag.
    + rewrite lookup_insert_ne by done. apply Hids.
  - intros b bg Hb. cbn. destruct (decide (b = a)) as [->|Hne].
    + rewrite lookup_insert_eq. exists x. split; [done|]. congruence.
    + rewrite lookup_insert_ne by done. exists bg.
      split; [done | apply same_standing_refl].
Qed.

Lemma length_deque_append {A} (d : list A) (x : A) :
  length (deque_append 100 d x) ≤ 100.
Proof. unfold deque_append. rewrite length_drop, length_app. cbn. lia. Qed.

(** A block under the lock that itself never waits only waits when the
    lock is held at its start. *)
Lemma follows_with_lock_held {A} (m : M A) :
  follows steady never m → follows steady lock_held (with_lock m).
Proof.
  intros Hm s. unfold with_lock. destruct (Sys.lock s) eqn:Hl; [by intros _|].
  specialize (Hm (Sys.set_lock true s)).
  destruct (m (Sys.set_lock true s)); try done; by apply steady_lock.
Qed.

Create HintDb steady.

Ltac steady_step :=
  first
    [ solve [auto 1 with steady nocore]
    | apply follows_ret; [apply steady_refl]
    | apply follows_raise; [apply steady_refl]
    | apply follows_undefined
    | apply follows_get_state; [apply steady_refl]
    | apply follows_get_agent; [apply steady_refl]
    | apply follows_update_agent; intros;
        eapply steady_insert; [eassumption | by repeat split]
    | apply follows_for_each;
        [apply steady_refl | apply steady_trans
        | first [apply lock_held_trans | apply never_trans] | intros]
    | apply follows_bind;
        [apply steady_trans
        | first [apply lock_held_trans | apply never_trans] | | intros]
    | apply follows_try_except;
        [apply steady_trans
        | first [apply lock_held_trans | apply never_trans] | | intros]
    | assumption ].

Ltac steady :=
  repeat first
    [ steady_step
    | match goal with
      | |- follows _ _ (if ?b then _ else _) => destruct b
      | |- follows _ _ (match ?x with _ => _ end) => destruct x
      | |- follows _ _ (let (_, _) := ?x in _) => destruct x
      end ].

Lemma steady_create_subagent self purpose :
  follows steady lock_held (create_subagent self purpose).
Proof.
  intros s. destruct (Sys.lock s) eqn:Hl.
  { unfold create_subagent, with_lock. rewrite Hl. by intros _. }
  destruct (Sys.objects s !! self) as [ag|] eqn:Hself.
  2:{ unfold create_subagent, with_lock, bind, get_agent. rewrite Hl. cbn.
      by rewrite Hself. }
  destruct (float_gt (Agent.energy ag) 40) eqn:Hgt.
  2:{ rewrite (create_subagent_refused s self ag purpose Hl Hself Hgt).
      apply steady_refl. }
  assert (ids_issued s →
          ∃ s', create_subagent self purpose s = Returns (Some (Sys.next_uuid s)) s' ∧
                steady s s') as Heff.
  { intros Hids.
    assert (Sys.objects s !! Sys.next_uuid s = None) as Hfresh.
    { destruct (Sys.objects s !! Sys.next_uuid s) eqn:Hn; [|done].
      assert (Sys.next_uuid s < Sys.next_uuid s); [|lia]. apply Hids. eauto. }
    destruct (create_subagent_effect s self ag purpose Hl Hself Hfresh Hgt)
      as (s' & Hrun & Hchild & Hparent & Hothers & Ha & Hb & Hl' & Hi & Ht & _ & Hn).
    exists s'. split; [done|]. intros _.
    assert (∀ k, is_Some (Sys.objects s' !! k) → k < Sys.next_uuid s') as Hids'.
    { intros k Hk. rewrite Hn.
      destruct (decide (k = Sys.next_uuid s)) as [->|Hk1]; [lia|].
      destruct (decide (k = self)) as [->|Hk2].
      - assert (self < Sys.next_uuid s); [|lia]. apply Hids. eauto.
      - rewrite Hothers in Hk by done. pose proof (Hids k Hk). lia. }
    split; [exact Hids'|]. repeat split; try congruence.
    intros a ag0 Ha0.
    destruct (decide (a = Sys.next_uuid s)) as [->|Ha1]; [congruence|].
    destruct (decide (a = self)) as [->|Ha2].
    - exists (parent_after (Sys.next_uuid s) ag). split; [done|].
      replace ag0 with ag by congruence. by repeat split.
    - exists ag0. rewrite Hothers by done. split; [done | apply same_standing_refl]. }
  destruct (create_subagent self purpose s) as [v s1|e s1|s1|] eqn:Hrun; [| | |done].
  all: intros Hids; destruct (Heff Hids) as (s' & Heq & Hs'); try discriminate.
  injection Heq as _ <-. by apply Hs'.
Qed.
#[local] Hint Resolve steady_create_subagent : steady.

Lemma steady_reason_about_self self :
  follows steady lock_held (reason_about_self self).
Proof.
  unfold reason_about_self, assess_capabilities, detect_limitations, check_for_loops.
  steady.
Qed.
#[local] Hint Resolve steady_reason_about_self : steady.

Lemma steady_consolidate_subagents self :
  follows steady lock_held (consolidate_subagents self).
Proof. unfold consolidate_subagents. apply follows_with_lock_held. steady. Qed.
#[local] Hint Resolve steady_consolidate_subagents : steady.

Lemma steady_getitem k v : follows steady lock_held (getitem k v).
Proof. unfold getitem. steady. Qed.
#[local] Hint Resolve steady_getitem : steady.

Lemma steady_strategic_evolution self :
  follows steady lock_held (strategic_evolution self).
Proof. unfold strategic_evolution, simplify_context. steady. Qed.
#[local] Hint Resolve steady_strategic_evolution : steady.

Lemma steady_execute_core_reasoning self task :
  follows steady lock_held (execute_core_reasoning self task).
Proof. unfold execute_core_reasoning. steady. Qed.
#[local] Hint Resolve steady_execute_core_reasoning : steady.

Lemma steady_learn_from_failure self e :
  follows steady lock_held (learn_from_failure self e).
Proof.
  unfold learn_from_failure.
  apply follows_bind; [apply steady_trans | apply lock_held_trans | steady | intros a].
  apply follows_bind; [apply steady_trans | apply lock_held_trans | steady | intros _].
  apply follows_bind; [apply steady_trans | apply lock_held_trans | | intros _; steady].
  apply follows_with_lock_held. apply follows_modify. intros s Hids.
  repeat split; try done.
  - intros _. cbn. apply length_deque_append.
  - intros b bg Hb. exists bg. split; [done | apply same_standing_refl].
Qed.
#[local] Hint Resolve steady_learn_from_failure : steady.

Lemma steady_synthesize_results process self :
  (∀ a t, follows steady lock_held (process a t)) →
  follows steady lock_held (synthesize_results process self).
Proof.
  intros Hp. unfold synthesize_results.
  apply follows_bind; [apply steady_trans | apply lock_held_trans | steady |].
  intros a. apply follows_bind;
    [apply steady_trans | apply lock_held_trans | | intros; steady].
  apply follows_fold_left; [|steady].
  intros m x Hm. steady.
Qed.

Lemma steady_process_task_body process self task :
  (∀ a t, follows steady lock_held (process a t)) →
  follows steady lock_held (process_task_body process self task).
Proof.
  intros Hp. unfold process_task_body.
  destruct (needs_decomposition task); [|apply steady_execute_core_reasoning].
  apply follows_bind; [apply steady_trans | apply lock_held_trans | |].
  - steady.
  - intros _. by apply steady_synthesize_results.
Qed.

Lemma steady_process_task fuel self task :
  follows steady lock_held (process_task fuel self task).
Proof.
  revert self task. induction fuel as [|fuel IH]; intros self task; cbn [process_task].
  - apply follows_undefined.
  - apply follows_try_except; [apply steady_trans | apply lock_held_trans | |].
    + by apply steady_process_task_body.
    + intros e. steady.
Qed.

(** Ids are issued in order when every key of the store is below the
    counter, which can be checked by running through the store. *)
Lemma ids_issued_check (s : Sys.t) :
  bool_decide (map_Forall (λ k _, k < Sys.next_uuid s) (Sys.objects s)) = true →
  ids_issued s.
Proof.
  intros H%bool_decide_eq_true_1 k [ag Hk]. exact (H k ag Hk).
Qed.

(** X16.  From a state with the lock free in which no object carries an id
    yet to be issued, [process_task] never waits for the lock, and when it
    returns the lock is free, the registry, the pool and the count of
    processed tasks are as before (the agents it creates are not
    registered), the system's insight log is within its bound of 100
    entries if it was, and every agent that existed is still there with the
    same id, parent, memory and task stack. *)
Theorem process_task_confined (fuel : nat) (self : AgentId) (task : string)
    (s : Sys.t) :
  Sys.lock s = false →
  ids_issued s →
  (∀ s', process_task fuel self task s ≠ Blocks s') ∧
  (∀ r s', process_task fuel self task s = Returns r s' →
     Sys.lock s' = false ∧
     ids_issued s' ∧
     Sys.agents s' = Sys.agents s ∧
     Sys.energy_budget s' = Sys.energy_budget s ∧
     Sys.tasks_processed s' = Sys.tasks_processed s ∧
     (length (Sys.insights s) ≤ 100 → length (Sys.insights s') ≤ 100) ∧
     ∀ a ag, Sys.objects s !! a = Some ag →
       ∃ ag', Sys.objects s' !! a = Some ag' ∧
              Agent.id ag' = Agent.id ag ∧
              Agent.parent ag' = Agent.parent ag ∧
              Agent.memory ag' = Agent.memory ag ∧
              Agent.task_stack ag' = Agent.task_stack ag).
Proof.
  intros Hlock Hids. pose proof (steady_process_task fuel self task s) as H.
  split.
  - intros s' Hrun. rewrite Hrun in H. specialize (H Hids). congruence.
  - intros r s' Hrun. rewrite Hrun in H.
    destruct (H Hids) as (Hids' & Hl & Ha & Hb & Ht & Hi & Ho).
    split; [congruence|]. by repeat split.
Qed.

Lemma process_task_confined_witness :
  let s := Examples.one_agent in
  (∀ s', process_task 3 0 "multi-aspect" s ≠ Blocks s') ∧
  (∀ r s', process_task 3 0 "multi-aspect" s = Returns r s' →
     Sys.lock s' = false ∧
     ids_issued s' ∧
     Sys.agents s' = Sys.agents s ∧
     Sys.energy_budget s' = Sys.energy_budget s ∧
     Sys.tasks_processed s' = Sys.tasks_processed s ∧
     (length (Sys.insights s) ≤ 100 → length (Sys.insights s') ≤ 100) ∧
     ∀ a ag, Sys.objects s !! a = Some ag →
       ∃ ag', Sys.objects s' !! a = Some ag' ∧
              Agent.id ag' = Agent.id ag ∧
              Agent.parent ag' = Agent.parent ag ∧
              Agent.memory ag' = Agent.memory ag ∧
              Agent.task_stack ag' = Agent.task_stack ag).
Proof.
  intros s. apply (process_task_confined 3 0 "multi-aspect" s).
  - reflexivity.
  - apply ids_issued_check. vm_compute. reflexivity.
Defined.

(** The task "multi-aspect" on a fresh agent does return, with two
    subagents created and none of them registered. *)
Example process_task_multi_aspect :
  ∃ r s', process_task 3 0 "multi-aspect" Examples.one_agent = Returns r s' ∧
          Sys.agents s' = [0] ∧ Sys.agents_created s' = 3 ∧
          size (dom (Sys.objects s')) = 3.
Proof. eexists _, _. split; [vm_compute; reflexivity|]. by vm_compute. Qed.

(** From a state with the lock free, [process_task] does not end in an
    exception. *)
Lemma process_task_returns_or_stops (fuel : nat) (self : AgentId) (task : string)
    (s : Sys.t) :
  Sys.lock s = false → ids_issued s → is_Some (Sys.objects s !! self) →
  ∀ e s', process_task fuel self task s ≠ Raises e s'.
Proof.
  intros Hlock Hids [ag Hself] e s' Hrun. destruct fuel as [|fuel]; [done|].
  cbn [process_task] in Hrun. unfold try_except in Hrun.
  pose proof (steady_process_task_body (process_task fuel) self task
                (steady_process_task fuel) s) as Hb.
  destruct (process_task_body (process_task fuel) self task s)
    as [| e1 s1 | |] eqn:Hbody; try discriminate.
  destruct (Hb Hids) as (_ & Hl1 & _ & _ & _ & _ & Ho).
  destruct (Ho self ag Hself) as (ag1 & Hag1 & _).
  unfold bind in Hrun.
  rewrite (learn_from_failure_effect s1 self ag1 e1) in Hrun by congruence.
  discriminate.
Qed.

(** X17.  One turn of the loop of [run], from a state with the lock free in
    which no object carries an id yet to be issued.
    An inactive agent, or one with an empty task stack, changes nothing.
    An active agent with a task takes the task at the front of its stack:
    the turn neither waits for the lock nor ends in an exception, and when
    it returns exactly one more task is counted as processed, the agent's
    task stack is the rest of the old one, the registry and the pool are as
    before and the lock is free. *)
Theorem run_iteration_counts (fuel : nat) (self : AgentId) (ag : Agent.t)
    (s : Sys.t) :
  Sys.lock s = false →
  ids_issued s →
  Sys.objects s !! self = Some ag →
  (Agent.active ag = false ∨ Agent.task_stack ag = [] →
     run_iteration fuel self s = Returns tt s) ∧
  (∀ task rest,
     Agent.active ag = true → Agent.task_stack ag = task :: rest →
     (∀ s', run_iteration fuel self s ≠ Blocks s') ∧
     (∀ e s', run_iteration fuel self s ≠ Raises e s') ∧
     (∀ s', run_iteration fuel self s = Returns tt s' →
        Sys.tasks_processed s' = Sys.tasks_processed s + 1 ∧
        (∃ ag', Sys.objects s' !! self = Some ag' ∧ Agent.task_stack ag' = rest) ∧
        Sys.agents s' = Sys.agents s ∧
        Sys.energy_budget s' = Sys.energy_budget s ∧
        Sys.lock s' = false)).
Proof.
  intros Hlock Hids Hself. split.
  - intros Hidle. unfold run_iteration, bind, get_agent. rewrite Hself.
    destruct Hidle as [-> | ->]; [done|]. by destruct (Agent.active ag).
  - intros task rest Hact Hstack.
    set (s0 := Sys.set_objects
                 (<[self := Agent.set_task_stack rest ag]> (Sys.objects s)) s).
    assert (ids_issued s0) as Hids0.
    { intros k. unfold s0. cbn. destruct (decide (k = self)) as [->|Hne].
      - intros _. apply Hids. eauto.
      - rewrite lookup_insert_ne by done. apply Hids. }
    assert (Sys.objects s0 !! self = Some (Agent.set_task_stack rest ag)) as Hself0.
    { unfold s0. cbn. by rewrite lookup_insert_eq. }
    assert (run_iteration fuel self s =
            bind (process_task fuel self task)
              (fun _ =>
                 with_lock
                   (modify (fun s =>
                      Sys.set_tasks_processed (Sys.tasks_processed s + 1) s))) s0)
      as Hrun.
    { unfold run_iteration, bind at 1, get_agent at 1. rewrite Hself, Hact, Hstack.
      unfold bind at 1. unfold update_agent, bind, get_agent, modify. by rewrite Hself. }
    rewrite Hrun. unfold bind.
    pose proof (steady_process_task fuel self task s0) as Hst.
    pose proof (process_task_returns_or_stops fuel self task s0 Hlock Hids0
                  (mk_is_Some _ _ Hself0)) as Hnr.
    destruct (process_task fuel self task s0) as [r s1|e s1|s1|] eqn:Hp.
    2:{ by destruct (Hnr e s1). }
    2:{ specialize (Hst Hids0). unfold s0 in Hst. cbn in Hst. congruence. }
    2:{ by repeat split. }
    destruct (Hst Hids0) as (Hids1 & Hl1 & Ha1 & Hb1 & Ht1 & _ & Ho1).
    destruct (Ho1 self _ Hself0) as (ag1 & Hag1 & _ & _ & _ & Hts).
    unfold with_lock, modify. rewrite Hl1. unfold s0 at 1. cbn. rewrite Hlock.
    split; [done|]. split; [done|].
    intros s' [= <-]. cbn. rewrite Ht1, Ha1, Hb1. unfold s0. cbn.
    repeat split; try done. by exists ag1.
Qed.

Lemma run_iteration_counts_witness :
  let s := after (spawn_new_agent (Some "optimize")) Sys.init in
  let ag := spawned_agent 0 (Some "optimize") in
  (Agent.active ag = false ∨ Agent.task_stack ag = [] →
     run_iteration 2 0 s = Returns tt s) ∧
  (∀ task rest,
     Agent.active ag = true → Agent.task_stack ag = task :: rest →
     (∀ s', run_iteration 2 0 s ≠ Blocks s') ∧
     (∀ e s', run_iteration 2 0 s ≠ Raises e s') ∧
     (∀ s', run_iteration 2 0 s = Returns tt s' →
        Sys.tasks_processed s' = Sys.tasks_processed s + 1 ∧
        (∃ ag', Sys.objects s' !! 0 = Some ag' ∧ Agent.task_stack ag' = rest) ∧
        Sys.agents s' = Sys.agents s ∧
        Sys.energy_budget s' = Sys.energy_budget s ∧
        Sys.lock s' = false)).
Proof.
  intros s ag. apply (run_iteration_counts 2 0 ag s).
  - reflexivity.
  - apply ids_issued_check. vm_compute. reflexivity.
  - reflexivity.
Defined.

(** The first turn of a spawned agent with the task "optimize". *)
Example run_iteration_optimize :
  ∃ s', run_iteration 2 0 (after (spawn_new_agent (Some "optimize")) Sys.init)
          = Returns tt s' ∧
        Sys.tasks_processed s' = 1 ∧
        Agent.task_stack <$> Sys.objects s' !! 0 = Some [].
Proof. eexists. split; [vm_compute; reflexivity|]. by vm_compute. Qed.

(** X18.  Two tasks that leave the system as it was.  A task that needs no
    decomposition and contains "analyze" returns what [reason_about_self]
    reports, a non-empty record.  A task that needs decomposition but has
    no component, on an agent without subagents, returns the empty record,
    which counts as false where a result is tested. *)
Theorem process_task_read_only (fuel : nat) (self : AgentId) (ag : Agent.t)
    (task : string) (s : Sys.t) :
  Sys.objects s !! self = Some ag →
  (needs_decomposition task = false → PyStr.contains "analyze" task = true →
     ∃ analysis,
       process_task (S fuel) self task s = Returns analysis s ∧
       reason_about_self self s = Returns analysis s ∧
       truthy analysis = true) ∧
  (needs_decomposition task = true → decompose_problem task = [] →
     Agent.subagents ag = [] →
     process_task (S fuel) self task s = Returns (VDict []) s ∧
     truthy (VDict []) = false).
Proof.
  intros Hag. split.
  - intros Hnd Han. eexists. cbn [process_task].
    unfold try_except, process_task_body, execute_core_reasoning.
    rewrite Hnd, Han, (reason_about_self_eval s self ag Hag). by repeat split.
  - intros Hnd Hdec Hsub. split; [|done]. cbn [process_task].
    unfold try_except, process_task_body, synthesize_results. rewrite Hnd, Hdec.
    cbn [for_each]. unfold bind, ret, get_agent. rewrite Hag, Hsub. reflexivity.
Qed.

Lemma process_task_read_only_witness :
  let s := Examples.one_agent in
  let ag := spawned_agent 0 None in
  (needs_decomposition "multi_x" = false → PyStr.contains "analyze" "multi_x" = true →
     ∃ analysis,
       process_task 1 0 "multi_x" s = Returns analysis s ∧
       reason_about_self 0 s = Returns analysis s ∧
       truthy analysis = true) ∧
  (needs_decomposition "multi_x" = true → decompose_problem "multi_x" = [] →
     Agent.subagents ag = [] →
     process_task 1 0 "multi_x" s = Returns (VDict []) s ∧
     truthy (VDict []) = false).
Proof.
  intros s ag. apply (process_task_read_only 0 0 ag "multi_x" s). reflexivity.
Defined.

(** A task that is analysed, and one that is decomposed into nothing. *)
Example process_task_analyze_and_multi :
  (∃ analysis, process_task 1 0 "analyze" Examples.one_agent
               = Returns analysis Examples.one_agent ∧ truthy analysis = true) ∧
  process_task 1 0 "multi_analyze" Examples.one_agent
    = Returns (VDict []) Examples.one_agent.
Proof. split; [eexists; split|]; by vm_compute. Qed.

(** * The first turn of a started thread *)

(** A task that needs no decomposition and does not ask for optimisation
    is processed without a write. *)
Lemma process_task_direct (fuel : nat) (self : AgentId) (ag : Agent.t)
    (task : string) (s : Sys.t) :
  Sys.objects s !! self = Some ag →
  needs_decomposition task = false →
  PyStr.contains "optimize" task = false →
  ∃ r, process_task (S fuel) self task s = Returns r s.
Proof.
  intros Hag Hnd Hopt. cbn [process_task].
  unfold try_except, process_task_body, execute_core_reasoning. rewrite Hnd, Hopt.
  destruct (PyStr.contains "analyze" task).
  - rewrite (reason_about_self_eval s self ag Hag). by eexists.
  - unfold bind, get_agent, ret. rewrite Hag. by eexists.
Qed.

(** On an agent that has just been spawned, so is a task that asks for
    optimisation: there is nothing to prune, to deduplicate or to
    consolidate. *)
Lemma process_task_spawned (fuel : nat) (uid : AgentId) (task : string) (s : Sys.t) :
  Sys.objects s !! uid = Some (spawned_agent uid None) →
  needs_decomposition task = false →
  ∃ r, process_task (S fuel) uid task s = Returns r s.
Proof.
  intros Hag Hnd.
  destruct (PyStr.contains "optimize" task) eqn:Hopt.
  2:{ by eapply process_task_direct. }
  cbn [process_task].
  unfold try_except, process_task_body, execute_core_reasoning. rewrite Hnd, Hopt.
  destruct (PyStr.contains "analyze" task).
  { rewrite (reason_about_self_eval s uid _ Hag). by eexists. }
  unfold strategic_evolution, bind at 1. unfold bind at 1. unfold get_agent at 1.
  rewrite Hag. unfold spawned_agent at 1. cbn [Agent.energy].
  change (float_lt 100 10) with false. cbv iota.
  unfold bind at 1. rewrite (reason_about_self_eval s uid _ Hag).
  unfold spawned_agent.
  repeat progress
    (run_m;
     rewrite ?(decide_True (P := true = true)),
             ?(decide_False (P := false = true)) by done).
  assert (check_for_loops_ctx [] = false) as -> by (by vm_compute).
  match goal with
  | |- context [PrimFloat.ltb ?x 5] =>
      replace (PrimFloat.ltb x 5) with false by (by vm_compute)
  end.
  rewrite Hag. by eexists.
Qed.

(** One turn of the loop of an active agent whose first task is processed
    without a write: the task is gone and one more task is counted. *)
Lemma run_iteration_pops (fuel : nat) (self : AgentId) (ag : Agent.t)
    (task : string) (rest : list string) (s : Sys.t) :
  Sys.lock s = false →
  Sys.objects s !! self = Some ag →
  Agent.active ag = true →
  Agent.task_stack ag = task :: rest →
  (∀ s0, Sys.objects s0 !! self = Some (Agent.set_task_stack rest ag) →
         ∃ r, process_task fuel self task s0 = Returns r s0) →
  run_iteration fuel self s =
    Returns tt
      (Sys.set_tasks_processed (Sys.tasks_processed s + 1)
         (Sys.set_objects (<[self := Agent.set_task_stack rest ag]> (Sys.objects s)) s)).
Proof.
  intros Hlock Hag Hact Hstack Hp.
  unfold run_iteration, bind at 1, get_agent at 1. rewrite Hag, Hact, Hstack.
  unfold bind at 1. unfold update_agent, bind at 1, get_agent at 1. rewrite Hag.
  unfold modify at 1. unfold bind at 1.
  match goal with |- context [process_task fuel self task ?s0] =>
    destruct (Hp s0) as [r ->]; [cbn; by rewrite lookup_insert_eq|]
  end.
  unfold with_lock, modify. cbn. rewrite Hlock.
  destruct s; cbn in Hlock |- *. by subst.
Qed.

(** An inactive agent's loop does nothing. *)
Lemma run_iteration_inactive (fuel : nat) (self : AgentId) (ag : Agent.t) (s : Sys.t) :
  Sys.objects s !! self = Some ag → Agent.active ag = false →
  run_iteration fuel self s = Returns tt s.
Proof.
  intros Hag Hact. unfold run_iteration, bind, get_agent. by rewrite Hag, Hact.
Qed.

(** With nothing on the stack, a turn of the loop does nothing. *)
Lemma run_iteration_idle (fuel : nat) (self : AgentId) (ag : Agent.t) (s : Sys.t) :
  Sys.objects s !! self = Some ag → Agent.task_stack ag = [] →
  run_iteration fuel self s = Returns tt s.
Proof.
  intros Hag Hst. unfold run_iteration, bind, get_agent. rewrite Hag, Hst.
  by destruct (Agent.active ag).
Qed.

(** [spawn_new_agent] writes neither the task counter nor the insights. *)
Lemma spawn_new_agent_counters (s s' : Sys.t) (initial_task : option string)
    (uid : AgentId) :
  spawn_new_agent initial_task s = Returns uid s' →
  Sys.tasks_processed s' = Sys.tasks_processed s ∧
  Sys.insights s' = Sys.insights s.
Proof.
  unfold spawn_new_agent, MetaAgent_init, with_lock.
  destruct (Sys.lock s) eqn:Hlock; [done|].
  destruct initial_task as [task|]; [destruct (String.eqb task "") eqn:Ht|].
  all: run_m; rewrite ?Ht; run_m.
  all: by intros [= _ <-].
Qed.

(** X1.  [spawn_new_agent], called with the lock free and with no task, or
    with one that needs no decomposition (it may ask for analysis or for
    optimisation), and the first turn of the loop that the thread it starts
    runs: the call returns a new id, and when the
    turn is over the agent stored under it has energy 100, no parent, no
    subagents, an empty context and an empty task stack (the turn has taken
    the initial task off it), is active, its thread started.  The id is at
    the end of the registry, one more agent is counted as created and, if a
    task was given, one more task as processed; nothing is taken from the
    pool, no insight is recorded, no other object changes and the lock is
    free. *)
Theorem spawn_new_agent_registers (fuel : nat) (s : Sys.t)
    (initial_task : option string) :
  Sys.lock s = false →
  Sys.objects s !! Sys.next_uuid s = None →
  Sys.next_uuid s ∉ Sys.agents s →
  (∀ task, initial_task = Some task → needs_decomposition task = false) →
  let uid := Sys.next_uuid s in
  let given :=
    match initial_task with
    | Some task => if String.eqb task "" then 0 else 1
    | None => 0
    end in
  ∃ s' s'',
    spawn_new_agent initial_task s = Returns uid s' ∧
    run_iteration (S fuel) uid s' = Returns tt s'' ∧
    Sys.objects s'' !! uid = Some (spawned_agent uid None) ∧
    (∀ k, k ≠ uid → Sys.objects s'' !! k = Sys.objects s !! k) ∧
    Sys.agents s'' = Sys.agents s ++ [uid] ∧
    Sys.energy_budget s'' = Sys.energy_budget s ∧
    Sys.agents_created s'' = Sys.agents_created s + 1 ∧
    Sys.tasks_processed s'' = Sys.tasks_processed s + given ∧
    Sys.insights s'' = Sys.insights s ∧
    Sys.next_uuid s'' = S uid ∧
    Sys.lock s'' = false.
Proof.
  intros Hlock Hfresh Hnin Hsimple uid given.
  destruct (spawn_new_agent_fresh s initial_task Hlock Hfresh)
    as (s' & Hrun & Hnew & Hothers & Hreg & Hpool & Hcreated & Hnext & Hlock').
  destruct (spawn_new_agent_counters s s' initial_task _ Hrun) as [Htasks Hins].
  fold uid in Hrun, Hnew, Hothers, Hreg, Hnext.
  unfold dict_insert_key in Hreg. rewrite bool_decide_eq_false_2 in Hreg by done.
  exists s'.
  assert (given = 0 ∧ spawned_agent uid initial_task = spawned_agent uid None ∨
          ∃ task, given = 1 ∧ needs_decomposition task = false ∧
                  Agent.task_stack (spawned_agent uid initial_task) = [task])
    as [[-> Heq]|(task & -> & Hnd & Hstack)].
  { unfold given, spawned_agent. destruct initial_task as [task|]; [|by left].
    destruct (String.eqb task "") eqn:Ht; [by left|].
    right. exists task. by rewrite (Hsimple task eq_refl). }
  - exists s'. rewrite Heq in Hnew. split; [exact Hrun|].
    split; [by apply (run_iteration_idle _ _ _ _ Hnew)|].
    rewrite Nat.add_0_r. by repeat split.
  - eexists. split; [exact Hrun|]. split.
    { apply (run_iteration_pops (S fuel) uid _ task [] s' Hlock' Hnew eq_refl Hstack).
      intros s0 Hs0. apply process_task_spawned; [exact Hs0 | exact Hnd]. }
    cbn. rewrite lookup_insert_eq. split; [reflexivity|].
    split; [intros k Hk; rewrite lookup_insert_ne by done; by apply Hothers|].
    by rewrite Htasks.
Qed.

Lemma spawn_new_agent_registers_witness :
  ∃ s' s'',
    spawn_new_agent (Some "explore") Examples.one_agent = Returns 1 s' ∧
    run_iteration 3 1 s' = Returns tt s'' ∧
    Sys.objects s'' !! 1 = Some (spawned_agent 1 None) ∧
    (∀ k, k ≠ 1 → Sys.objects s'' !! k = Sys.objects Examples.one_agent !! k) ∧
    Sys.agents s'' = Sys.agents Examples.one_agent ++ [1] ∧
    Sys.energy_budget s'' = Sys.energy_budget Examples.one_agent ∧
    Sys.agents_created s'' = Sys.agents_created Examples.one_agent + 1 ∧
    Sys.tasks_processed s'' = Sys.tasks_processed Examples.one_agent + 1 ∧
    Sys.insights s'' = Sys.insights Examples.one_agent ∧
    Sys.next_uuid s'' = 2 ∧
    Sys.lock s'' = false.
Proof.
  apply (spawn_new_agent_registers 2 Examples.one_agent (Some "explore")).
  - reflexivity.
  - reflexivity.
  - apply (bool_decide_eq_false_1 (1 ∈ [0])). by vm_compute.
  - intros task [= <-]. by vm_compute.
Defined.

(** X5.  [scale_up], the lock free: with 100 agents or more registered it
    does nothing; with fewer it registers one new agent, at the end of the
    registry, with the task "explore", and takes nothing from the pool.
    When the first turn of the new agent's loop is over, the task is off
    its stack and counted as processed, and the agent is otherwise as it
    was spawned; no other object has changed. *)
Theorem scale_up_spawns_explorer (fuel : nat) (s : Sys.t) :
  Sys.lock s = false →
  Sys.objects s !! Sys.next_uuid s = None →
  Sys.next_uuid s ∉ Sys.agents s →
  (100 ≤ length (Sys.agents s) → scale_up s = Returns tt s) ∧
  (length (Sys.agents s) < 100 →
     ∃ s' s'',
       scale_up s = Returns tt s' ∧
       run_iteration (S fuel) (Sys.next_uuid s) s' = Returns tt s'' ∧
       Sys.agents s'' = Sys.agents s ++ [Sys.next_uuid s] ∧
       Sys.objects s'' !! Sys.next_uuid s =
         Some (spawned_agent (Sys.next_uuid s) None) ∧
       Agent.task_stack <$> Sys.objects s'' !! Sys.next_uuid s = Some [] ∧
       Sys.tasks_processed s'' = Sys.tasks_processed s + 1 ∧
       Sys.agents_created s'' = Sys.agents_created s + 1 ∧
       Sys.energy_budget s'' = Sys.energy_budget s ∧
       (∀ k, k ≠ Sys.next_uuid s → Sys.objects s'' !! k = Sys.objects s !! k)).
Proof.
  intros Hlock Hfresh Hnin. split.
  - intros Hge. unfold scale_up, bind, get_state.
    by rewrite (proj2 (Nat.ltb_ge _ _) Hge).
  - intros Hlt.
    destruct (spawn_new_agent_fresh s (Some "explore") Hlock Hfresh)
      as (s' & Hrun & Ho & Hothers & Ha & Hb & Hc & _ & Hlock').
    destruct (spawn_new_agent_counters s s' _ _ Hrun) as [Htasks _].
    unfold dict_insert_key in Ha. rewrite bool_decide_eq_false_2 in Ha by done.
    exists s'. eexists. split.
    { unfold scale_up, bind, get_state, discard, bind.
      by rewrite (proj2 (Nat.ltb_lt _ _) Hlt), Hrun. }
    split.
    { apply (run_iteration_pops (S fuel) _ _ "explore" [] s' Hlock' Ho eq_refl eq_refl).
      intros s0 Hs0. by apply process_task_spawned. }
    cbn. rewrite lookup_insert_eq, Htasks. repeat split; try done.
    intros k Hk. rewrite lookup_insert_ne by done. by apply Hothers.
Qed.

Lemma scale_up_spawns_explorer_witness :
  (100 ≤ length (Sys.agents Examples.one_agent) →
     scale_up Examples.one_agent = Returns tt Examples.one_agent) ∧
  (length (Sys.agents Examples.one_agent) < 100 →
     ∃ s' s'',
       scale_up Examples.one_agent = Returns tt s' ∧
       run_iteration 3 1 s' = Returns tt s'' ∧
       Sys.agents s'' = Sys.agents Examples.one_agent ++ [1] ∧
       Sys.objects s'' !! 1 = Some (spawned_agent 1 None) ∧
       Agent.task_stack <$> Sys.objects s'' !! 1 = Some [] ∧
       Sys.tasks_processed s'' = Sys.tasks_processed Examples.one_agent + 1 ∧
       Sys.agents_created s'' = Sys.agents_created Examples.one_agent + 1 ∧
       Sys.energy_budget s'' = Sys.energy_budget Examples.one_agent ∧
       (∀ k, k ≠ 1 → Sys.objects s'' !! k = Sys.objects Examples.one_agent !! k)).
Proof.
  apply (scale_up_spawns_explorer 2 Examples.one_agent).
  - reflexivity.
  - reflexivity.
  - apply (bool_decide_eq_false_1 (1 ∈ [0])). by vm_compute.
Defined.

(** X9.  [create_subagent], called with the lock free by an agent with
    energy above 40, for a purpose that needs no decomposition and does not
    ask for optimisation, and the first turn of the loop that the child's
    thread runs.  The call returns the new id.  When the turn is over, the
    child carries that id and has the creating agent as parent; its
    context, memory and reasoning mode are those of the parent (the context
    derived from the purpose is replaced by the inherited one); it has half
    the parent's energy, no subagents and no insights, is active, its
    thread is started, and its task stack is empty: the turn has taken the
    purpose off it and counted it as processed.  The purpose is the one
    given or, without one, "subagent_" followed by the number of entries of
    the parent's [subagents] list.  The parent keeps its context and task
    stack and lists the child twice, the child is not registered, and one
    more agent is counted as created. *)
Theorem create_subagent_child_inherits (fuel : nat) (s : Sys.t) (self : AgentId)
    (ag : Agent.t) (purpose : option string) :
  Sys.lock s = false →
  Sys.objects s !! self = Some ag →
  Sys.objects s !! Sys.next_uuid s = None →
  float_gt (Agent.energy ag) 40 = true →
  needs_decomposition (purpose_of purpose ag) = false →
  PyStr.contains "optimize" (purpose_of purpose ag) = false →
  ∃ child s' s'' cag pag,
    create_subagent self purpose s = Returns (Some child) s' ∧
    child = Sys.next_uuid s ∧
    run_iteration (S fuel) child s' = Returns tt s'' ∧
    Sys.objects s'' !! child = Some cag ∧
    Sys.objects s'' !! self = Some pag ∧
    cag = Agent.set_task_stack [] (child_of child self (purpose_of purpose ag) ag) ∧
    Agent.id cag = child ∧
    Agent.parent cag = Some self ∧
    Agent.context cag = Agent.context ag ∧
    Agent.memory cag = Agent.memory ag ∧
    Agent.reasoning_mode cag = Agent.reasoning_mode ag ∧
    Agent.energy cag = (Agent.energy ag * 0.5)%float ∧
    Agent.subagents cag = [] ∧
    Agent.insights cag = [] ∧
    Agent.active cag = true ∧
    Agent.thread cag = true ∧
    Agent.task_stack cag = [] ∧
    (purpose = None →
       purpose_of purpose ag =
         "subagent_" +:+ pretty (length (Agent.subagents ag))) ∧
    Agent.context pag = Agent.context ag ∧
    Agent.task_stack pag = Agent.task_stack ag ∧
    Agent.subagents pag = Agent.subagents ag ++ [child; child] ∧
    (∀ k, k ≠ child → k ≠ self → Sys.objects s'' !! k = Sys.objects s !! k) ∧
    Sys.agents s'' = Sys.agents s ∧
    Sys.agents_created s'' = Sys.agents_created s + 1 ∧
    Sys.tasks_processed s'' = Sys.tasks_processed s + 1.
Proof.
  intros Hlock Hag Hfresh Hgt Hnd Hopt.
  destruct (create_subagent_effect s self ag purpose Hlock Hag Hfresh Hgt)
    as (s' & Hrun & Hchild & Hparent & Hothers & Hreg & _ & Hlock' & _ & Htasks
        & Hcount & _).
  assert (Sys.next_uuid s ≠ self) as Hne by congruence.
  eexists _, s', _, _, _. split; [exact Hrun|]. split; [reflexivity|].
  split.
  { apply (run_iteration_pops (S fuel) _ _ (purpose_of purpose ag) [] s'
             Hlock' Hchild eq_refl eq_refl).
    intros s0 Hs0. by eapply process_task_direct. }
  cbn [Sys.objects Sys.set_objects Sys.set_tasks_processed Sys.agents
       Sys.agents_created Sys.tasks_processed].
  rewrite lookup_insert_eq, lookup_insert_ne, Hparent by done.
  split; [reflexivity|]. split; [reflexivity|]. split; [reflexivity|].
  cbn. rewrite Htasks. repeat split; try done.
  - by intros ->.
  - intros k Hk1 Hk2. rewrite lookup_insert_ne by done. by apply Hothers.
Qed.

Lemma create_subagent_child_inherits_witness :
  let s := after (create_subagent 0 (Some "structural")) Examples.one_agent in
  let ag := Agent.mk 0 [] [] 50%float None [1; 1] [] true true analytic [] in
  ∃ child s' s'' cag pag,
    create_subagent 0 None s = Returns (Some child) s' ∧
    child = Sys.next_uuid s ∧
    run_iteration 3 child s' = Returns tt s'' ∧
    Sys.objects s'' !! child = Some cag ∧
    Sys.objects s'' !! 0 = Some pag ∧
    cag = Agent.set_task_stack [] (child_of child 0 (purpose_of None ag) ag) ∧
    Agent.id cag = child ∧
    Agent.parent cag = Some 0 ∧
    Agent.context cag = Agent.context ag ∧
    Agent.memory cag = Agent.memory ag ∧
    Agent.reasoning_mode cag = Agent.reasoning_mode ag ∧
    Agent.energy cag = (Agent.energy ag * 0.5)%float ∧
    Agent.subagents cag = [] ∧
    Agent.insights cag = [] ∧
    Agent.active cag = true ∧
    Agent.thread cag = true ∧
    Agent.task_stack cag = [] ∧
    (@None string = None →
       purpose_of None ag =
         "subagent_" +:+ pretty (length (Agent.subagents ag))) ∧
    Agent.context pag = Agent.context ag ∧
    Agent.task_stack pag = Agent.task_stack ag ∧
    Agent.subagents pag = Agent.subagents ag ++ [child; child] ∧
    (∀ k, k ≠ child → k ≠ 0 → Sys.objects s'' !! k = Sys.objects s !! k) ∧
    Sys.agents s'' = Sys.agents s ∧
    Sys.agents_created s'' = Sys.agents_created s + 1 ∧
    Sys.tasks_processed s'' = Sys.tasks_processed s + 1.
Proof.
  intros s ag.
  apply (create_subagent_child_inherits 2 s 0 ag None); reflexivity.
Defined.

(** The purposes for which [process_task] creates subagents, the
    components of [decompose_problem], are of this kind. *)
Example components_are_direct :
  Forall (fun comp => needs_decomposition comp = false ∧
                      PyStr.contains "optimize" comp = false)
         (decompose_problem "multi-aspect recursive").
Proof. repeat constructor. Qed.

(** [consolidate_subagents] on an agent that lists one child, twice. *)
Lemma consolidate_own_child (s : Sys.t) (self child : AgentId) (pag cag : Agent.t) :
  Sys.lock s = false →
  Sys.objects s !! self = Some pag →
  Sys.objects s !! child = Some cag →
  child ≠ self →
  Agent.subagents pag = [child; child] →
  ∃ s', consolidate_subagents self s = Returns tt s' ∧
    Sys.objects s' !! self =
      Some (Agent.set_subagents []
              (Agent.set_energy (Agent.energy pag + Agent.energy cag + 0)%float
                 (Agent.set_context
                    (Agent.context pag ++ Agent.context cag ++ Agent.context cag)
                    pag))) ∧
    Sys.objects s' !! child = Some (Agent.set_active false (Agent.set_energy 0 cag)) ∧
    (∀ k, k ≠ self → k ≠ child → Sys.objects s' !! k = Sys.objects s !! k) ∧
    Sys.agents s' = Sys.agents s ∧
    Sys.energy_budget s' = Sys.energy_budget s ∧
    Sys.tasks_processed s' = Sys.tasks_processed s ∧
    Sys.lock s' = false.
Proof.
  intros Hlock Hself Hchild Hne Hsubs.
  unfold consolidate_subagents, with_lock. rewrite Hlock.
  unfold bind at 1. unfold bind at 1. unfold get_agent at 1.
  cbn [Sys.objects Sys.set_lock]. rewrite Hself, Hsubs.
  cbn [for_each]. run_m.
  eexists. split; [reflexivity|]. cbn.
  rewrite lookup_insert_eq.
  rewrite (lookup_insert_ne _ self child) by done. rewrite lookup_insert_eq.
  split; [by rewrite <- app_assoc|]. split; [by destruct cag|].
  split; [|done].
  intros k Hks Hkc. by rewrite !lookup_insert_ne by done.
Qed.

(** X15.  Creating a subagent, for a purpose that needs no decomposition
    and does not ask for optimisation, and consolidating, from an agent
    without subagents and with energy above 40: the agent has no subagents
    again and gets its energy back as (energy - half) + half + 0, but its
    context is now three copies of the old one, since the child inherited
    the context and is listed twice.  The child stays in the store,
    unregistered, drained and inactive; the registry and the pool are as
    before.  This is so whether the first turn of the child's loop comes
    before the consolidation, in which case the child's task is off its
    stack and counted as processed, or after it, in which case the turn
    does nothing, the child being inactive, and the task stays on the
    stack. *)
Theorem create_then_consolidate (fuel : nat) (s : Sys.t) (self : AgentId)
    (ag : Agent.t) (purpose : option string) :
  Sys.lock s = false →
  Sys.objects s !! self = Some ag →
  Sys.objects s !! Sys.next_uuid s = None →
  float_gt (Agent.energy ag) 40 = true →
  Agent.subagents ag = [] →
  needs_decomposition (purpose_of purpose ag) = false →
  PyStr.contains "optimize" (purpose_of purpose ag) = false →
  let child := Sys.next_uuid s in
  let half := (Agent.energy ag * 0.5)%float in
  let parent_then :=
    Agent.set_energy (Agent.energy ag - half + half + 0)%float
      (Agent.set_context
         (Agent.context ag ++ Agent.context ag ++ Agent.context ag) ag) in
  let child_then :=
    Agent.set_active false
      (Agent.set_energy 0 (child_of child self (purpose_of purpose ag) ag)) in
  ∃ s1 s2 s3 s2',
    create_subagent self purpose s = Returns (Some child) s1 ∧
    (run_iteration (S fuel) child s1 = Returns tt s2 ∧
     consolidate_subagents self s2 = Returns tt s3 ∧
     Sys.objects s3 !! self = Some parent_then ∧
     Sys.objects s3 !! child = Some (Agent.set_task_stack [] child_then) ∧
     (∀ k, k ≠ self → k ≠ child → Sys.objects s3 !! k = Sys.objects s !! k) ∧
     Sys.agents s3 = Sys.agents s ∧
     Sys.energy_budget s3 = Sys.energy_budget s ∧
     Sys.tasks_processed s3 = Sys.tasks_processed s + 1 ∧
     Sys.lock s3 = false) ∧
    (consolidate_subagents self s1 = Returns tt s2' ∧
     run_iteration (S fuel) child s2' = Returns tt s2' ∧
     Sys.objects s2' !! self = Some parent_then ∧
     Sys.objects s2' !! child = Some child_then ∧
     (∀ k, k ≠ self → k ≠ child → Sys.objects s2' !! k = Sys.objects s !! k) ∧
     Sys.agents s2' = Sys.agents s ∧
     Sys.energy_budget s2' = Sys.energy_budget s ∧
     Sys.tasks_processed s2' = Sys.tasks_processed s ∧
     Sys.lock s2' = false).
Proof.
  intros Hlock Hag Hfresh Hgt Hsub Hnd Hopt child half parent_then child_then.
  destruct (create_subagent_effect s self ag purpose Hlock Hag Hfresh Hgt)
    as (s1 & Hrun & Hchild & Hparent & Hothers & Hreg & Hpool & Hlock1 & _
        & Htasks & _).
  fold child in Hrun, Hchild, Hparent, Hothers.
  assert (child ≠ self) as Hne by (unfold child; congruence).
  assert (Agent.subagents (parent_after child ag) = [child; child]) as Hsubs.
  { unfold parent_after. cbn. by rewrite Hsub. }
  assert (∀ cag,
    Agent.context cag = Agent.context ag →
    Agent.energy cag = half →
    Agent.set_subagents []
      (Agent.set_energy (Agent.energy (parent_after child ag) + Agent.energy cag + 0)%float
         (Agent.set_context
            (Agent.context (parent_after child ag) ++ Agent.context cag ++
             Agent.context cag) (parent_after child ag))) = parent_then) as Hthen.
  { intros cag Hc He. unfold parent_then, parent_after. rewrite Hc, He.
    destruct ag. cbn in Hsub |- *. by subst. }
  pose proof (run_iteration_pops (S fuel) child _ (purpose_of purpose ag) [] s1
                Hlock1 Hchild eq_refl eq_refl) as Hturn.
  match type of Hturn with _ → _ = Returns tt ?x => set (s2 := x) in * end.
  specialize (Hturn (λ s0 Hs0, process_task_direct fuel child _ _ s0 Hs0 Hnd Hopt)).
  destruct (consolidate_own_child s2 self child (parent_after child ag)
              (Agent.set_task_stack [] (child_of child self (purpose_of purpose ag) ag)))
    as (s3 & Hcons & Hp3 & Hc3 & Ho3 & Hreg3 & Hpool3 & Htasks3 & Hlock3);
    [done | by (cbn; rewrite lookup_insert_ne, Hparent by done)
     | by (cbn; rewrite lookup_insert_eq) | done | done |].
  destruct (consolidate_own_child s1 self child (parent_after child ag)
              (child_of child self (purpose_of purpose ag) ag))
    as (s2' & Hcons' & Hp2 & Hc2 & Ho2 & Hreg2 & Hpool2 & Htasks2 & Hlock2);
    [done..|].
  rewrite Hthen in Hp3, Hp2 by done.
  exists s1, s2, s3, s2'. split; [exact Hrun|]. split.
  - split; [exact Hturn|]. split; [exact Hcons|]. split; [exact Hp3|].
    split; [exact Hc3|]. split.
    { intros k Hks Hkc. rewrite Ho3 by done. cbn.
      rewrite lookup_insert_ne by done. by apply Hothers. }
    rewrite Hreg3, Hpool3, Htasks3. cbn. by rewrite Hreg, Hpool, Htasks.
  - split; [exact Hcons'|]. split.
    { by apply (run_iteration_inactive _ _ _ _ Hc2). }
    split; [exact Hp2|]. split; [exact Hc2|]. split.
    { intros k Hks Hkc. rewrite Ho2 by done. by apply Hothers. }
    by rewrite Hreg2, Hpool2, Htasks2, Hreg, Hpool, Htasks.
Qed.

Lemma create_then_consolidate_witness :
  let s := Examples.one_agent in
  let ag := spawned_agent 0 None in
  let parent_then :=
    Agent.set_energy (100 - 100 * 0.5 + 100 * 0.5 + 0)%float
      (Agent.set_context
         (Agent.context ag ++ Agent.context ag ++ Agent.context ag) ag) in
  let child_then :=
    Agent.set_active false
      (Agent.set_energy 0 (child_of 1 0 (purpose_of (Some "structural") ag) ag)) in
  ∃ s1 s2 s3 s2',
    create_subagent 0 (Some "structural") s = Returns (Some 1) s1 ∧
    (run_iteration 3 1 s1 = Returns tt s2 ∧
     consolidate_subagents 0 s2 = Returns tt s3 ∧
     Sys.objects s3 !! 0 = Some parent_then ∧
     Sys.objects s3 !! 1 = Some (Agent.set_task_stack [] child_then) ∧
     (∀ k, k ≠ 0 → k ≠ 1 → Sys.objects s3 !! k = Sys.objects s !! k) ∧
     Sys.agents s3 = Sys.agents s ∧
     Sys.energy_budget s3 = Sys.energy_budget s ∧
     Sys.tasks_processed s3 = Sys.tasks_processed s + 1 ∧
     Sys.lock s3 = false) ∧
    (consolidate_subagents 0 s1 = Returns tt s2' ∧
     run_iteration 3 1 s2' = Returns tt s2' ∧
     Sys.objects s2' !! 0 = Some parent_then ∧
     Sys.objects s2' !! 1 = Some child_then ∧
     (∀ k, k ≠ 0 → k ≠ 1 → Sys.objects s2' !! k = Sys.objects s !! k) ∧
     Sys.agents s2' = Sys.agents s ∧
     Sys.energy_budget s2' = Sys.energy_budget s ∧
     Sys.tasks_processed s2' = Sys.tasks_processed s ∧
     Sys.lock s2' = false).
Proof.
  intros s ag.
  apply (create_then_consolidate 2 s 0 ag (Some "structural")); reflexivity.
Defined.

(** * Duplicates in the context *)

(** A list with a duplicate holds some entry at two places. *)
Lemma not_NoDup_indices (l : list string) :
  ¬ NoDup l → ∃ i j x, i ≠ j ∧ l !! i = Some x ∧ l !! j = Some x.
Proof.
  induction l as [|a l IH]; intros Hn.
  - destruct Hn. constructor.
  - destruct (decide (a ∈ l)) as [Hin|Hnin].
    + apply list_elem_of_lookup in Hin as [j Hj].
      by exists 0, (S j), a.
    + destruct IH as (i & j & x & Hne & Hi & Hj).
      { intros Hnd. apply Hn. by constructor. }
      exists (S i), (S j), x. split; [congruence | done].
Qed.

(** C9.  The method [check_for_loops] returns true exactly when the
    agent's context has a duplicate entry, and changes nothing.  On a
    context that is already deduplicated (the result of
    [list(set(context))]) two successive checks both return false and
    leave the system as it was.  Deduplication keeps exactly the entries
    of the context, once each; on ["a"; "a"; "b"] it gives a permutation of
    ["a"; "b"].  [strategic_evolution] deduplicates in this way the context
    in which the check has found a duplicate, and the check on the agent
    is false afterwards. *)
Theorem check_for_loops_duplicates :
  (∀ ctx, check_for_loops_ctx ctx = true ↔ ¬ NoDup ctx) ∧
  (∀ ctx,
     let deduplicated := list_of_set (py_set ctx) in
     check_for_loops_ctx deduplicated = false ∧
     ∀ s self ag,
       Sys.objects s !! self = Some ag →
       Agent.context ag = deduplicated →
       (do first <- check_for_loops self;
        do second <- check_for_loops self;
        ret (first, second)) s = Returns (false, false) s) ∧
  (∀ ctx, let deduplicated := list_of_set (py_set ctx) in
     NoDup deduplicated ∧ ∀ x, x ∈ deduplicated ↔ x ∈ ctx) ∧
  list_of_set (py_set ["a"; "a"; "b"]) ≡ₚ ["a"; "b"] ∧
  (∀ s self ag,
     Sys.objects s !! self = Some ag →
     ∃ b, check_for_loops self s = Returns b s ∧
          (b = true ↔ ¬ NoDup (Agent.context ag)) ∧
          (b = true ↔
           ∃ i j x, i ≠ j ∧ Agent.context ag !! i = Some x ∧
                    Agent.context ag !! j = Some x)) ∧
  (∀ s self ag,
     Sys.lock s = false →
     Sys.objects s !! self = Some ag →
     float_lt (Agent.energy ag) 10 = false →
     Agent.subagents ag = [] →
     length (Agent.context ag) ≤ 10 →
     ¬ NoDup (Agent.context ag) →
     ∃ s' ag',
       check_for_loops self s = Returns true s ∧
       strategic_evolution self s = Returns tt s' ∧
       Sys.objects s' !! self = Some ag' ∧
       Agent.context ag' = list_of_set (py_set (Agent.context ag)) ∧
       check_for_loops self s' = Returns false s').
Proof.
  assert (∀ ctx, check_for_loops_ctx (list_of_set (py_set ctx)) = false) as Hdedup.
  { intros ctx. apply not_true_is_false. rewrite check_for_loops_ctx_spec.
    intros Hn. apply Hn. apply NoDup_elements. }
  assert (∀ s self ag, Sys.objects s !! self = Some ag →
            check_for_loops self s =
              Returns (check_for_loops_ctx (Agent.context ag)) s) as Hmethod.
  { intros s self ag Hag. unfold check_for_loops, bind, get_agent, ret.
    by rewrite Hag. }
  split; [apply check_for_loops_ctx_spec|].
  split; [|split; [|split; [|split]]].
  - intros ctx deduplicated. split; [apply Hdedup|].
    intros s self ag Hag Hctx. unfold check_for_loops, bind, get_agent, ret.
    rewrite Hag. cbn. rewrite Hag. cbn. rewrite Hctx. unfold deduplicated.
    by rewrite Hdedup.
  - intros ctx deduplicated. split; [apply NoDup_elements|].
    intros x. unfold deduplicated, list_of_set, py_set.
    by rewrite elem_of_elements, elem_of_list_to_set.
  - by vm_compute.
  - intros s self ag Hag. exists (check_for_loops_ctx (Agent.context ag)).
    split; [by apply Hmethod|]. split; [apply check_for_loops_ctx_spec|].
    rewrite check_for_loops_ctx_spec. split; [apply not_NoDup_indices|].
    intros (i & j & x & Hne & Hi & Hj) Hnd. apply Hne.
    by eapply (proj1 (NoDup_alt _) Hnd).
  - intros s self ag Hlock Hag Hlow Hsub Hlen Hdup.
    apply check_for_loops_ctx_spec in Hdup.
    destruct (strategic_evolution_effect s self ag Hlock Hag Hlow Hsub)
      as (s' & Hrun & Hself & _).
    assert (evolved_context (Agent.context ag) =
            list_of_set (py_set (Agent.context ag))) as Hev.
    { unfold evolved_context. rewrite Hdup.
      by rewrite (proj2 (Nat.ltb_ge _ _) Hlen). }
    rewrite Hev in Hself.
    eexists s', _. split; [by rewrite (Hmethod s self ag Hag), Hdup|].
    split; [exact Hrun|]. split; [exact Hself|]. split; [done|].
    rewrite (Hmethod s' self _ Hself). cbn. by rewrite Hdedup.
Qed.

(** * The writes of energy *)

Lemma ids_issued_fresh s : ids_issued s → Sys.objects s !! Sys.next_uuid s = None.
Proof.
  intros Hids. destruct (Sys.objects s !! Sys.next_uuid s) eqn:Hn; [|done].
  assert (Sys.next_uuid s < Sys.next_uuid s); [|lia]. apply Hids. eauto.
Qed.

Lemma ids_issued_insert s a ag x :
  Sys.objects s !! a = Some ag → ids_issued s →
  ids_issued (Sys.set_objects (<[a := x]> (Sys.objects s)) s).
Proof.
  intros Ha Hids k. cbn. destruct (decide (k = a)) as [->|Hne].
  - intros _. apply Hids. by exists ag.
  - rewrite lookup_insert_ne by done. apply Hids.
Qed.

Lemma energies_insert s a x :
  energies (Sys.set_objects (<[a := x]> (Sys.objects s)) s) =
  <[a := Agent.energy x]> (energies s).
Proof. unfold energies. cbn. by rewrite fmap_insert. Qed.

Lemma energies_lookup_None s a :
  Sys.objects s !! a = None → energies s !! a = None.
Proof. intros Ha. unfold energies. by rewrite lookup_fmap, Ha. Qed.

(** The energies of a store that agrees with another outside two keys. *)
Lemma energies_two s s' a b x y :
  Sys.objects s' !! a = Some x → Sys.objects s' !! b = Some y →
  (∀ k, k ≠ a → k ≠ b → Sys.objects s' !! k = Sys.objects s !! k) →
  energies s' = <[a := Agent.energy x]> (<[b := Agent.energy y]> (energies s)).
Proof.
  intros Ha Hb Hk. apply map_eq. intros k. unfold energies.
  destruct (decide (k = a)) as [->|Hka].
  { by rewrite lookup_insert_eq, lookup_fmap, Ha. }
  rewrite lookup_insert_ne by done. destruct (decide (k = b)) as [->|Hkb].
  { by rewrite lookup_insert_eq, lookup_fmap, Hb. }
  rewrite lookup_insert_ne by done. by rewrite !lookup_fmap, Hk.
Qed.

Lemma energies_one s s' a x :
  Sys.objects s' !! a = Some x →
  (∀ k, k ≠ a → Sys.objects s' !! k = Sys.objects s !! k) →
  energies s' = <[a := Agent.energy x]> (energies s).
Proof.
  intros Ha Hk. apply map_eq. intros k. unfold energies.
  destruct (decide (k = a)) as [->|Hka].
  { by rewrite lookup_insert_eq, lookup_fmap, Ha. }
  rewrite lookup_insert_ne by done. by rewrite !lookup_fmap, Hk.
Qed.

Lemma for_each_update_agent_missing (f : Agent.t → Agent.t) (keys : list AgentId)
    (s : Sys.t) :
  (∃ k, k ∈ keys ∧ Sys.objects s !! k = None) →
  for_each keys (fun k => update_agent k f) s = Undefined.
Proof.
  revert s. induction keys as [|k keys IH]; intros s (k' & Hin & Hnone).
  { by apply elem_of_nil in Hin. }
  cbn [for_each]. unfold bind at 1. unfold update_agent, bind, get_agent, modify.
  destruct (Sys.objects s !! k) as [ag|] eqn:Hk; [|done].
  apply IH. exists k'. apply elem_of_cons in Hin as [->|Hin]; [congruence|].
  split; [done|]. cbn. rewrite lookup_insert_ne; [done|]. congruence.
Qed.

Lemma energies_update_all (g : float → float) (f : Agent.t → Agent.t)
    (keys : list AgentId) (objects : gmap AgentId Agent.t) :
  (∀ x, Agent.energy (f x) = g (Agent.energy x)) →
  Agent.energy <$> update_all f keys objects =
  foldl (fun m k => alter g k m) (Agent.energy <$> objects) keys.
Proof.
  intros Hfg. unfold update_all. revert objects.
  induction keys as [|k keys IH]; intros objects; cbn [foldl]; [done|].
  rewrite IH. f_equal. apply fmap_alter. intros. apply Hfg.
Qed.

Lemma update_all_is_Some (f : Agent.t → Agent.t) (keys : list AgentId)
    (m : gmap AgentId Agent.t) (k : AgentId) :
  is_Some (update_all f keys m !! k) → is_Some (m !! k).
Proof.
  unfold update_all. revert m.
  induction keys as [|k0 keys IH]; intros m; cbn [foldl]; [done|].
  intros Hk. apply IH in Hk. destruct (decide (k = k0)) as [->|Hne].
  - rewrite lookup_alter_eq in Hk. by apply fmap_is_Some in Hk.
  - by rewrite lookup_alter_ne in Hk.
Qed.

(** Steps that write no energy leave the pool and every energy as they
    were. *)
Lemma nothing_written_rtc (K : kind → bool) (s s' : Sys.t) :
  (∀ k, K k = false) →
  rtc (write_among K) s s' →
  Sys.energy_budget s' = Sys.energy_budget s ∧ energies s' = energies s.
Proof.
  intros HK. induction 1 as [s|s1 s2 s3 (k & Hk & Hw) _ [IHb IHe]]; [done|].
  destruct Hw; cbn in Hk; rewrite ?HK in Hk; try discriminate.
  split; congruence.
Qed.

(** ** The methods, by the kinds of write they can make

    In this section [K] is the set of kinds that are allowed; a method
    that makes a write of some kind asks for that kind to be in [K]. *)

Section Writes.
Variable K : kind → bool.

Lemma energy_writes_refl s : energy_writes K s s.
Proof. by intros Hids. Qed.

Lemma energy_writes_trans s1 s2 s3 :
  energy_writes K s1 s2 → energy_writes K s2 s3 → energy_writes K s1 s3.
Proof.
  intros H12 H23 Hids. destruct (H12 Hids) as [Hids2 Hp]. destruct (H23 Hids2) as [Hids3 Hq].
  split; [done|]. by etrans.
Qed.

(** One write of an allowed kind. *)
Lemma energy_writes_once k s s' :
  from_option K true k = true →
  (ids_issued s → ids_issued s') →
  energy_write s s' k →
  energy_writes K s s'.
Proof.
  intros Hk Hi Hw Hids. split; [by apply Hi|]. apply rtc_once. by exists k.
Qed.

(** A step that writes no energy and issues no id. *)
Lemma energy_writes_none s s' :
  Sys.energy_budget s' = Sys.energy_budget s →
  energies s' = energies s →
  (ids_issued s → ids_issued s') →
  energy_writes K s s'.
Proof.
  intros Hb He Hi. apply (energy_writes_once None); [done | done |].
  by apply nothing_written.
Qed.

Lemma energy_writes_lock s s' :
  Sys.lock s = false → energy_writes K (Sys.set_lock true s) s' →
  energy_writes K s (Sys.set_lock false s').
Proof.
  intros _ H. eapply energy_writes_trans; [|eapply energy_writes_trans; [exact H|]].
  - by apply energy_writes_none.
  - by apply energy_writes_none.
Qed.

Lemma energy_writes_locked s s' :
  Sys.lock s = false → energy_writes K (Sys.set_lock true s) s' →
  energy_writes K s s'.
Proof.
  intros _ H. eapply energy_writes_trans; [|exact H]. by apply energy_writes_none.
Qed.

(** Replacing an object by one of the same energy. *)
Lemma energy_writes_insert s a ag x :
  Sys.objects s !! a = Some ag → Agent.energy x = Agent.energy ag →
  energy_writes K s (Sys.set_objects (<[a := x]> (Sys.objects s)) s).
Proof.
  intros Ha He. apply energy_writes_none; [done | | by eapply ids_issued_insert].
  rewrite energies_insert. apply insert_id. unfold energies. by rewrite lookup_fmap, Ha, He.
Qed.

Create HintDb energy_writes.

Ltac writes_step :=
  first
    [ solve [auto 2 with energy_writes nocore]
    | apply follows_ret; [apply energy_writes_refl]
    | apply follows_raise; [apply energy_writes_refl]
    | apply follows_undefined
    | apply follows_get_state; [apply energy_writes_refl]
    | apply follows_get_agent; [apply energy_writes_refl]
    | apply follows_update_agent; intros;
        eapply energy_writes_insert; [eassumption | reflexivity]
    | apply follows_modify; intros; by apply energy_writes_none
    | apply follows_with_lock;
        [apply energy_writes_refl | apply energy_writes_lock
        | apply energy_writes_locked |]
    | apply follows_for_each;
        [apply energy_writes_refl | apply energy_writes_trans
        | apply energy_writes_trans | intros]
    | apply follows_bind;
        [apply energy_writes_trans | apply energy_writes_trans | | intros]
    | apply follows_try_except;
        [apply energy_writes_trans | apply energy_writes_trans | | intros]
    | assumption ].

Ltac writes :=
  repeat first
    [ writes_step
    | match goal with
      | |- follows _ _ (if ?b then _ else _) => destruct b
      | |- follows _ _ (match ?x with _ => _ end) => destruct x
      | |- follows _ _ (let (_, _) := ?x in _) => destruct x
      end ].

Abbreviation writes_only := (follows (energy_writes K) (energy_writes K)).

(** *** Methods that write no energy *)

Lemma writes_discard {A} (m : M A) : writes_only m → writes_only (discard m).
Proof. intros Hm. unfold discard. writes. Qed.

Lemma writes_inherit_knowledge self parent :
  writes_only (inherit_knowledge self parent).
Proof. unfold inherit_knowledge. writes. Qed.

Lemma writes_reason_about_self self : writes_only (reason_about_self self).
Proof.
  unfold reason_about_self, assess_capabilities, detect_limitations, check_for_loops.
  writes.
Qed.
#[local] Hint Resolve writes_reason_about_self : energy_writes.

Lemma writes_getitem k v : writes_only (getitem k v).
Proof. unfold getitem. writes. Qed.
#[local] Hint Resolve writes_getitem : energy_writes.

Lemma writes_all_axioms agent : writes_only (all_axioms agent).
Proof.
  unfold all_axioms, initialize_axioms, getattr_check. cbn [map py_all snd].
  writes.
Qed.
#[local] Hint Resolve writes_all_axioms : energy_writes.

Lemma writes_system_health_check : writes_only system_health_check.
Proof.
  unfold system_health_check.
  apply follows_with_lock;
    [apply energy_writes_refl | apply energy_writes_lock | apply energy_writes_locked |].
  apply follows_bind;
    [apply energy_writes_trans | apply energy_writes_trans | writes | intros s0].
  apply follows_bind;
    [apply energy_writes_trans | apply energy_writes_trans | | intros; writes].
  apply follows_py_all;
    [apply energy_writes_refl | apply energy_writes_trans | apply energy_writes_trans |].
  apply Forall_forall. intros t (a & -> & _)%list_elem_of_fmap. apply writes_all_axioms.
Qed.
#[local] Hint Resolve writes_system_health_check : energy_writes.

(** A task that needs no decomposition and does not ask for optimisation
    is processed without a write; the scheduler's task is one. *)
Lemma writes_process_task_direct fuel self task :
  needs_decomposition task = false →
  PyStr.contains "optimize" task = false →
  writes_only (process_task fuel self task).
Proof.
  intros Hnd Hopt s. destruct fuel as [|fuel]; [done|].
  destruct (Sys.objects s !! self) as [ag|] eqn:Hag.
  - destruct (process_task_direct fuel self ag task s Hag Hnd Hopt) as [r ->].
    apply energy_writes_refl.
  - cbn [process_task].
    unfold try_except, process_task_body, execute_core_reasoning.
    rewrite Hnd, Hopt.
    destruct (PyStr.contains "analyze" task).
    + unfold bind at 1. unfold reason_about_self, bind at 1.
      unfold assess_capabilities, bind at 1, get_agent at 1. by rewrite Hag.
    + unfold bind, get_agent. by rewrite Hag.
Qed.

Lemma writes_distribute_tasks fuel :
  writes_only (do s <- get_state; run_submitted fuel (distribute_tasks s)).
Proof.
  apply follows_bind;
    [apply energy_writes_trans | apply energy_writes_trans | writes | intros s0].
  unfold run_submitted.
  apply follows_for_each_in;
    [apply energy_writes_refl | apply energy_writes_trans | apply energy_writes_trans |].
  intros job (Htask & _)%distribute_tasks_job.
  apply writes_discard. unfold process_agent_task.
  apply follows_bind;
    [apply energy_writes_trans | apply energy_writes_trans | writes | intros s1].
  destruct (bool_decide _); [|writes].
  rewrite Htask. by apply writes_process_task_direct.
Qed.

(** *** Failure handling *)

Lemma writes_learn_from_failure self e :
  K failure_handling = true → writes_only (learn_from_failure self e).
Proof.
  intros HK. unfold learn_from_failure.
  apply follows_bind;
    [apply energy_writes_trans | apply energy_writes_trans | writes | intros a].
  apply follows_bind;
    [apply energy_writes_trans | apply energy_writes_trans | writes | intros _].
  apply follows_bind;
    [apply energy_writes_trans | apply energy_writes_trans | writes | intros _].
  apply follows_bind;
    [apply energy_writes_trans | apply energy_writes_trans | writes | intros _].
  apply follows_update_agent. intros s ag Hag.
  apply (energy_writes_once (Some failure_handling));
    [exact HK | by eapply ids_issued_insert |].
  apply (failure_handled _ _ self (Agent.energy ag)); [by apply energies_lookup | done |].
  by rewrite energies_insert.
Qed.
#[local] Hint Resolve writes_learn_from_failure : energy_writes.

(** *** Child creation *)

(** The constructor, called with a parent that is in the store. *)
Lemma writes_init_child parent initial_context :
  K child_creation = true →
  writes_only (do _ <- discard (get_agent parent);
               discard (MetaAgent_init (Some parent) initial_context)).
Proof.
  intros HK s.
  destruct (Sys.objects s !! parent) as [ag|] eqn:Hp.
  2:{ unfold discard, bind, get_agent. by rewrite Hp. }
  assert (ids_issued s →
          ∃ s', (do _ <- discard (get_agent parent);
                 discard (MetaAgent_init (Some parent) initial_context)) s
                = Returns tt s' ∧ energy_writes K s s') as Heff.
  { intros Hids. pose proof (ids_issued_fresh s Hids) as Hfresh.
    assert (Sys.next_uuid s ≠ parent) as Hne by congruence.
    unfold MetaAgent_init, inherit_knowledge. run_m.
    eexists. split; [reflexivity|].
    apply (energy_writes_once (Some child_creation)); [exact HK | |].
    { intros _ k. cbn. rewrite !lookup_insert_is_Some'. intros Hk.
      assert (parent < Sys.next_uuid s) by (apply Hids; eauto).
      repeat (destruct Hk as [->|Hk]; [lia|]). pose proof (Hids k Hk). lia. }
    apply (child_created _ _ parent (Sys.next_uuid s) (Agent.energy ag));
      [by apply energies_lookup | by apply energies_lookup_None | done |].
    unfold energies. cbn. rewrite !fmap_insert. cbn.
    apply map_eq. intros k.
    destruct (decide (k = Sys.next_uuid s)) as [->|?]; [by simplify_map_eq|].
    destruct (decide (k = parent)) as [->|?]; by simplify_map_eq. }
  match goal with |- match ?m s with _ => _ end => destruct (m s) as [v s1|e s1|s1|] eqn:Hrun end;
    [| | |done].
  all: intros Hids; destruct (Heff Hids) as (s' & Heq & Hs'); try discriminate.
  injection Heq as _ <-. by apply Hs'.
Qed.

Lemma writes_create_subagent self purpose :
  K child_creation = true → writes_only (create_subagent self purpose).
Proof.
  intros HK s. destruct (Sys.lock s) eqn:Hl.
  { unfold create_subagent, with_lock. rewrite Hl. apply energy_writes_refl. }
  destruct (Sys.objects s !! self) as [ag|] eqn:Hself.
  2:{ unfold create_subagent, with_lock, bind, get_agent. rewrite Hl. cbn.
      by rewrite Hself. }
  destruct (float_gt (Agent.energy ag) 40) eqn:Hgt.
  2:{ rewrite (create_subagent_refused s self ag purpose Hl Hself Hgt).
      apply energy_writes_refl. }
  assert (ids_issued s →
          ∃ s', create_subagent self purpose s = Returns (Some (Sys.next_uuid s)) s' ∧
                energy_writes K s s') as Heff.
  { intros Hids. pose proof (ids_issued_fresh s Hids) as Hfresh.
    destruct (create_subagent_effect s self ag purpose Hl Hself Hfresh Hgt)
      as (s' & Hrun & Hchild & Hparent & Hothers & _ & Hb & _ & _ & _ & _ & Hn).
    exists s'. split; [done|].
    apply (energy_writes_once (Some child_creation)); [exact HK | |].
    { intros _ k Hk. rewrite Hn.
      destruct (decide (k = Sys.next_uuid s)) as [->|Hk1]; [lia|].
      destruct (decide (k = self)) as [->|Hk2].
      - assert (self < Sys.next_uuid s); [|lia]. apply Hids. eauto.
      - rewrite Hothers in Hk by done. pose proof (Hids k Hk). lia. }
    apply (child_created _ _ self (Sys.next_uuid s) (Agent.energy ag));
      [by apply energies_lookup | by apply energies_lookup_None | done |].
    by rewrite (energies_two s s' _ _ _ _ Hchild Hparent Hothers). }
  destruct (create_subagent self purpose s) as [v s1|e s1|s1|] eqn:Hrun; [| | |done].
  all: intros Hids; destruct (Heff Hids) as (s' & Heq & Hs'); try discriminate.
  injection Heq as _ <-. by apply Hs'.
Qed.
#[local] Hint Resolve writes_create_subagent : energy_writes.

(** *** Top-level creation *)

(** The constructor, called without a parent. *)
Lemma writes_init_top initial_context :
  K top_level_creation = true →
  writes_only (do _ <- ret tt; discard (MetaAgent_init None initial_context)).
Proof.
  intros HK s. unfold MetaAgent_init. run_m.
  intros Hids.
  apply (energy_writes_once (Some top_level_creation)); [exact HK | | | exact Hids].
  { intros _ k. cbn. rewrite lookup_insert_is_Some'. intros [->|Hk]; [lia|].
    pose proof (Hids k Hk). lia. }
  apply (agent_spawned _ _ (Sys.next_uuid s));
    [by apply energies_lookup_None, ids_issued_fresh | done |].
  unfold energies. cbn. by rewrite fmap_insert.
Qed.

Lemma writes_spawn_new_agent initial_task :
  K top_level_creation = true → writes_only (spawn_new_agent initial_task).
Proof.
  intros HK s. destruct (Sys.lock s) eqn:Hl.
  { unfold spawn_new_agent, with_lock. rewrite Hl. apply energy_writes_refl. }
  assert (ids_issued s →
          ∃ s', spawn_new_agent initial_task s = Returns (Sys.next_uuid s) s' ∧
                energy_writes K s s') as Heff.
  { intros Hids. pose proof (ids_issued_fresh s Hids) as Hfresh.
    destruct (spawn_new_agent_fresh s initial_task Hl Hfresh)
      as (s' & Hrun & Hnew & Hothers & _ & Hb & _ & Hn & _).
    exists s'. split; [done|].
    apply (energy_writes_once (Some top_level_creation)); [exact HK | |].
    { intros _ k Hk. rewrite Hn.
      destruct (decide (k = Sys.next_uuid s)) as [->|Hk1]; [lia|].
      rewrite Hothers in Hk by done. pose proof (Hids k Hk). lia. }
    apply (agent_spawned _ _ (Sys.next_uuid s));
      [by apply energies_lookup_None | done |].
    rewrite (energies_one s s' _ _ Hnew Hothers). by destruct initial_task. }
  destruct (spawn_new_agent initial_task s) as [v s1|e s1|s1|] eqn:Hrun; [| | |done].
  all: intros Hids; destruct (Heff Hids) as (s' & Heq & Hs'); try discriminate.
  injection Heq as _ <-. by apply Hs'.
Qed.
#[local] Hint Resolve writes_spawn_new_agent : energy_writes.

Lemma writes_scale_up : K top_level_creation = true → writes_only scale_up.
Proof. intros HK. unfold scale_up, discard. writes. Qed.
#[local] Hint Resolve writes_scale_up : energy_writes.

(** *** Termination *)

Lemma writes_terminate_agent fuel agent_id :
  K termination = true → writes_only (terminate_agent fuel agent_id).
Proof.
  intros HK.
  revert agent_id. induction fuel as [|fuel IH]; intros agent_id s;
    cbn [terminate_agent]; [done|].
  unfold with_lock. destruct (Sys.lock s) eqn:Hlock; [apply energy_writes_refl|].
  unfold bind at 1. unfold get_state at 1. sys_simpl.
  destruct (bool_decide (agent_id ∈ Sys.agents s)) eqn:Hin.
  2:{ unfold ret. by apply energy_writes_none. }
  apply bool_decide_eq_true in Hin.
  unfold bind at 1. unfold update_agent, bind at 1, get_agent at 1. sys_simpl.
  destruct (Sys.objects s !! agent_id) as [ag|] eqn:Hag; [|done].
  unfold modify at 1. unfold bind at 1. unfold get_agent at 1. sys_simpl.
  rewrite lookup_insert_eq. unfold bind at 1. unfold modify at 1. sys_simpl.
  match goal with
  | |- match (match ?rest ?st with _ => _ end) with _ => _ end =>
      assert (energy_writes K s st) as Hfirst;
      [|assert (writes_only rest) as Hrest;
        [|specialize (Hrest st); destruct (rest st) as [v s2|e s2|s2|]]]
  end.
  - apply (energy_writes_once (Some termination)); [exact HK | |].
    { intros Hids k. cbn. destruct (decide (k = agent_id)) as [->|Hne].
      - intros _. apply Hids. eauto.
      - rewrite lookup_insert_ne by done. apply Hids. }
    apply (agent_terminated _ _ agent_id (Agent.energy ag));
      [done | by apply energies_lookup | done |].
    unfold energies. cbn. rewrite fmap_insert. apply insert_id.
    by rewrite lookup_fmap, Hag.
  - apply follows_bind;
      [apply energy_writes_trans | apply energy_writes_trans | | intros _].
    { apply follows_for_each;
        [apply energy_writes_refl | apply energy_writes_trans
        | apply energy_writes_trans | intros sub].
      apply follows_bind;
        [apply energy_writes_trans | apply energy_writes_trans | writes | intros c].
      apply follows_bind;
        [apply energy_writes_trans | apply energy_writes_trans | apply IH
        | intros _; writes]. }
    apply follows_bind;
      [apply energy_writes_trans | apply energy_writes_trans | writes | intros s1].
    destruct (bool_decide _); [|writes].
    apply follows_bind;
      [apply energy_writes_trans | apply energy_writes_trans | | intros _; writes].
    apply follows_modify. intros s2. by apply energy_writes_none.
  - eapply energy_writes_trans; [exact Hfirst|].
    eapply energy_writes_trans; [exact Hrest|]. by apply energy_writes_none.
  - eapply energy_writes_trans; [exact Hfirst|].
    eapply energy_writes_trans; [exact Hrest|]. by apply energy_writes_none.
  - by eapply energy_writes_trans.
  - done.
Qed.
#[local] Hint Resolve writes_terminate_agent : energy_writes.

Lemma writes_check_axioms fuel : K termination = true → writes_only (check_axioms fuel).
Proof. intros HK. unfold check_axioms. writes. Qed.
#[local] Hint Resolve writes_check_axioms : energy_writes.

Lemma writes_scale_down fuel : K termination = true → writes_only (scale_down fuel).
Proof. intros HK. unfold scale_down, discard. writes. Qed.
#[local] Hint Resolve writes_scale_down : energy_writes.

Lemma writes_graceful_shutdown fuel :
  K termination = true → writes_only (graceful_shutdown fuel).
Proof. intros HK. unfold graceful_shutdown, discard. writes. Qed.

(** *** Redistribution *)

Lemma writes_distribute_energy :
  K redistribution = true → writes_only distribute_energy.
Proof.
  intros HK s. destruct (Sys.lock s) eqn:Hl.
  { unfold distribute_energy, with_lock. rewrite Hl. apply energy_writes_refl. }
  destruct (decide (Forall (λ k, is_Some (Sys.objects s !! k)) (Sys.agents s)))
    as [Hall|Hmiss].
  - rewrite Forall_forall in Hall. rewrite (distribute_energy_effect s Hl Hall).
    destruct (Sys.agents s) as [|a l] eqn:Hagents; cbn [length Nat.ltb Nat.leb].
    { apply energy_writes_refl. }
    apply (energy_writes_once (Some redistribution)); [exact HK | |].
    { intros Hids k Hk. apply Hids. exact (update_all_is_Some _ _ _ _ Hk). }
    apply energy_distributed; [by rewrite Hagents | done |].
    unfold energies. cbn [Sys.objects Sys.set_energy_budget Sys.set_objects].
    rewrite Hagents.
    by apply (energies_update_all (λ e, (e + share_of s)%float)).
  - apply not_Forall_Exists in Hmiss; [|apply _].
    apply Exists_exists in Hmiss as (k & Hin & Hk).
    assert (Sys.objects s !! k = None) as Hnone.
    { destruct (Sys.objects s !! k) eqn:E; [|done]. exfalso. apply Hk. by eexists. }
    unfold distribute_energy, with_lock. rewrite Hl.
    unfold bind at 1. unfold get_state at 1. sys_simpl.
    destruct (Sys.agents s) as [|a l] eqn:Hagents; [by apply elem_of_nil in Hin|].
    cbn [length Nat.ltb Nat.leb]. unfold bind at 1.
    rewrite for_each_update_agent_missing; [done|].
    exists k. by split.
Qed.
#[local] Hint Resolve writes_distribute_energy : energy_writes.

(** *** Consolidation *)

(** One pass of the loop of [consolidate_subagents]. *)
Lemma writes_absorb (self agent : AgentId) :
  K consolidation = true →
  writes_only
    (do c <- get_agent agent;
     do _ <- update_agent self
               (fun x => Agent.set_context (Agent.context x ++ Agent.context c)%list x);
     do c <- get_agent agent;
     do _ <- update_agent self
               (fun x => Agent.set_energy (Agent.energy x + Agent.energy c)%float x);
     do _ <- update_agent agent (Agent.set_energy 0%float);
     update_agent agent (Agent.set_active false)).
Proof.
  intros HK s.
  destruct (Sys.objects s !! agent) as [cag|] eqn:Hc.
  2:{ unfold bind, get_agent. by rewrite Hc. }
  destruct (Sys.objects s !! self) as [a|] eqn:Hself.
  2:{ unfold bind at 1. unfold get_agent at 1. rewrite Hc.
      unfold bind at 1. unfold update_agent, bind at 1, get_agent at 1.
      by rewrite Hself. }
  destruct (decide (agent = self)) as [->|Hne].
  - assert (cag = a) as -> by congruence. run_m.
    apply (energy_writes_once (Some consolidation)); [exact HK | |].
    { intros Hids k. cbn. rewrite !lookup_insert_is_Some'. intros Hk. apply Hids.
      destruct Hk as [->|[->|[->|[->|Hk]]]]; eauto. }
    apply (subagent_absorbed _ _ self self (Agent.energy a) (Agent.energy a));
      [by apply energies_lookup | by apply energies_lookup | done |].
    unfold energies. cbn. rewrite !fmap_insert. cbn. by rewrite !insert_insert_eq.
  - run_m.
    apply (energy_writes_once (Some consolidation)); [exact HK | |].
    { intros Hids k. cbn. rewrite !lookup_insert_is_Some'. intros Hk. apply Hids.
      destruct Hk as [->|[->|[->|[->|Hk]]]]; eauto. }
    apply (subagent_absorbed _ _ self agent (Agent.energy a) (Agent.energy cag));
      [by apply energies_lookup | by apply energies_lookup | done |].
    unfold energies. cbn. rewrite !fmap_insert. cbn.
    apply map_eq. intros k.
    destruct (decide (k = agent)) as [->|?]; [by simplify_map_eq|].
    destruct (decide (k = self)) as [->|?]; by simplify_map_eq.
Qed.

Lemma writes_consolidate_subagents self :
  K consolidation = true → writes_only (consolidate_subagents self).
Proof.
  intros HK. unfold consolidate_subagents.
  apply follows_with_lock;
    [apply energy_writes_refl | apply energy_writes_lock | apply energy_writes_locked |].
  apply follows_bind;
    [apply energy_writes_trans | apply energy_writes_trans | writes | intros a].
  apply follows_bind;
    [apply energy_writes_trans | apply energy_writes_trans | | intros _; writes].
  apply follows_for_each;
    [apply energy_writes_refl | apply energy_writes_trans | apply energy_writes_trans |].
  intros agent. by apply writes_absorb.
Qed.
#[local] Hint Resolve writes_consolidate_subagents : energy_writes.

Lemma writes_strategic_evolution self :
  K consolidation = true → writes_only (strategic_evolution self).
Proof. intros HK. unfold strategic_evolution, simplify_context. writes. Qed.
#[local] Hint Resolve writes_strategic_evolution : energy_writes.

Lemma writes_execute_core_reasoning self task :
  K consolidation = true → writes_only (execute_core_reasoning self task).
Proof. intros HK. unfold execute_core_reasoning. writes. Qed.
#[local] Hint Resolve writes_execute_core_reasoning : energy_writes.

(** *** Task processing *)

Lemma writes_synthesize_results process self :
  (∀ a t, writes_only (process a t)) →
  writes_only (synthesize_results process self).
Proof.
  intros Hp. unfold synthesize_results.
  apply follows_bind;
    [apply energy_writes_trans | apply energy_writes_trans | writes |].
  intros a. apply follows_bind;
    [apply energy_writes_trans | apply energy_writes_trans | | intros; writes].
  apply follows_fold_left; [|writes].
  intros m x Hm. writes.
Qed.

Lemma writes_process_task_body process self task :
  K child_creation = true → K consolidation = true →
  (∀ a t, writes_only (process a t)) →
  writes_only (process_task_body process self task).
Proof.
  intros HK1 HK2 Hp. unfold process_task_body.
  destruct (needs_decomposition task); [|by apply writes_execute_core_reasoning].
  apply follows_bind; [apply energy_writes_trans | apply energy_writes_trans | |].
  - writes.
  - intros _. by apply writes_synthesize_results.
Qed.

Lemma writes_process_task fuel self task :
  K child_creation = true → K consolidation = true → K failure_handling = true →
  writes_only (process_task fuel self task).
Proof.
  intros HK1 HK2 HK3.
  revert self task. induction fuel as [|fuel IH]; intros self task; cbn [process_task].
  - apply follows_undefined.
  - apply follows_try_except; [apply energy_writes_trans | apply energy_writes_trans | |].
    + by apply writes_process_task_body.
    + intros e. writes.
Qed.

Lemma writes_run_iteration fuel self :
  K child_creation = true → K consolidation = true → K failure_handling = true →
  writes_only (run_iteration fuel self).
Proof.
  intros HK1 HK2 HK3. pose proof (writes_process_task fuel) as Hp.
  unfold run_iteration.
  apply follows_bind;
    [apply energy_writes_trans | apply energy_writes_trans | writes | intros a].
  destruct (Agent.active a); [|writes].
  destruct (Agent.task_stack a) as [|task rest]; [writes|].
  apply follows_bind;
    [apply energy_writes_trans | apply energy_writes_trans | |].
  { apply follows_update_agent. intros s ag Hag.
    by apply (energy_writes_insert s self ag). }
  intros _. apply follows_bind;
    [apply energy_writes_trans | apply energy_writes_trans | by apply Hp | intros _; writes].
Qed.

Lemma writes_process_agent_task fuel agent_id task :
  K child_creation = true → K consolidation = true → K failure_handling = true →
  writes_only (process_agent_task fuel agent_id task).
Proof.
  intros HK1 HK2 HK3. pose proof (writes_process_task fuel) as Hp.
  unfold process_agent_task.
  apply follows_bind;
    [apply energy_writes_trans | apply energy_writes_trans | writes | intros s0].
  destruct (bool_decide _); [by apply Hp | writes].
Qed.

(** *** The remaining methods *)

Lemma writes_assess_capabilities self : writes_only (assess_capabilities self).
Proof. unfold assess_capabilities. writes. Qed.

Lemma writes_detect_limitations self : writes_only (detect_limitations self).
Proof. unfold detect_limitations, check_for_loops. writes. Qed.

Lemma writes_check_for_loops self : writes_only (check_for_loops self).
Proof. unfold check_for_loops. writes. Qed.

Lemma writes_derive_subcontext self purpose :
  writes_only (derive_subcontext self purpose).
Proof. unfold derive_subcontext. writes. Qed.

Lemma writes_simplify_context self : writes_only (simplify_context self).
Proof. unfold simplify_context. writes. Qed.

Lemma writes_self_preservation_cycle fuel :
  K termination = true → K redistribution = true →
  writes_only (self_preservation_cycle fuel).
Proof. intros HK1 HK2. unfold self_preservation_cycle. writes. Qed.

Lemma writes_resource_manager_turn fuel cpu_load :
  K termination = true → K top_level_creation = true →
  writes_only (resource_manager_turn fuel cpu_load).
Proof. intros HK1 HK2. unfold resource_manager_turn. writes. Qed.

End Writes.

(** Whatever it is called with and however it ends, every method gets
    from the state it starts in to the state it ends in by steps that
    write no energy and writes of the kinds of [kinds_of]. *)
Lemma writes_call (fuel : nat) (m : method) :
  follows (energy_writes (may_write m)) (energy_writes (may_write m)) (call fuel m).
Proof.
  destruct m as [[parent|] ctx| | | | | | | | | | | | | | | | | | | | | | | | | | | | | |];
    cbn [call].
  all: first
    [ by apply writes_init_child
    | by apply writes_init_top
    | by apply writes_inherit_knowledge
    | by apply writes_discard, writes_create_subagent
    | by apply writes_strategic_evolution
    | by apply writes_consolidate_subagents
    | by apply writes_discard, writes_process_task
    | by apply writes_discard, writes_execute_core_reasoning
    | by apply writes_discard, writes_synthesize_results; intros;
         apply writes_process_task
    | by apply writes_learn_from_failure
    | by apply writes_run_iteration
    | by apply writes_discard, writes_spawn_new_agent
    | by apply writes_discard, writes_terminate_agent
    | by apply writes_distribute_energy
    | by apply writes_discard, writes_system_health_check
    | by apply writes_distribute_tasks
    | by apply writes_discard, writes_process_agent_task
    | by apply writes_check_axioms
    | by apply writes_scale_up
    | by apply writes_scale_down
    | by apply writes_discard, writes_graceful_shutdown
    | by apply writes_discard, writes_reason_about_self
    | by apply writes_discard, writes_all_axioms
    | by apply writes_discard, writes_assess_capabilities
    | by apply writes_discard, writes_detect_limitations
    | by apply writes_discard, writes_check_for_loops
    | by apply writes_discard, writes_derive_subcontext
    | by apply writes_discard, writes_simplify_context
    | by apply writes_self_preservation_cycle
    | by apply writes_resource_manager_turn ].
Qed.

(** What consolidation does to energy. *)
Lemma consolidate_subagents_energy (s : Sys.t) (self : AgentId) (ag : Agent.t) :
  Sys.lock s = false →
  Sys.objects s !! self = Some ag →
  (∀ c, c ∈ Agent.subagents ag → c ≠ self ∧ is_Some (Sys.objects s !! c)) →
  ∃ s', consolidate_subagents self s = Returns tt s' ∧
    Sys.energy_budget s' = Sys.energy_budget s ∧
    energies s' !! self =
      Some (fold_left (fun acc x => (acc + x)%float)
                      (absorbed (energies s) (Agent.subagents ag)) (Agent.energy ag)) ∧
    (∀ c, c ∈ Agent.subagents ag → energies s' !! c = Some 0%float) ∧
    (∀ k, k ≠ self → k ∉ Agent.subagents ag → energies s' !! k = energies s !! k).
Proof.
  intros Hlock Ha Hsubs.
  destruct (consolidate_loop_energy self (Agent.subagents ag) (Sys.set_lock true s) ag
              Ha Hsubs) as (s1 & Hloop & Hs1 & Hself & Hc & Hk).
  unfold consolidate_subagents.
  match type of Hloop with for_each _ ?b _ = _ => set (body := b) in * end.
  unfold with_lock. rewrite Hlock. unfold bind, get_agent at 1.
  cbn [Sys.objects Sys.set_lock]. rewrite Ha, Hloop.
  unfold update_agent, bind, get_agent, modify. rewrite Hself.
  eexists. split; [reflexivity|]. unfold energies. cbn.
  split; [by rewrite Hs1|]. rewrite lookup_fmap, lookup_insert_eq.
  split; [done|]. split.
  - intros c Hin. destruct (Hsubs c Hin) as [Hne [cag Hcag]].
    rewrite lookup_fmap, lookup_insert_ne by done. by rewrite (Hc c cag Hin Hcag).
  - intros k Hks Hkl. rewrite !lookup_fmap, lookup_insert_ne by done.
    by rewrite Hk.
Qed.




(** Creating a child and consolidating moves the child's half back: of
    the two entries of the child, the first brings 50 and the second
    nothing. *)
Example consolidation_moves_energy :
  let s := after (create_subagent 0 (Some "structural")) Examples.one_agent in
  absorbed (energies s) [1; 1] = [50%float; 0%float] ∧
  energies (after (consolidate_subagents 0) s) !! 0 = Some 100%float ∧
  energies (after (consolidate_subagents 0) s) !! 1 = Some 0%float.
Proof. by vm_compute. Qed.

(** A failing task, run by [process_task], reaches the energy through
    [learn_from_failure]: the agent ends with 10 more. *)
Example process_task_failure_energy :
  let s := Examples.idle_child in
  energies s !! 0 = Some 50%float ∧
  energies (after (process_task 3 0 "multi") s) !! 0 = Some 60%float.
Proof. by vm_compute. Qed.

(** An agent made with the constructor alone, with agent 0 as parent: a
    child creation, whatever energy the parent has.  The scheduler's turn
    writes nothing. *)
Example constructor_creates_child :
  let s := Examples.one_agent in
  energies (after (call 1 (m_init (Some 0) None)) s) !! 0 = Some 50%float ∧
  energies (after (call 1 (m_init (Some 0) None)) s) !! 1 = Some 50%float ∧
  energies (after (call 3 m_task_scheduler) s) = energies s.
Proof. by vm_compute. Qed.
